(** * LocationFlex: key-space partitioning, pipelined writes and fallback reads

    A shallow embedding of the write/read orchestration layer of LocationFlex
    ([fast_writer.py], [parallel_writer.py], [simple_reader.py], with the
    helpers they call in [network_utils.py] and [redis_client.py]) and the
    properties its specification states about it.

    Python integers are [Z] (with Python's floor division, which is [Z.div]
    and [Z.modulo]), Python floats are binary64 primitive floats, strings are
    byte strings, dictionaries that are iterated are insertion-ordered
    association lists, the sample table is a finite map.  The Redis server is
    an abstract, stateful interface whose calls may raise. *)

From Stdlib Require Import ZArith Lia DecimalString DecimalZ DecimalPos.
From Corelib Require Import PrimFloat.
From stdpp Require Import base list strings gmap.

Local Open Scope Z_scope.
Set Warnings "-inexact-float,-register-all".

(** ** Python runtime *)

Module Py.

(** The exceptions the modelled code can meet. *)
Inductive exn :=
  | KeyError
  | IndexError
  | ValueError
  | ZeroDivisionError
  | AttributeError
  | UnicodeEncodeError
  | RedisError.

(** The result of running a piece of code: a value, an exception, or no
    result within the given number of loop iterations. *)
Inductive res (A : Type) :=
  | Ret (a : A)
  | Exc (e : exn)
  | Diverged.
Arguments Ret {A} a.
Arguments Exc {A} e.
Arguments Diverged {A}.

(** [range(n)] *)
Definition range (n : Z) : list Z := Z.of_nat <$> seq 0 (Z.to_nat n).

(** [range(start, stop, step)]; a zero step raises [ValueError]. *)
Definition range3 (start stop step : Z) : res (list Z) :=
  if step =? 0 then Exc ValueError
  else if 0 <? step then
    Ret ((λ i, start + Z.of_nat i * step) <$> seq 0 (Z.to_nat ((stop - start + step - 1) / step)))
  else
    Ret ((λ i, start + Z.of_nat i * step) <$> seq 0 (Z.to_nat ((start - stop - step - 1) / (- step)))).

(** One bound of a slice [l[lo:hi]]: negative indices count from the end,
    and the result is clamped to [0, len(l)]. *)
Definition slice_bound (len i : Z) : Z :=
  let i := if i <? 0 then i + len else i in
  if i <? 0 then 0 else if len <? i then len else i.

(** [l[lo:hi]] *)
Definition slice {A} (l : list A) (lo hi : Z) : list A :=
  let len := Z.of_nat (length l) in
  let lo' := slice_bound len lo in
  let hi' := slice_bound len hi in
  take (Z.to_nat (hi' - lo')) (drop (Z.to_nat lo') l).

(** [str(n)] for an integer. *)
Definition str_int (z : Z) : string := NilZero.string_of_int (Z.to_int z).

(** [min(a, b)] *)
Definition min (a b : Z) : Z := if b <? a then b else a.

(** The Python values that the Redis client and [json.loads] hand back. *)
Inductive pyval :=
  | PyNone
  | PyBool (b : bool)
  | PyInt (z : Z)
  | PyFloat (f : float)
  | PyStr (s : string)
  | PyList (l : list pyval)
  | PyDict (d : list (string * pyval)).

(** Truth value of [if v:]: [None], [False], zero and the empty string,
    list and dict are false. *)
Definition truthy (v : pyval) : bool :=
  match v with
  | PyNone => false
  | PyBool b => b
  | PyInt z => negb (z =? 0)
  | PyFloat f => negb (PrimFloat.eqb f 0)
  | PyStr s => negb (String.eqb s "")
  | PyList l => match l with [] => false | _ => true end
  | PyDict d => match d with [] => false | _ => true end
  end.

(** A [dict] with string keys, in insertion order. *)
Definition dict (V : Type) : Type := list (string * V).

(** [d[k] = v]: an existing key keeps its place. *)
Fixpoint dict_set {V} (d : dict V) (k : string) (v : V) : dict V :=
  match d with
  | [] => [(k, v)]
  | (k', v') :: d' =>
      if String.eqb k' k then (k', v) :: d' else (k', v') :: dict_set d' k v
  end.

(** Truth value of [if d:] for a dict. *)
Definition dict_nonempty {V} (d : dict V) : bool :=
  match d with [] => false | _ => true end.

(** Code that reads and writes a state of type [S] and may raise. *)
Definition M (S A : Type) : Type := S → res A * S.

Definition ret {S A} (a : A) : M S A := λ s, (Ret a, s).

Definition raise {S A} (e : exn) : M S A := λ s, (Exc e, s).

Definition diverge {S A} : M S A := λ s, (Diverged, s).

Definition bind {S A B} (m : M S A) (k : A → M S B) : M S B :=
  λ s, match m s with
       | (Ret a, s') => k a s'
       | (Exc e, s') => (Exc e, s')
       | (Diverged, s') => (Diverged, s')
       end.

(** [try: m except Exception: h] *)
Definition try_except {S A} (m : M S A) (h : exn → M S A) : M S A :=
  λ s, match m s with
       | (Exc e, s') => h e s'
       | r => r
       end.

Definition get_state {S} : M S S := λ s, (Ret s, s).

(** [[f(x) for x in l]] *)
Fixpoint for_each {S A B} (f : A → M S B) (l : list A) : M S (list B) :=
  match l with
  | [] => ret []
  | x :: l' => bind (f x) (λ y, bind (for_each f l') (λ ys, ret (y :: ys)))
  end.

End Py.

Import Py.

Notation "x <- c1 ;; c2" := (Py.bind c1 (λ x, c2))
  (at level 20, c1 at level 99, c2 at level 200, right associativity).
Notation "' pat <- c1 ;; c2" := (Py.bind c1 (λ x, match x with pat => c2 end))
  (at level 20, pat pattern, c1 at level 99, c2 at level 200, right associativity).

(** ** network_utils.py *)

Module NetworkUtils.

(** [f"ip:{version}:{key_id}"] *)
Definition create_redis_key_simple (key_id : Z) (version : string) : string :=
  "ip:" +:+ version +:+ ":" +:+ str_int key_id.

End NetworkUtils.

(** ** redis_client.py and the server behind it *)

Module Redis.

(** What a call to the server comes back with. *)
Inductive answer (A : Type) :=
  | Ok (a : A)
  | Fail (e : exn).
Arguments Ok {A} a.
Arguments Fail {A} e.

(** The commands queued on a pipeline. *)
Inductive command :=
  | CmdGet (key : string)
  | CmdSetex (key : string) (ttl : Z) (value : string).

(** The requests the client sends, in the order it sends them. *)
Inductive event :=
  | Get (key : string)
  | Setex (key : string) (ttl : Z) (value : string)
  | Pipeline (cmds : list command).

(** The result of [json.loads]. *)
Inductive json_result :=
  | Parsed (v : pyval)
  | JSONDecodeError
  | JSONOtherError.

(** The surroundings of the program: the Redis server reached through
    redis-py (each call answers or raises, and may change the server), the
    clock, the interrupt signal, the random generator, and the library
    functions whose results the program only tests or measures:
    [json.loads], and, for the rendering [json.dumps(v)] (for a dict) or
    [str(v)] of a value, whether [.encode('utf-8')] accepts it and the
    length of the result.  The encoding raises [UnicodeEncodeError] on a
    string that holds a lone surrogate: [json.loads] returns such a string
    for a document like ["\ud800"], while a reply the client has decoded
    from the server never holds one. *)
Class Env (W : Type) := {
  redis_get : string → W → answer (option string) * W;
  redis_setex : string → Z → string → W → answer bool * W;
  redis_execute : list command → W → answer (list pyval) * W;
  time_now : W → float;
  sigint_delivered : W → bool;
  duration_elapsed : float → Z → W → bool;
  sleep : W → W;
  randint : Z → Z → W → answer Z * W;
  json_loads : string → json_result;
  encodable : pyval → bool;
  rendered_size : pyval → Z;
}.

(** The server together with the log of the requests sent so far. *)
Record world (W : Type) := {
  server : W;
  log : list event;
}.
Arguments server {W} _.
Arguments log {W} _.

Section Client.
Context {W : Type} `{Env W} {O : Type}.

Definition call {A} (ev : event) (f : W → answer A * W) : M (O * world W) A :=
  λ '(o, w),
    let '(a, s') := f (server w) in
    let w' := {| server := s'; log := log w ++ [ev] |} in
    match a with
    | Ok x => (Ret x, (o, w'))
    | Fail e => (Exc e, (o, w'))
    end.

(** [self.client.get(key)] *)
Definition client_get (key : string) : M (O * world W) (option string) :=
  call (Get key) (redis_get key).

(** [self.client.setex(key, ttl, value)] *)
Definition client_setex (key : string) (ttl : Z) (value : string) : M (O * world W) bool :=
  call (Setex key ttl value) (redis_setex key ttl value).

(** A pipeline with [cmds] queued, then [pipe.execute()]. *)
Definition pipeline_execute (cmds : list command) : M (O * world W) (list pyval) :=
  call (Pipeline cmds) (redis_execute cmds).

(** [random.randint(a, b)]; not a request to the server. *)
Definition random_randint (a b : Z) : M (O * world W) Z :=
  λ '(o, w),
    let '(r, s') := randint a b (server w) in
    let w' := {| server := s'; log := log w |} in
    match r with
    | Ok x => (Ret x, (o, w'))
    | Fail e => (Exc e, (o, w'))
    end.

(** [time.sleep(...)] *)
Definition time_sleep : M (O * world W) () :=
  λ '(o, w), (Ret (), (o, {| server := sleep (server w); log := log w |})).

(** [time.time()] *)
Definition now : M (O * world W) float :=
  λ '(o, w), (Ret (time_now (server w)), (o, w)).

(** [RedisClient.get_value] *)
Definition get_value (key : string) : M (O * world W) pyval :=
  try_except
    (value <- client_get key ;;
     match value with
     | None => ret PyNone
     | Some s =>
         match json_loads s with
         | Parsed v => ret v
         | JSONDecodeError => ret (PyStr s)
         | JSONOtherError => raise ValueError
         end
     end)
    (λ _, ret PyNone).

(** [RedisClient.set_value_with_ttl]; the value is always a [str] here. *)
Definition set_value_with_ttl (key value : string) (ttl_seconds : Z) : M (O * world W) bool :=
  try_except (client_setex key ttl_seconds value) (λ _, ret false).

End Client.

End Redis.

Import Redis.

(** ** fast_writer.py *)

Module FastWriter.

(** The fields of a [FastWriter]; [key_ttl_seconds] is what reading
    [self.config.writer.key_ttl_seconds] gives: [None] when the read raises
    [AttributeError], as it does when an integer override from the
    environment ([LOCATIONFLEX_WRITER_TTL] and the like) has replaced
    [config.writer] by an [int]. *)
Record t := {
  max_daily_keys : Z;
  skip_probability : float;
  version : string;
  key_ttl_seconds : option Z;
  keys_written : Z;
  keys_skipped : Z;
  start_time : float;
  running : bool;
  current_key_id : Z;
  sample_keys : gmap string string;
}.

Definition set_current_key_id (v : Z) (self : t) : t :=
  {| max_daily_keys := max_daily_keys self; skip_probability := skip_probability self;
     version := version self; key_ttl_seconds := key_ttl_seconds self;
     keys_written := keys_written self; keys_skipped := keys_skipped self;
     start_time := start_time self; running := running self;
     current_key_id := v; sample_keys := sample_keys self |}.

Definition set_running (v : bool) (self : t) : t :=
  {| max_daily_keys := max_daily_keys self; skip_probability := skip_probability self;
     version := version self; key_ttl_seconds := key_ttl_seconds self;
     keys_written := keys_written self; keys_skipped := keys_skipped self;
     start_time := start_time self; running := v;
     current_key_id := current_key_id self; sample_keys := sample_keys self |}.

Definition set_skip_probability (v : float) (self : t) : t :=
  {| max_daily_keys := max_daily_keys self; skip_probability := v;
     version := version self; key_ttl_seconds := key_ttl_seconds self;
     keys_written := keys_written self; keys_skipped := keys_skipped self;
     start_time := start_time self; running := running self;
     current_key_id := current_key_id self; sample_keys := sample_keys self |}.

(** [self.keys_written += written; self.keys_skipped += skipped] *)
Definition add_counts (written skipped : Z) (self : t) : t :=
  {| max_daily_keys := max_daily_keys self; skip_probability := skip_probability self;
     version := version self; key_ttl_seconds := key_ttl_seconds self;
     keys_written := keys_written self + written;
     keys_skipped := keys_skipped self + skipped;
     start_time := start_time self; running := running self;
     current_key_id := current_key_id self; sample_keys := sample_keys self |}.

(** [FastWriter.__init__], given the configured version, the TTL of the
    configuration ([None] when [config.writer] has no such attribute), the
    clock reading and the loaded sample table. *)
Definition init (max_daily_keys : Z) (skip_probability : float)
    (config_version : string) (config_ttl : option Z) (clock : float)
    (samples : gmap string string) : t :=
  {| max_daily_keys := max_daily_keys; skip_probability := skip_probability;
     version := config_version; key_ttl_seconds := config_ttl;
     keys_written := 0; keys_skipped := 0;
     start_time := clock; running := true;
     current_key_id := 0; sample_keys := samples |}.

Section Writer.
Context {W : Type} `{Env W}.

Definition get_self : M (t * world W) t := λ '(o, w), (Ret o, (o, w)).

Definition update_self (f : t → t) : M (t * world W) () := λ '(o, w), (Ret (), (f o, w)).

(** [get_key_data]: a sample index missing from the table raises
    [KeyError]. *)
Definition get_key_data (key_id : Z) : M (t * world W) (string * string) :=
  self <- get_self ;;
  let sample_index := str_int (key_id mod 100) in
  match sample_keys self !! sample_index with
  | Some redis_value =>
      let redis_key := NetworkUtils.create_redis_key_simple key_id (version self) in
      ret (redis_key, redis_value)
  | None => raise KeyError
  end.

(** The [for _ in range(current_batch_size)] loop of
    [write_pipeline_batches], with [n] iterations left. *)
Fixpoint prepare_batch (n : nat) (batch_data : dict string) : M (t * world W) (dict string) :=
  match n with
  | O => ret batch_data
  | S n' =>
      self <- get_self ;;
      if max_daily_keys self <=? current_key_id self then ret batch_data
      else
        let key_id := current_key_id self in
        _ <- update_self (set_current_key_id (key_id + 1)) ;;
        ' (redis_key, redis_value) <- get_key_data key_id ;;
        prepare_batch n' (dict_set batch_data redis_key redis_value)
  end.

(** [self.config.writer.key_ttl_seconds] *)
Definition config_writer_key_ttl_seconds : M (t * world W) Z :=
  self <- get_self ;;
  match key_ttl_seconds self with
  | Some ttl => ret ttl
  | None => raise AttributeError
  end.

(** The fallback loop: one individual write per item of the batch.  The
    TTL is read as an argument of the call, inside the inner [try]. *)
Fixpoint individual_writes (items : list (string * string)) (written : Z) : M (t * world W) Z :=
  match items with
  | [] => ret written
  | (key, value) :: items' =>
      written <- try_except
                   (ttl <- config_writer_key_ttl_seconds ;;
                    success <- set_value_with_ttl key value ttl ;;
                    ret (if success : bool then written + 1 else written))
                   (λ _, ret written) ;;
      individual_writes items' written
  end.

(** The commands queued on the pipeline for a batch. *)
Definition batch_commands (ttl : Z) (batch_data : dict string) : list command :=
  (λ '(key, value), CmdSetex key ttl value) <$> batch_data.

(** The [for key, value in batch_data.items()] loop that queues the
    commands: each [pipe.setex] reads the TTL as its argument. *)
Fixpoint queue_batch (items : list (string * string)) : M (t * world W) (list command) :=
  match items with
  | [] => ret []
  | (key, value) :: items' =>
      ttl <- config_writer_key_ttl_seconds ;;
      cmds <- queue_batch items' ;;
      ret (CmdSetex key ttl value :: cmds)
  end.

(** The [try: ... except Exception: ...] that writes one batch. *)
Definition write_batch (batch_data : dict string) (written : Z) : M (t * world W) Z :=
  try_except
    (cmds <- queue_batch batch_data ;;
     results <- pipeline_execute cmds ;;
     ret (written + Z.of_nat (length (filter (λ r, truthy r = true) results))))
    (λ _, individual_writes batch_data written).

(** The [while] loop of [write_pipeline_batches]. *)
Fixpoint write_loop (fuel : nat) (batch_size remaining written skipped : Z)
    : M (t * world W) (Z * Z) :=
  match fuel with
  | O => diverge
  | S fuel' =>
      self <- get_self ;;
      if (0 <? remaining) && (current_key_id self <? max_daily_keys self) then
        let current_batch_size := Py.min batch_size remaining in
        batch_data <- prepare_batch (Z.to_nat current_batch_size) [] ;;
        written <- (if dict_nonempty batch_data then write_batch batch_data written
                    else ret written) ;;
        write_loop fuel' batch_size (remaining - current_batch_size) written skipped
      else ret (written, skipped)
  end.

Definition write_pipeline_batches (fuel : nat) (count batch_size : Z) : M (t * world W) (Z * Z) :=
  write_loop fuel batch_size count 0 0.

(** The SIGINT handler installed by [run_continuous] clears [running]. *)
Definition handle_signals : M (t * world W) () :=
  λ '(o, w), (Ret (), (if sigint_delivered (server w) then set_running false o else o, w)).

(** [if target_keys and self.keys_written >= target_keys] *)
Definition target_reached (target_keys : option Z) (self : t) : bool :=
  match target_keys with
  | Some n => negb (n =? 0) && (n <=? keys_written self)
  | None => false
  end.

(** [if duration_seconds and (time.time() - self.start_time) >= duration_seconds] *)
Definition duration_reached (duration_seconds : option Z) (self : t) (w : world W) : bool :=
  match duration_seconds with
  | Some d => negb (d =? 0) && duration_elapsed (start_time self) d (server w)
  | None => false
  end.

(** The progress report, due every 5 seconds; its skip rate divides by the
    number of attempts. *)
Definition progress_report (last_report : float) : M (t * world W) float :=
  t_now <- now ;;
  if PrimFloat.leb 5 (PrimFloat.sub t_now last_report) then
    self <- get_self ;;
    if keys_written self + keys_skipped self =? 0 then raise ZeroDivisionError
    else ret t_now
  else ret last_report.

(** The [while self.running] loop of [run_continuous]. *)
Fixpoint continuous_loop (fuel : nat) (target_keys duration_seconds : option Z)
    (last_report : float) : M (t * world W) () :=
  match fuel with
  | O => diverge
  | S fuel' =>
      _ <- handle_signals ;;
      ' (self, w) <- get_state ;;
      if negb (running self) then ret ()
      else if target_reached target_keys self then ret ()
      else if duration_reached duration_seconds self w then ret ()
      else if max_daily_keys self <=? current_key_id self then ret ()
      else
        ' (written, skipped) <- write_pipeline_batches fuel' 100 50 ;;
        _ <- update_self (add_counts written skipped) ;;
        last_report <- progress_report last_report ;;
        _ <- time_sleep ;;
        continuous_loop fuel' target_keys duration_seconds last_report
  end.

(** [print_final_stats] only prints; its rates divide by the elapsed time,
    the number of attempts, the key-space size and the cursor. *)
Definition print_final_stats : M (t * world W) () :=
  t_now <- now ;;
  self <- get_self ;;
  let elapsed := PrimFloat.sub t_now (start_time self) in
  if PrimFloat.eqb elapsed 0
     || (keys_written self + keys_skipped self =? 0)
     || (max_daily_keys self =? 0)
     || (current_key_id self =? 0)
  then raise ZeroDivisionError
  else ret ().

Definition run_continuous (fuel : nat) (target_keys duration_seconds : option Z)
    : M (t * world W) () :=
  last_report <- now ;;
  _ <- continuous_loop fuel target_keys duration_seconds last_report ;;
  print_final_stats.

End Writer.

End FastWriter.

(** ** parallel_writer.py *)

Module ParallelWriter.

(** The arguments of one [_create_writer_for_range] task. *)
Record writer_task := {
  writer_id : Z;
  start_key : Z;
  end_key : Z;
}.

(** The body of the loop of [run_parallel_import] that computes the range
    of writer [i]. *)
Definition task_for (target_keys num_writers i : Z) : writer_task :=
  let keys_per_writer := target_keys / num_writers in
  let remainder := target_keys mod num_writers in
  let start_key := i * keys_per_writer in
  let end_key := start_key + keys_per_writer in
  let end_key := if i =? num_writers - 1 then end_key + remainder else end_key in
  {| writer_id := i + 1; start_key := start_key; end_key := end_key |}.

(** The tasks submitted by [run_parallel_import], in submission order.
    [target_keys // num_writers] raises for zero writers, and the thread
    pool refuses a non-positive number of workers. *)
Definition submitted_tasks (target_keys num_writers : Z) : res (list writer_task) :=
  if num_writers =? 0 then Exc ZeroDivisionError
  else if num_writers <? 0 then Exc ValueError
  else Ret (task_for target_keys num_writers <$> range num_writers).

(** Whether key id [k] lies in the half-open range of a task. *)
Definition covers (k : Z) (t : writer_task) : Prop :=
  start_key t ≤ k < end_key t.

#[global] Instance covers_dec k t : Decision (covers k t).
Proof. unfold covers. apply _. Defined.

(** The estimate printed at the end of [run_full_parallel_import]:
    [None] when no estimate is printed, and a division by a zero rate
    raises. *)
Definition estimated_66m_time (target_keys : Z) (combined_rate : float) : option (res float) :=
  if target_keys <? 66000000 then
    Some (if PrimFloat.eqb combined_rate 0 then Exc ZeroDivisionError
          else Ret (66000000 * 2 * 0.95 / combined_rate / 3600)%float)
  else None.

End ParallelWriter.

(** ** simple_reader.py *)

Module SimpleReader.

Record ReadResult := {
  key_id : Z;
  found_version : option string;
  value_size : Z;
  read_time : float;
  success : bool;
}.

Record ReadStats := {
  total_reads : Z;
  successful_reads : Z;
  cache_misses : Z;
  primary_hits : Z;
  fallback_hits : Z;
  total_time : float;
  total_data_bytes : Z;
}.

(** The fields of a [SimpleReader]. *)
Record t := {
  max_daily_keys : Z;
  primary_version : string;
  fallback_version : string;
  results : list ReadResult;
  running : bool;
}.

Definition set_running (v : bool) (self : t) : t :=
  {| max_daily_keys := max_daily_keys self; primary_version := primary_version self;
     fallback_version := fallback_version self; results := results self; running := v |}.

(** [found_version == version] *)
Definition version_is (found : option string) (version : string) : bool :=
  bool_decide (found = Some version).

(** [_calculate_stats], on [self.results]. *)
Definition _calculate_stats (self : t) (total_time : float) : ReadStats :=
  let total := Z.of_nat (length (results self)) in
  match results self with
  | [] =>
      {| total_reads := total; successful_reads := 0; cache_misses := 0;
         primary_hits := 0; fallback_hits := 0; total_time := total_time;
         total_data_bytes := 0 |}
  | _ =>
      let successful_results := filter (λ r, success r = true) (results self) in
      let successful := Z.of_nat (length successful_results) in
      {| total_reads := total;
         successful_reads := successful;
         cache_misses := total - successful;
         primary_hits :=
           Z.of_nat (length (filter (λ r, version_is (found_version r) (primary_version self) = true)
                                    successful_results));
         fallback_hits :=
           Z.of_nat (length (filter (λ r, version_is (found_version r) (fallback_version self) = true)
                                    successful_results));
         total_time := total_time;
         total_data_bytes :=
           match successful_results with
           | [] => 0
           | _ => foldr Z.add 0 (value_size <$> successful_results)
           end |}
  end.

(** One step of the [for result in all_results] loop of the two pipelined
    benchmarks. *)
Definition count_result (self : t) (stats : ReadStats) (result : ReadResult) : ReadStats :=
  if success result then
    if version_is (found_version result) (primary_version self) then
      {| total_reads := total_reads stats;
         successful_reads := successful_reads stats + 1;
         cache_misses := cache_misses stats;
         primary_hits := primary_hits stats + 1;
         fallback_hits := fallback_hits stats;
         total_time := total_time stats;
         total_data_bytes := total_data_bytes stats + value_size result |}
    else
      {| total_reads := total_reads stats;
         successful_reads := successful_reads stats + 1;
         cache_misses := cache_misses stats;
         primary_hits := primary_hits stats;
         fallback_hits := fallback_hits stats + 1;
         total_time := total_time stats;
         total_data_bytes := total_data_bytes stats + value_size result |}
  else
    {| total_reads := total_reads stats;
       successful_reads := successful_reads stats;
       cache_misses := cache_misses stats + 1;
       primary_hits := primary_hits stats;
       fallback_hits := fallback_hits stats;
       total_time := total_time stats;
       total_data_bytes := total_data_bytes stats |}.

(** The statistics the two pipelined benchmarks compute from the merged
    results. *)
Definition pipeline_stats (self : t) (total_time : float) (all_results : list ReadResult) : ReadStats :=
  foldl (count_result self)
        {| total_reads := Z.of_nat (length all_results);
           successful_reads := 0; cache_misses := 0; primary_hits := 0;
           fallback_hits := 0; total_time := total_time; total_data_bytes := 0 |}
        all_results.

(** The classification of one (primary, fallback) pair of pipeline
    results in [_read_batch_with_pipeline].  The results are replies as
    the client decoded them, which the encoding accepts. *)
Definition classify_pair `{Env W} (self : t) (key_id : Z) (read_time : float)
    (primary_result fallback_result : pyval) : ReadResult :=
  if truthy primary_result then
    {| key_id := key_id; found_version := Some (primary_version self);
       value_size := rendered_size primary_result;
       read_time := read_time; success := true |}
  else if truthy fallback_result then
    {| key_id := key_id; found_version := Some (fallback_version self);
       value_size := rendered_size fallback_result;
       read_time := read_time; success := true |}
  else
    {| key_id := key_id; found_version := None; value_size := 0;
       read_time := read_time; success := false |}.

(** The slices handed to the threads of
    [run_multithreaded_pipeline_benchmark], for the loop indices [idxs]
    still to run. *)
Fixpoint slices_from (all_key_ids : list Z) (reads_per_thread remaining_reads key_offset : Z)
    (idxs : list Z) : list (Z * list Z) :=
  match idxs with
  | [] => []
  | i :: idxs' =>
      let thread_reads := reads_per_thread + (if i <? remaining_reads then 1 else 0) in
      let thread_key_ids := Py.slice all_key_ids key_offset (key_offset + thread_reads) in
      (i + 1, thread_key_ids)
        :: slices_from all_key_ids reads_per_thread remaining_reads (key_offset + thread_reads) idxs'
  end.

(** The (thread id, key ids) arguments of the threads started by
    [run_multithreaded_pipeline_benchmark]. *)
Definition thread_slices (all_key_ids : list Z) (total_reads num_threads : Z)
    : res (list (Z * list Z)) :=
  if num_threads =? 0 then Exc ZeroDivisionError
  else
    let reads_per_thread := total_reads / num_threads in
    let remaining_reads := total_reads mod num_threads in
    Ret (slices_from all_key_ids reads_per_thread remaining_reads 0 (Py.range num_threads)).

Section Reader.
Context {W : Type} `{Env W}.

Definition get_self : M (t * world W) t := λ '(o, w), (Ret o, (o, w)).

(** [generate_random_key_id(max_daily_keys)] *)
Definition generate_random_key_id (max_daily_keys : Z) : M (t * world W) Z :=
  random_randint 0 (max_daily_keys - 1).

(** One of the two [try] blocks of [read_key_with_fallback]: [Some] is a
    [return] from inside the block.  The size is computed inside the
    block, after the clock is read, so a value that cannot be encoded
    leaves the block through [except Exception: pass] like a miss. *)
Definition try_version (key_id : Z) (version : string) (start_time : float)
    : M (t * world W) (option ReadResult) :=
  let key := NetworkUtils.create_redis_key_simple key_id version in
  try_except
    (value <- get_value key ;;
     if truthy value then
       t_now <- now ;;
       if encodable value then
         ret (Some {| key_id := key_id; found_version := Some version;
                      value_size := rendered_size value;
                      read_time := PrimFloat.sub t_now start_time;
                      success := true |})
       else raise UnicodeEncodeError
     else ret None)
    (λ _, ret None).

Definition read_key_with_fallback (key_id : Z) : M (t * world W) ReadResult :=
  start_time <- now ;;
  self <- get_self ;;
  hit <- try_version key_id (primary_version self) start_time ;;
  match hit with
  | Some result => ret result
  | None =>
      hit <- try_version key_id (fallback_version self) start_time ;;
      match hit with
      | Some result => ret result
      | None =>
          t_now <- now ;;
          ret {| key_id := key_id; found_version := None; value_size := 0;
                 read_time := PrimFloat.sub t_now start_time; success := false |}
      end
  end.

(** The GETs queued by [_read_batch_with_pipeline]: for each key id the
    primary key, then the fallback key. *)
Definition batch_gets (self : t) (key_ids : list Z) : list command :=
  key_id ← key_ids;
  [CmdGet (NetworkUtils.create_redis_key_simple key_id (primary_version self));
   CmdGet (NetworkUtils.create_redis_key_simple key_id (fallback_version self))].

(** [pipeline_results[i]]; the indices used are never negative. *)
Definition index (pipeline_results : list pyval) (i : nat) : M (t * world W) pyval :=
  match pipeline_results !! i with
  | Some r => ret r
  | None => raise IndexError
  end.

(** The [for i, key_id in enumerate(key_ids)] loop of
    [_read_batch_with_pipeline], from position [i] on. *)
Fixpoint classify_from (start_time : float) (pipeline_results : list pyval) (i : nat)
    (key_ids : list Z) : M (t * world W) (list ReadResult) :=
  match key_ids with
  | [] => ret []
  | key_id :: key_ids' =>
      self <- get_self ;;
      primary_result <- index pipeline_results (i * 2) ;;
      fallback_result <- index pipeline_results (i * 2 + 1) ;;
      t_now <- now ;;
      let result := classify_pair self key_id (PrimFloat.sub t_now start_time)
                                  primary_result fallback_result in
      rest <- classify_from start_time pipeline_results (S i) key_ids' ;;
      ret (result :: rest)
  end.

Definition _read_batch_with_pipeline (key_ids : list Z) : M (t * world W) (list ReadResult) :=
  start_time <- now ;;
  self <- get_self ;;
  try_except
    (pipeline_results <- pipeline_execute (batch_gets self key_ids) ;;
     classify_from start_time pipeline_results 0 key_ids)
    (λ _, for_each read_key_with_fallback key_ids).

(** [key_ids[i:i + batch_size]] for the batch that starts at [i]. *)
Definition batch_at (key_ids : list Z) (batch_size i : Z) : list Z :=
  Py.slice key_ids i (i + batch_size).

Definition read_keys_pipeline_batch (key_ids : list Z) (batch_size : Z)
    : M (t * world W) (list ReadResult) :=
  match Py.range3 0 (Z.of_nat (length key_ids)) batch_size with
  | Ret starts =>
      batches <- for_each (λ i, _read_batch_with_pipeline (batch_at key_ids batch_size i)) starts ;;
      ret (concat batches)
  | Exc e => raise e
  | Diverged => diverge
  end.

(** [run_pipeline_benchmark]; the printed throughput divides by the
    duration. *)
Definition run_pipeline_benchmark (total_reads batch_size : Z) : M (t * world W) ReadStats :=
  _ <- (λ '(o, w), (Ret (), (set_running true o, w))) ;;
  start_time <- now ;;
  self <- get_self ;;
  key_ids <- for_each (λ _, generate_random_key_id (max_daily_keys self)) (Py.range total_reads) ;;
  all_results <- read_keys_pipeline_batch key_ids batch_size ;;
  end_time <- now ;;
  let total_time := PrimFloat.sub end_time start_time in
  let stats := pipeline_stats self total_time all_results in
  if PrimFloat.eqb total_time 0 then raise ZeroDivisionError else ret stats.

End Reader.

End SimpleReader.

(** ** An in-memory server *)

Module InMemory.

(** A table of string values, a clock that advances by one second with
    every request, and whether pipelined calls are served (they raise when
    they are not).  Single requests are always served. *)
Record server := {
  store : gmap string string;
  clock : float;
  pipelines : bool;
}.

Definition tick (s : server) : server :=
  {| store := store s; clock := PrimFloat.add (clock s) 1; pipelines := pipelines s |}.

Definition put (key value : string) (s : server) : server :=
  {| store := <[key:=value]> (store s); clock := clock s; pipelines := pipelines s |}.

Definition execute_one (c : command) (s : server) : pyval * server :=
  match c with
  | CmdGet key =>
      (match store s !! key with Some v => PyStr v | None => PyNone end, s)
  | CmdSetex key _ value => (PyBool true, put key value s)
  end.

Fixpoint execute_all (cmds : list command) (s : server) : list pyval * server :=
  match cmds with
  | [] => ([], s)
  | c :: cmds' =>
      let '(r, s1) := execute_one c s in
      let '(rs, s2) := execute_all cmds' s1 in
      (r :: rs, s2)
  end.

(** The server as the program sees it, for a given JSON decoder, a given
    test of what the encoding accepts and a given measure of rendered
    values.  No interrupt arrives, no duration limit is hit, and
    [randint(a, b)] draws [a]. *)
Definition env_with (decode : string → json_result) (accepts : pyval → bool)
    (size : pyval → Z) : Env server :=
  {| redis_get key s := (Ok (store s !! key), tick s);
     redis_setex key _ value s := (Ok true, tick (put key value s));
     redis_execute cmds s :=
       if pipelines s then let '(rs, s') := execute_all cmds s in (Ok rs, tick s')
       else (Fail RedisError, tick s);
     time_now s := clock s;
     sigint_delivered _ := false;
     duration_elapsed _ _ _ := false;
     sleep s := tick s;
     randint a b s := (if b <? a then Fail ValueError else Ok a, s);
     json_loads := decode;
     encodable := accepts;
     rendered_size := size |}.

(** The same when every decoded value can be encoded. *)
Definition env (decode : string → json_result) (size : pyval → Z) : Env server :=
  env_with decode (λ _, true) size.

(** A decoder for stores whose values are not JSON documents, and the
    byte length of a string value. *)
Definition no_json (s : string) : json_result := JSONDecodeError.

Definition str_size (v : pyval) : Z :=
  match v with
  | PyStr s => Z.of_nat (String.length s)
  | _ => 0
  end.

(** The JSON document ["\ud800"], and the string [json.loads] returns for
    it: one lone surrogate, written as the three bytes ED A0 80. *)
Definition double_quote : string := String (Ascii.ascii_of_nat 34) EmptyString.

Definition surrogate_document : string := double_quote +:+ "\ud800" +:+ double_quote.

Definition lone_surrogate : string :=
  String (Ascii.ascii_of_nat 237)
    (String (Ascii.ascii_of_nat 160) (String (Ascii.ascii_of_nat 128) EmptyString)).

(** [json.loads] on the stored texts of the examples: the document above,
    the empty object, and texts that are no JSON documents. *)
Definition decode_documents (s : string) : json_result :=
  if String.eqb s surrogate_document then Parsed (PyStr lone_surrogate)
  else if String.eqb s "{}" then Parsed (PyDict [])
  else JSONDecodeError.

(** The encoding refuses the lone surrogate. *)
Definition accepts_utf8 (v : pyval) : bool :=
  match v with
  | PyStr s => negb (String.eqb s lone_surrogate)
  | _ => true
  end.

(** A sample table with the hundred indices [get_key_data] uses. *)
Definition samples : gmap string string :=
  list_to_map ((λ i, (str_int i, "{}")) <$> Py.range 100).

(** The server at the start, with the given entries and no request yet. *)
Definition start (pipelines : bool) (entries : list (string * string)) : world server :=
  {| Redis.server := {| store := list_to_map entries; clock := 0; pipelines := pipelines |};
     log := [] |}.

(** A writer for the ids below 5, and a reader of ["v23"] with fallback
    ["v22"]. *)
Definition writer : FastWriter.t :=
  FastWriter.init 5 0.05 "v22" (Some 259200) 0 samples.

Definition reader : SimpleReader.t :=
  {| SimpleReader.max_daily_keys := 100;
     SimpleReader.primary_version := "v23";
     SimpleReader.fallback_version := "v22";
     SimpleReader.results := [];
     SimpleReader.running := true |}.

End InMemory.

(** ** Vocabulary of the properties *)

Module Spec.

(** [m] relates every state it starts in to the state it ends in,
    however it ends. *)
Definition preserves {S A} (R : S → S → Prop) (m : M S A) : Prop :=
  ∀ s, R s (m s).2.

(** [m] returns or raises from every state. *)
Definition terminates {S A} (m : M S A) : Prop :=
  ∀ s, (m s).1 ≠ Diverged.

(** The object the code runs on is left as it was. *)
Definition same_self {O W} (s s' : O * world W) : Prop := s'.1 = s.1.

(** The part [π] of the object the code runs on is left as it was. *)
Definition keeps {O W X} (π : O → X) (s s' : O * world W) : Prop := π s'.1 = π s.1.

(** The cursor of a writer does not go back, the bound stays, and a cursor
    within the bound stays within it. *)
Definition cursor_ok {W} (s s' : FastWriter.t * world W) : Prop :=
  FastWriter.max_daily_keys s'.1 = FastWriter.max_daily_keys s.1
  ∧ FastWriter.current_key_id s.1 ≤ FastWriter.current_key_id s'.1
  ∧ (FastWriter.current_key_id s.1 ≤ FastWriter.max_daily_keys s.1 →
     FastWriter.current_key_id s'.1 ≤ FastWriter.max_daily_keys s.1).

(** A sequence of calls of [write_pipeline_batches], each with its own
    arguments (and its own bound on the iterations modelled). *)
Definition calls `{Env W} (cs : list (nat * Z * Z)) : M (FastWriter.t * world W) (list (Z * Z)) :=
  for_each (λ '(fuel, count, batch_size),
              FastWriter.write_pipeline_batches fuel count batch_size) cs.

(** [m] returns from every state. *)
Definition returns {S A} (m : M S A) : Prop :=
  ∀ s, ∃ a, (m s).1 = Ret a.

(** The sample table has the hundred indices [get_key_data] can ask for. *)
Definition complete_samples (self : FastWriter.t) : Prop :=
  ∀ i, 0 ≤ i < 100 → is_Some (FastWriter.sample_keys self !! str_int i).

(** The state with the writer's skip probability replaced. *)
Definition with_skip {W} (p : float) (s : FastWriter.t * world W) : FastWriter.t * world W :=
  (FastWriter.set_skip_probability p s.1, s.2).

(** [m] runs the same whatever the skip probability of the writer. *)
Definition skip_independent {W A} (m : M (FastWriter.t * world W) A) : Prop :=
  ∀ p s, m (with_skip p s) = ((m s).1, with_skip p (m s).2).

(** The answers of the server to the individual writes of the items of a
    batch, sent one after the other, and the server they leave. *)
Fixpoint setex_answers `{Env W} (ttl : Z) (items : list (string * string)) (s : W)
    : list (answer bool) * W :=
  match items with
  | [] => ([], s)
  | (key, value) :: items' =>
      let '(a, s1) := redis_setex key ttl value s in
      let '(rest, s2) := setex_answers ttl items' s1 in
      (a :: rest, s2)
  end.

(** An individual write that counts as written. *)
Definition written_ok (a : answer bool) : bool :=
  match a with
  | Ok true => true
  | _ => false
  end.

(** One individual write per item, in the order of the batch. *)
Definition setex_events (ttl : Z) (items : list (string * string)) : list event :=
  (λ '(key, value), Setex key ttl value) <$> items.

Definition command_key (c : command) : string :=
  match c with
  | CmdGet key => key
  | CmdSetex key _ _ => key
  end.

(** The keys sent in pipelines, and the keys sent in individual writes,
    with repetitions, in the order of the requests. *)
Definition pipeline_keys (evs : list event) : list string :=
  ev ← evs; match ev with Pipeline cmds => command_key <$> cmds | _ => [] end.

Definition setex_keys (evs : list event) : list string :=
  ev ← evs; match ev with Setex key _ _ => [key] | _ => [] end.

(** The store keys of the [n] ids from [first] on. *)
Definition keys_of_ids (version : string) (first n : Z) : list string :=
  (λ id, NetworkUtils.create_redis_key_simple id version) <$> seqZ first n.

(** What [get_value key] returns on server [s], and the server it leaves:
    a missing key, a failed request and a decoder error all give [None]. *)
Definition looked_up `{Env W} (key : string) (s : W) : pyval :=
  match (redis_get key s).1 with
  | Ok (Some v) =>
      match json_loads v with
      | Parsed x => x
      | JSONDecodeError => PyStr v
      | JSONOtherError => PyNone
      end
  | Ok None => PyNone
  | Fail _ => PyNone
  end.

Definition after_get `{Env W} (key : string) (s : W) : W := (redis_get key s).2.

(** Every hit among the results names the primary or the fallback version
    of the reader, as the results of its lookups do. *)
Definition from_lookups (self : SimpleReader.t) (rs : list SimpleReader.ReadResult) : Prop :=
  ∀ r, r ∈ rs → SimpleReader.success r = true →
    SimpleReader.found_version r = Some (SimpleReader.primary_version self)
    ∨ SimpleReader.found_version r = Some (SimpleReader.fallback_version self).

(** A reader whose primary and fallback versions are both ["v22"], with
    the given results. *)
Definition same_version_reader (rs : list SimpleReader.ReadResult) : SimpleReader.t :=
  {| SimpleReader.max_daily_keys := 100;
     SimpleReader.primary_version := "v22";
     SimpleReader.fallback_version := "v22";
     SimpleReader.results := rs;
     SimpleReader.running := true |}.

(** The value component of [get_key_data(id)], or the exception it
    raises. *)
Definition payload_of `{Env W} (self : FastWriter.t) (w : world W) (id : Z) : res string :=
  match (FastWriter.get_key_data id (self, w)).1 with
  | Ret (_, value) => Ret value
  | Exc e => Exc e
  | Diverged => Diverged
  end.

(** The consecutive batches of at most [batch_size] key ids. *)
Definition batches_of (key_ids : list Z) (batch_size : Z) : list (list Z) :=
  (λ k : nat, Py.slice key_ids (Z.of_nat k * batch_size) ((Z.of_nat k + 1) * batch_size))
    <$> seq 0 (Z.to_nat ((Z.of_nat (length key_ids) + batch_size - 1) / batch_size)).

(** Where the slice of thread [i] (0-indexed) starts when every thread
    gets [p] ids and each of the first [r] threads one more. *)
Definition slice_start (p r i : Z) : Z := i * p + Z.min i r.

(** A list of tasks whose ranges follow one another from [a] to [b]. *)
Inductive chained : Z → list ParallelWriter.writer_task → Z → Prop :=
  | chained_nil a : chained a [] a
  | chained_cons a t ts b :
      ParallelWriter.start_key t = a → a ≤ ParallelWriter.end_key t →
      chained (ParallelWriter.end_key t) ts b →
      chained a (t :: ts) b.

End Spec.

(** ** parallel_writer.py: the writers and their statistics *)

Module ParallelWriterRun.

Record WriterStats := {
  writer_id : Z;
  keys_written : Z;
  keys_skipped : Z;
  duration : float;
  start_key : Z;
  end_key : Z;
  version : string;
}.

(** [WriterStats(writer_id=..., start_key=..., end_key=..., version=...)]:
    the counters and the duration take their defaults. *)
Definition failed_stats (writer_id start_key end_key : Z) (version : string) : WriterStats :=
  {| writer_id := writer_id; keys_written := 0; keys_skipped := 0; duration := 0;
     start_key := start_key; end_key := end_key; version := version |}.

(** [writer.version = version] *)
Definition set_version (v : string) (self : FastWriter.t) : FastWriter.t :=
  {| FastWriter.max_daily_keys := FastWriter.max_daily_keys self;
     FastWriter.skip_probability := FastWriter.skip_probability self;
     FastWriter.version := v;
     FastWriter.key_ttl_seconds := FastWriter.key_ttl_seconds self;
     FastWriter.keys_written := FastWriter.keys_written self;
     FastWriter.keys_skipped := FastWriter.keys_skipped self;
     FastWriter.start_time := FastWriter.start_time self;
     FastWriter.running := FastWriter.running self;
     FastWriter.current_key_id := FastWriter.current_key_id self;
     FastWriter.sample_keys := FastWriter.sample_keys self |}.

(** How the constructor of [FastWriter] ends.  [RedisClient()] ends the
    program with [sys.exit(1)] when the connection cannot be made; an
    unreadable redis section of the configuration, a missing sample file
    and a sample file that cannot be loaded raise an [Exception]; otherwise
    the writer holds the loaded sample table. *)
Inductive construction :=
  | Constructed (samples : gmap string string)
  | Raises
  | Exits.

(** What the constructor of [FastWriter] meets besides its arguments: the
    configured version, the TTL of the configuration ([None] when
    [config.writer] has no such attribute), and how the construction
    ends. *)
Record setup := {
  config_version : string;
  config_ttl : option Z;
  constructor : construction;
}.

(** How a call of [_create_writer_for_range] ends: it returns statistics,
    or a [SystemExit] passes through it ([except Exception] does not
    catch it), or the iterations modelled run out. *)
Inductive outcome :=
  | Returns (stats : WriterStats)
  | SystemExit (code : Z)
  | Unfinished.

(** The writer as [_create_writer_for_range] sets it up: constructed for
    the bound [end_key] at clock reading [clock], then given the version
    and the first id of the range. *)
Definition range_writer (env : setup) (skip_probability : float) (start_key end_key : Z)
    (version : string) (clock : float) (samples : gmap string string) : FastWriter.t :=
  let writer := FastWriter.init end_key skip_probability (config_version env)
                  (config_ttl env) clock samples in
  let writer := set_version version writer in
  FastWriter.set_current_key_id start_key writer.

Section Worker.
Context {W : Type} `{Env W}.

(** [_create_writer_for_range]: every [Exception] of the constructor, of
    the run and of the rate printed at the end ([keys_written/duration]) is
    caught, and the statistics are then the defaults; the [sys.exit(1)] of
    a failed connection is not caught. *)
Definition _create_writer_for_range (fuel : nat) (env : setup) (skip_probability : float)
    (writer_id start_key end_key : Z) (version : string) : world W → outcome * world W :=
  λ w,
    let failed := failed_stats writer_id start_key end_key version in
    match constructor env with
    | Exits => (SystemExit 1, w)
    | Raises => (Returns failed, w)
    | Constructed samples =>
        let writer := range_writer env skip_probability start_key end_key version
                        (time_now (server w)) samples in
        let target_keys := end_key - start_key in
        let start_time := time_now (server w) in
        match FastWriter.run_continuous fuel (Some target_keys) None (writer, w) with
        | (Ret _, (writer, w')) =>
            let duration := PrimFloat.sub (time_now (server w')) start_time in
            if PrimFloat.eqb duration 0 then (Returns failed, w')
            else (Returns {| writer_id := writer_id;
                         keys_written := FastWriter.keys_written writer;
                         keys_skipped := FastWriter.keys_skipped writer;
                         duration := duration;
                         start_key := start_key; end_key := end_key;
                         version := version |}, w')
        | (Exc _, (_, w')) => (Returns failed, w')
        | (Diverged, (_, w')) => (Unfinished, w')
        end
    end.

End Worker.

(** [sum(s.keys_written for s in completed_stats)] *)
Definition total_keys_written (completed_stats : list WriterStats) : Z :=
  foldr Z.add 0 (keys_written <$> completed_stats).

(** [sum(s.keys_skipped for s in completed_stats)] *)
Definition total_keys_skipped (completed_stats : list WriterStats) : Z :=
  foldr Z.add 0 (keys_skipped <$> completed_stats).

End ParallelWriterRun.

(** ** simple_reader.py: the worker threads *)

Module SimpleReaderThreads.
Import SimpleReader.

(** The [(thread id, number of reads)] arguments of the threads started
    by [run_benchmark]. *)
Definition thread_reads (total_reads num_threads : Z) : res (list (Z * Z)) :=
  if num_threads =? 0 then Exc ZeroDivisionError
  else
    let reads_per_thread := total_reads / num_threads in
    let remaining_reads := total_reads mod num_threads in
    Ret ((λ i, (i + 1, reads_per_thread + (if i <? remaining_reads then 1 else 0)))
           <$> Py.range num_threads).

Section Threads.
Context {W : Type} `{Env W}.

(** The SIGINT handler installed by the benchmarks clears [running]; the
    threads read the flag at the top of every turn of their loops. *)
Definition handle_signals : M (t * world W) () :=
  λ '(o, w), (Ret (), (if sigint_delivered (server w) then set_running false o else o, w)).

(** The [for i in range(num_reads)] loop of [worker_thread], for the
    indices still to run. *)
Fixpoint worker_loop (idxs : list Z) (thread_results : list ReadResult)
    : M (t * world W) (list ReadResult) :=
  match idxs with
  | [] => ret thread_results
  | _ :: idxs' =>
      _ <- handle_signals ;;
      self <- get_self ;;
      if negb (running self) then ret thread_results
      else
        key_id <- generate_random_key_id (max_daily_keys self) ;;
        result <- read_key_with_fallback key_id ;;
        worker_loop idxs' (thread_results ++ [result])
  end.

(** [worker_thread]: returns the shared list as the thread leaves it. *)
Definition worker_thread (thread_id num_reads : Z) (results_list : list ReadResult)
    : M (t * world W) (list ReadResult) :=
  thread_results <- worker_loop (Py.range num_reads) [] ;;
  ret (results_list ++ thread_results).

(** The [for i in range(0, len(key_ids), batch_size)] loop of
    [pipeline_worker_thread], for the batch starts still to run. *)
Fixpoint pipeline_worker_loop (key_ids : list Z) (batch_size : Z) (starts : list Z)
    (thread_results : list ReadResult) : M (t * world W) (list ReadResult) :=
  match starts with
  | [] => ret thread_results
  | i :: starts' =>
      _ <- handle_signals ;;
      self <- get_self ;;
      if negb (running self) then ret thread_results
      else
        batch_results <- _read_batch_with_pipeline (batch_at key_ids batch_size i) ;;
        pipeline_worker_loop key_ids batch_size starts' (thread_results ++ batch_results)
  end.

(** [pipeline_worker_thread]: returns the shared list as the thread leaves
    it. *)
Definition pipeline_worker_thread (thread_id : Z) (key_ids : list Z) (batch_size : Z)
    (results_list : list ReadResult) : M (t * world W) (list ReadResult) :=
  match Py.range3 0 (Z.of_nat (length key_ids)) batch_size with
  | Ret starts =>
      thread_results <- pipeline_worker_loop key_ids batch_size starts [] ;;
      ret (results_list ++ thread_results)
  | Exc e => raise e
  | Diverged => diverge
  end.

End Threads.

End SimpleReaderThreads.

(** ** config.py: the environment overrides *)

Module Config.

(** [d.get(k)] *)
Fixpoint dict_get {V} (d : dict V) (k : string) : option V :=
  match d with
  | [] => None
  | (k', v) :: d' => if String.eqb k' k then Some v else dict_get d' k
  end.

(** An instance of a dataclass is given by the dict of its attributes.
    [getattr(o, name)] and [setattr(o, name, v)] raise [AttributeError]
    ([None] here) on an object that has no such attribute, or that cannot
    take attributes, as an [int]. *)
Definition getattr (o : pyval) (name : string) : option pyval :=
  match o with
  | PyDict attrs => dict_get attrs name
  | _ => None
  end.

Definition setattr (o : pyval) (name : string) (v : pyval) : option pyval :=
  match o with
  | PyDict attrs => Some (PyDict (dict_set attrs name v))
  | _ => None
  end.

(** The tuples of [env_mappings]: [(attr,)], [(section, attr)] and
    [(section, attr, int)]. *)
Inductive mapping :=
  | Attr (attr : string)
  | SectionAttr (section attr : string)
  | Converted (section attr : string).

(** [len(mapping)] and [mapping[0]] *)
Definition len (m : mapping) : Z :=
  match m with
  | Attr _ => 1
  | SectionAttr _ _ => 2
  | Converted _ _ => 3
  end.

Definition first (m : mapping) : string :=
  match m with
  | Attr attr => attr
  | SectionAttr section _ => section
  | Converted section _ => section
  end.

Definition ENV_PREFIX : string := "LOCATIONFLEX_".

Definition env_mappings : list (string * mapping) :=
  [(ENV_PREFIX +:+ "REDIS_HOST", SectionAttr "redis" "host");
   (ENV_PREFIX +:+ "REDIS_PORT", Converted "redis" "port");
   (ENV_PREFIX +:+ "REDIS_DB", Converted "redis" "db");
   (ENV_PREFIX +:+ "REDIS_PASSWORD", SectionAttr "redis" "password");
   (ENV_PREFIX +:+ "WRITER_COUNT", Converted "writer" "num_writers");
   (ENV_PREFIX +:+ "WRITER_BATCH_SIZE", Converted "writer" "batch_size");
   (ENV_PREFIX +:+ "WRITER_TTL", Converted "writer" "key_ttl_seconds");
   (ENV_PREFIX +:+ "READER_COUNT", Converted "reader" "num_readers");
   (ENV_PREFIX +:+ "VERSION", Attr "version");
   (ENV_PREFIX +:+ "LOG_LEVEL", Attr "log_level")].

Section Overrides.

(** [int(value)] on a string; [None] is [ValueError]. *)
Variable py_int : string → option Z.

(** The body of the [try] of [_load_env_overrides] for one variable that
    is set; [None] is an exception, which the [except] clause catches. *)
Definition override (config : pyval) (m : mapping) (value : string) : option pyval :=
  value ← (if 2 <? len m then PyInt <$> py_int value else Some (PyStr value));
  if len m =? 2 then
    match m with
    | SectionAttr section attr =>
        section_object ← getattr config section;
        section_object ← setattr section_object attr value;
        setattr config section section_object
    | _ => None
    end
  else setattr config (first m) value.

(** One turn of the loop over [env_mappings]. *)
Definition load_one (environ : gmap string string) (config : pyval)
    (entry : string * mapping) : pyval :=
  match environ !! entry.1 with
  | Some value => default config (override config entry.2 value)
  | None => config
  end.

Definition _load_env_overrides (environ : gmap string string) (config : pyval) : pyval :=
  foldl (load_one environ) config env_mappings.

(** [deep_merge], the function nested in [_merge_config]: [None] is the
    [AttributeError] of [override.items()] on a value that is not a
    dict. *)
Definition merge_item (deep_merge : pyval → dict pyval → option (dict pyval))
    (result : dict pyval) (key : string) (value : pyval) : option (dict pyval) :=
  match dict_get result key, value with
  | Some (PyDict base), PyDict _ =>
      merged ← deep_merge value base; Some (dict_set result key (PyDict merged))
  | _, _ => Some (dict_set result key value)
  end.

Fixpoint deep_merge (override : pyval) (base : dict pyval) {struct override}
    : option (dict pyval) :=
  match override with
  | PyDict items =>
      (fix each (items : list (string * pyval)) (result : dict pyval) {struct items} :=
         match items with
         | [] => Some result
         | (key, value) :: items' =>
             result ← merge_item deep_merge result key value; each items' result
         end) items base
  | _ => None
  end.

(** The fields of the four sections with their defaults, in the order of
    declaration. *)
Definition RedisConfig_fields : dict pyval :=
  [("host", PyStr "localhost"); ("port", PyInt 6379); ("db", PyInt 0);
   ("password", PyNone); ("socket_timeout", PyFloat 5);
   ("socket_connect_timeout", PyFloat 5); ("retry_on_timeout", PyBool true);
   ("decode_responses", PyBool true); ("max_connections", PyInt 50)].

Definition WriterConfig_fields : dict pyval :=
  [("num_writers", PyInt 1); ("batch_size", PyInt 1000);
   ("stream_name", PyStr "ip_work_queue"); ("consumer_group", PyStr "ip_writers");
   ("consumer_timeout_ms", PyInt 5000); ("max_retries", PyInt 3);
   ("retry_delay_seconds", PyFloat 1); ("pipeline_timeout", PyFloat 30);
   ("key_ttl_seconds", PyInt 259200)].

Definition ReaderConfig_fields : dict pyval :=
  [("num_readers", PyInt 1); ("batch_size", PyInt 100); ("read_timeout_ms", PyInt 1000)].

Definition NetworkConfig_fields : dict pyval :=
  [("default_blocks", PyNone); ("block_size", PyInt 24); ("exclude_private", PyBool false);
   ("exclude_multicast", PyBool true); ("exclude_reserved", PyBool true)].

(** The constructor of a dataclass with the given fields, called with the
    entries of [kwargs] as keyword arguments: [None] is the [TypeError]
    raised for an argument that is not a mapping or that names no field. *)
Definition construct (fields : dict pyval) (kwargs : pyval) : option pyval :=
  match kwargs with
  | PyDict items =>
      if forallb (λ item : string * pyval, bool_decide (item.1 ∈ fields.*1)) items then
        Some (PyDict ((λ field : string * pyval,
                         (field.1, default field.2 (dict_get items field.1))) <$> fields))
      else None
  | _ => None
  end.

(** [NetworkConfig.__post_init__] *)
Definition NetworkConfig_post_init (self : dict pyval) : dict pyval :=
  match dict_get self "default_blocks" with
  | Some PyNone =>
      dict_set self "default_blocks"
        (PyList [PyStr "8.8.8.0/24"; PyStr "1.1.1.0/24"; PyStr "208.67.222.0/24"])
  | _ => self
  end.

Definition NetworkConfig (kwargs : pyval) : option pyval :=
  self ← construct NetworkConfig_fields kwargs;
  match self with
  | PyDict attrs => Some (PyDict (NetworkConfig_post_init attrs))
  | _ => None
  end.

(** [generate_version_from_date], given the day of the month of the
    date. *)
Definition generate_version_from_date (day : Z) : string := "v" +:+ str_int day.

Definition log_format_default : string :=
  "%(asctime)s - %(name)s - %(levelname)s - %(message)s".

(** [LocationFlexConfig(redis=..., writer=..., reader=..., network=...,
    log_level=..., log_format=...)] with its [__post_init__]: the version
    is left at its default, the placeholder, and so becomes the version of
    the day. *)
Definition LocationFlexConfig_of (day : Z) (redis writer reader network : pyval)
    (log_level log_format : pyval) : pyval :=
  PyDict [("redis", redis); ("writer", writer); ("reader", reader); ("network", network);
          ("version", PyStr (generate_version_from_date day));
          ("log_level", log_level); ("log_format", log_format)].

(** [LocationFlexConfig()] *)
Definition LocationFlexConfig (day : Z) : pyval :=
  LocationFlexConfig_of day
    (PyDict RedisConfig_fields) (PyDict WriterConfig_fields) (PyDict ReaderConfig_fields)
    (PyDict (NetworkConfig_post_init NetworkConfig_fields))
    (PyStr "INFO") (PyStr log_format_default).

(** [merged.get(key, fallback)] *)
Definition get_or (merged : dict pyval) (key : string) (fallback : pyval) : pyval :=
  default fallback (dict_get merged key).

(** [_merge_config]; [asdict] of a configuration is the configuration as
    given here.  [None] is an exception. *)
Definition _merge_config (day : Z) (base_config file_config : pyval) : option pyval :=
  match base_config with
  | PyDict config_dict =>
      merged ← deep_merge file_config config_dict;
      redis ← construct RedisConfig_fields (get_or merged "redis" (PyDict []));
      writer ← construct WriterConfig_fields (get_or merged "writer" (PyDict []));
      reader ← construct ReaderConfig_fields (get_or merged "reader" (PyDict []));
      network ← NetworkConfig (get_or merged "network" (PyDict []));
      Some (LocationFlexConfig_of day redis writer reader network
              (get_or merged "log_level" (PyStr "INFO"))
              (get_or merged "log_format" (PyStr log_format_default)))
  | _ => None
  end.

(** [load_config]: [file] is [None] when the file does not exist,
    [Some None] when reading or parsing it raises, and else the value
    [json.load] returns; every exception of the [try] is caught. *)
Definition load_config (day : Z) (file : option (option pyval))
    (environ : gmap string string) : pyval :=
  let config := LocationFlexConfig day in
  let config :=
    match file with
    | Some (Some file_config) => default config (_merge_config day config file_config)
    | _ => config
    end in
  _load_env_overrides environ config.

End Overrides.

End Config.

(** ** start_parallel.py *)

Module StartParallel.

(** The checks of [custom_import] on the two numbers it reads: the
    message it prints when it refuses to start the import. *)
Definition custom_import_refusal (writers keys : Z) : option string :=
  if (writers <? 1) || (32 <? writers) then Some "Writers must be 1-32"
  else if keys <? 100 then Some "Keys must be at least 100"
  else None.

End StartParallel.

(** ** Vocabulary of the further properties *)

Module Behaviour.

(** The server answers a pipelined call with one result per command. *)
Definition replies_match (W : Type) `{Env W} : Prop :=
  ∀ cmds s rs s', redis_execute cmds s = (Ok rs, s') → length rs = length cmds.

(** The store key and the payload [get_key_data] gives for an id, when
    the sample table has its index. *)
Definition entry_of (self : FastWriter.t) (id : Z) : option (string * string) :=
  (λ value, (NetworkUtils.create_redis_key_simple id (FastWriter.version self), value))
    <$> FastWriter.sample_keys self !! str_int (id mod 100).

(** The pair is the key and payload of an id of [[lo, hi)]. *)
Definition is_entry (self : FastWriter.t) (lo hi : Z) (kv : string * string) : Prop :=
  ∃ id, lo ≤ id < hi ∧ entry_of self id = Some kv.

(** The command is a SETEX, with the TTL the writer reads, of the key and
    payload of an id of [[lo, hi)]. *)
Definition writes_entry (self : FastWriter.t) (lo hi : Z) (c : command) : Prop :=
  match c with
  | CmdGet _ => False
  | CmdSetex key ttl value =>
      FastWriter.key_ttl_seconds self = Some ttl ∧ is_entry self lo hi (key, value)
  end.

(** The request is such a SETEX, or a pipeline of one to [batch_size]
    of them. *)
Definition sends_entries (self : FastWriter.t) (lo hi batch_size : Z) (ev : event) : Prop :=
  match ev with
  | Get _ => False
  | Setex key ttl value => writes_entry self lo hi (CmdSetex key ttl value)
  | Pipeline cmds =>
      cmds ≠ [] ∧ Z.of_nat (length cmds) ≤ batch_size ∧ Forall (writes_entry self lo hi) cmds
  end.

(** The request belongs to the writing of one batch with the TTL read:
    the pipeline of the whole batch, or the individual write of one of its
    items.  There is no such request when the TTL cannot be read. *)
Definition sent_from (ttl : option Z) (batch_data : dict string) (ev : event) : Prop :=
  match ev with
  | Get _ => False
  | Setex key ttl' value => ttl = Some ttl' ∧ (key, value) ∈ batch_data
  | Pipeline cmds =>
      ∃ ttl', ttl = Some ttl' ∧ cmds = FastWriter.batch_commands ttl' batch_data
              ∧ batch_data ≠ []
  end.

(** The keys the pipelines of a writer carry for the keys of the ids it
    consumed: all of them when the TTL can be read, none when it cannot. *)
Definition pipelined (self : FastWriter.t) (keys : list string) : list string :=
  match FastWriter.key_ttl_seconds self with
  | Some _ => keys
  | None => []
  end.

(** The keys a request carries, and the keys of a list of requests. *)
Definition event_keys (ev : event) : list string :=
  match ev with
  | Get key => [key]
  | Setex key _ _ => [key]
  | Pipeline cmds => Spec.command_key <$> cmds
  end.

Definition request_keys (evs : list event) : list string :=
  ev ← evs; event_keys ev.

(** The request only writes. *)
Definition is_write (ev : event) : Prop :=
  match ev with
  | Get _ => False
  | Setex _ _ _ => True
  | Pipeline cmds =>
      Forall (λ c, match c with CmdSetex _ _ _ => True | CmdGet _ => False end) cmds
  end.

(** The request only reads. *)
Definition is_read (ev : event) : Prop :=
  match ev with
  | Get _ => True
  | Setex _ _ _ => False
  | Pipeline cmds =>
      Forall (λ c, match c with CmdGet _ => True | CmdSetex _ _ _ => False end) cmds
  end.

(** The key is the store key of an id of [[lo, hi)] in the version. *)
Definition key_in_range (version : string) (lo hi : Z) (key : string) : Prop :=
  ∃ id, lo ≤ id < hi ∧ key = NetworkUtils.create_redis_key_simple id version.

(** No character of the string is a colon. *)
Fixpoint colon_free (s : string) : Prop :=
  match s with
  | EmptyString => True
  | String c s' => String c EmptyString ≠ ":" ∧ colon_free s'
  end.

(** The key is the primary or the fallback key of one of the ids. *)
Definition reader_key (self : SimpleReader.t) (ids : list Z) (key : string) : Prop :=
  ∃ id, id ∈ ids
    ∧ (key = NetworkUtils.create_redis_key_simple id (SimpleReader.primary_version self)
       ∨ key = NetworkUtils.create_redis_key_simple id (SimpleReader.fallback_version self)).

(** The request only reads, and only keys of the ids. *)
Definition reads_ids (self : SimpleReader.t) (ids : list Z) (ev : event) : Prop :=
  is_read ev ∧ Forall (reader_key self ids) (event_keys ev).

(** [random.randint(a, b)] draws from [[a, b]]. *)
Definition randint_in_range (W : Type) `{Env W} : Prop :=
  ∀ a b s x s', randint a b s = (Ok x, s') → a ≤ x ≤ b.

(** The statistics are those a writer returned for the task, run for the
    version from some state of the server. *)
Definition reported_for `{Env W} (version : string) (stats : ParallelWriterRun.WriterStats)
    (task : ParallelWriter.writer_task) : Prop :=
  ∃ fuel env skip_probability (w w' : world W),
    ParallelWriterRun._create_writer_for_range fuel env skip_probability
      (ParallelWriter.writer_id task) (ParallelWriter.start_key task)
      (ParallelWriter.end_key task) version w
    = (ParallelWriterRun.Returns stats, w').

(** The setup of the writers of the in-memory examples. *)
Definition setup : ParallelWriterRun.setup :=
  {| ParallelWriterRun.config_version := "v22";
     ParallelWriterRun.config_ttl := Some 259200;
     ParallelWriterRun.constructor := ParallelWriterRun.Constructed InMemory.samples |}.

(** The value cannot be the keyword arguments of a dataclass with the
    fields: it is no dict, or one of its keys names no field. *)
Definition no_arguments_for (fields : dict pyval) (value : pyval) : Prop :=
  match value with
  | PyDict items => ∃ key, key ∈ items.*1 ∧ key ∉ fields.*1
  | _ => True
  end.

(** The sections of the configuration with their fields. *)
Definition sections : list (string * dict pyval) :=
  [("redis", Config.RedisConfig_fields); ("writer", Config.WriterConfig_fields);
   ("reader", Config.ReaderConfig_fields); ("network", Config.NetworkConfig_fields)].

(** A reading of numerals for the examples: the signed decimal numerals,
    which [int] reads this way.  ([int] also accepts a plus sign, blanks
    around the numeral and underscores between digits; the properties of
    the overrides hold for every reading.)  And a configuration with a
    redis and a writer section. *)
Definition decimal_int (s : string) : option Z :=
  Z.of_int <$> NilZero.int_of_string s.

Definition config : dict pyval :=
  [("redis", PyDict [("host", PyStr "localhost"); ("port", PyInt 6379)]);
   ("writer", PyDict [("num_writers", PyInt 1); ("key_ttl_seconds", PyInt 259200)]);
   ("version", PyStr "v4")].

(** A writer for the ids below 5 whose sample table is empty. *)
Definition bare_writer : FastWriter.t :=
  FastWriter.init 5 0.05 "v22" (Some 259200) 0 ∅.

(** A writer for the ids below 5 whose TTL cannot be read. *)
Definition writer_without_ttl : FastWriter.t :=
  FastWriter.init 5 0.05 "v22" None 0 InMemory.samples.

End Behaviour.

(** * Properties *)

(** ** Reasoning about code in [M] *)

Section Monad.
Import Spec.
Context {S : Type}.

Lemma bind_inv {A B} (m : M S A) (k : A → M S B) s r s' :
  bind m k s = (r, s') →
  (∃ a s1, m s = (Ret a, s1) ∧ k a s1 = (r, s'))
  ∨ (∃ e, m s = (Exc e, s') ∧ r = Exc e)
  ∨ (m s = (Diverged, s') ∧ r = Diverged).
Proof.
  unfold bind. destruct (m s) as [[a|e|] s1]; intros Hk.
  - left. eauto.
  - right. left. injection Hk as <- <-. eauto.
  - right. right. injection Hk as <- <-. eauto.
Qed.

Lemma preserves_ret {A} (R : S → S → Prop) `{!Reflexive R} (a : A) : preserves R (ret a).
Proof. intros s. simpl. reflexivity. Qed.

Lemma preserves_raise {A} (R : S → S → Prop) `{!Reflexive R} e : preserves R (@raise S A e).
Proof. intros s. simpl. reflexivity. Qed.

Lemma preserves_diverge {A} (R : S → S → Prop) `{!Reflexive R} : preserves R (@diverge S A).
Proof. intros s. simpl. reflexivity. Qed.

Lemma preserves_bind {A B} (R : S → S → Prop) `{!Transitive R} (m : M S A) (k : A → M S B) :
  preserves R m → (∀ a, preserves R (k a)) → preserves R (bind m k).
Proof.
  intros Hm Hk s. specialize (Hm s). unfold bind.
  destruct (m s) as [[a|e|] s1]; simpl in *; try done.
  etrans; [exact Hm|apply Hk].
Qed.

Lemma preserves_try_except {A} (R : S → S → Prop) `{!Transitive R} (m : M S A) h :
  preserves R m → (∀ e, preserves R (h e)) → preserves R (try_except m h).
Proof.
  intros Hm Hh s. specialize (Hm s). unfold try_except.
  destruct (m s) as [[a|e|] s1]; simpl in *; try done.
  etrans; [exact Hm|apply Hh].
Qed.

Lemma preserves_for_each {A B} (R : S → S → Prop) `{!PreOrder R} (f : A → M S B) l :
  (∀ x, preserves R (f x)) → preserves R (for_each f l).
Proof.
  intros Hf. induction l as [|x l IH]; simpl.
  - apply preserves_ret, _.
  - apply preserves_bind; [apply _|apply Hf|]. intros y.
    apply preserves_bind; [apply _|apply IH|]. intros ys. apply preserves_ret, _.
Qed.

Lemma preserves_bind_ret {A B} (R : S → S → Prop) `{!Transitive R} (m : M S A) (k : A → M S B) :
  preserves R m → (∀ s a s1, m s = (Ret a, s1) → R s1 (k a s1).2) → preserves R (bind m k).
Proof.
  intros Hm Hk s. specialize (Hm s). specialize (Hk s). unfold bind.
  destruct (m s) as [[a|e|] s1]; simpl in *; try done.
  etrans; [exact Hm|by apply Hk].
Qed.

Lemma terminates_ret {A} (a : A) : terminates (@ret S A a).
Proof. by intros s. Qed.

Lemma terminates_raise {A} e : terminates (@raise S A e).
Proof. by intros s. Qed.

Lemma terminates_bind {A B} (m : M S A) (k : A → M S B) :
  terminates m → (∀ a, terminates (k a)) → terminates (bind m k).
Proof.
  intros Hm Hk s. specialize (Hm s). unfold bind.
  destruct (m s) as [[a|e|] s1]; simpl in *; try done. apply Hk.
Qed.

Lemma terminates_try_except {A} (m : M S A) h :
  terminates m → (∀ e, terminates (h e)) → terminates (try_except m h).
Proof.
  intros Hm Hh s. specialize (Hm s). unfold try_except.
  destruct (m s) as [[a|e|] s1]; simpl in *; try done. apply Hh.
Qed.

Lemma terminates_for_each {A B} (f : A → M S B) l :
  (∀ x, terminates (f x)) → terminates (for_each f l).
Proof.
  intros Hf. induction l as [|x l IH]; simpl.
  - apply terminates_ret.
  - apply terminates_bind; [apply Hf|]. intros y.
    apply terminates_bind; [apply IH|]. intros ys. apply terminates_ret.
Qed.

Lemma returns_ret {A} (a : A) : returns (@ret S A a).
Proof. intros s. by exists a. Qed.

Lemma returns_bind {A B} (m : M S A) (k : A → M S B) :
  returns m → (∀ a, returns (k a)) → returns (bind m k).
Proof.
  intros Hm Hk s. destruct (Hm s) as [a Ha]. unfold bind.
  destruct (m s) as [[a'|e|] s1]; simpl in *; try done. apply Hk.
Qed.

Lemma returns_try_except {A} (m : M S A) h :
  terminates m → (∀ e, returns (h e)) → returns (try_except m h).
Proof.
  intros Hm Hh s. specialize (Hm s). unfold try_except.
  destruct (m s) as [[a|e|] s1]; simpl in *; [by exists a|apply Hh|done].
Qed.

Lemma for_each_fmap {A B C} (f : B → M S C) (g : A → B) l :
  for_each f (g <$> l) = for_each (λ x, f (g x)) l.
Proof. induction l as [|x l IH]; [done|]. rewrite fmap_cons. cbn [for_each]. by rewrite IH. Qed.

Lemma for_each_ext {A B} (f g : A → M S B) l :
  (∀ x, f x = g x) → for_each f l = for_each g l.
Proof. intros Hfg. induction l as [|x l IH]; simpl; [done|]. by rewrite IH, Hfg. Qed.

Lemma preserves_weaken {A} (R R' : S → S → Prop) (m : M S A) :
  (∀ s s', R s s' → R' s s') → preserves R m → preserves R' m.
Proof. intros HR Hm s. apply HR, Hm. Qed.

End Monad.

(** ** The batch writer *)

Section WriterProperties.
Import FastWriter Spec.
Context {W : Type} `{Env W}.

#[local] Instance same_self_preorder {O} : PreOrder (@same_self O W).
Proof. split; [by intros ?|intros ??? H1 H2; unfold same_self in *; congruence]. Qed.

#[local] Instance cursor_ok_preorder : PreOrder (@cursor_ok W).
Proof.
  split.
  - intros s. unfold cursor_ok. lia.
  - intros s1 s2 s3 (Hm1 & Hc1 & Hb1) (Hm2 & Hc2 & Hb2). unfold cursor_ok.
    rewrite Hm1 in *. repeat split; lia.
Qed.

Lemma same_self_cursor_ok (s s' : t * world W) : same_self s s' → cursor_ok s s'.
Proof. unfold same_self, cursor_ok. intros ->. lia. Qed.

Lemma call_same_self {O A} ev (f : W → answer A * W) : preserves (@same_self _ W) (@call W O A ev f).
Proof. intros [o w]. unfold call. destruct (f (server w)) as [[a|e] s']; done. Qed.

Lemma now_same_self {O} : preserves (@same_self _ W) (@now W _ O).
Proof. by intros [o w]. Qed.

Lemma get_value_same_self {O} key : preserves (@same_self _ W) (@get_value W _ O key).
Proof.
  unfold get_value. apply preserves_try_except; [apply _| |intros; apply preserves_ret, _].
  apply preserves_bind; [apply _|apply call_same_self|].
  intros [s|]; [|apply preserves_ret, _].
  destruct (json_loads s); try apply preserves_ret, _. apply preserves_raise, _.
Qed.

Lemma set_value_with_ttl_same_self {O} key value ttl :
  preserves (@same_self _ W) (@set_value_with_ttl W _ O key value ttl).
Proof.
  unfold set_value_with_ttl, client_setex.
  apply preserves_try_except; [apply _|apply call_same_self|intros; apply preserves_ret, _].
Qed.

Lemma get_self_same_self : preserves (@same_self _ W) (@get_self W).
Proof. by intros [o w]. Qed.

Lemma config_writer_key_ttl_seconds_same_self :
  preserves (@same_self _ W) (@config_writer_key_ttl_seconds W).
Proof.
  unfold config_writer_key_ttl_seconds.
  apply preserves_bind; [apply _|apply get_self_same_self|]. intros self.
  destruct (key_ttl_seconds self); [apply preserves_ret, _|apply preserves_raise, _].
Qed.

Lemma individual_writes_same_self items written :
  preserves (@same_self _ W) (individual_writes items written).
Proof.
  revert written. induction items as [|[key value] items IH]; intros written; simpl.
  - apply preserves_ret, _.
  - apply preserves_bind; [apply _| |intros; apply IH].
    apply preserves_try_except; [apply _| |intros; apply preserves_ret, _].
    apply preserves_bind; [apply _|apply config_writer_key_ttl_seconds_same_self|]. intros ttl.
    apply preserves_bind; [apply _|apply set_value_with_ttl_same_self|].
    intros; apply preserves_ret, _.
Qed.

Lemma queue_batch_same_self items : preserves (@same_self _ W) (@queue_batch W items).
Proof.
  induction items as [|[key value] items IH]; simpl.
  - apply preserves_ret, _.
  - apply preserves_bind; [apply _|apply config_writer_key_ttl_seconds_same_self|]. intros ttl.
    apply preserves_bind; [apply _|apply IH|]. intros; apply preserves_ret, _.
Qed.

Lemma write_batch_same_self batch_data written :
  preserves (@same_self _ W) (write_batch batch_data written).
Proof.
  unfold write_batch.
  apply preserves_try_except; [apply _| |intros; apply individual_writes_same_self].
  apply preserves_bind; [apply _|apply queue_batch_same_self|]. intros cmds.
  apply preserves_bind; [apply _|apply call_same_self|]. intros; apply preserves_ret, _.
Qed.

Lemma get_key_data_same_self key_id : preserves (@same_self _ W) (get_key_data key_id).
Proof.
  unfold get_key_data.
  apply preserves_bind; [apply _|apply get_self_same_self|]. intros self.
  destruct (sample_keys self !! _); [apply preserves_ret, _|apply preserves_raise, _].
Qed.

#[local] Instance keeps_preorder {O X} (π : O → X) : PreOrder (@keeps O W X π).
Proof. split; [by intros ?|intros ??? H1 H2; unfold keeps in *; congruence]. Qed.

Lemma same_self_keeps {O X} (π : O → X) (s s' : O * world W) : same_self s s' → keeps π s s'.
Proof. unfold same_self, keeps. by intros ->. Qed.

Lemma update_self_step (R : relation (t * world W)) f :
  (∀ self w, R (self, w) (f self, w)) → preserves R (update_self f).
Proof. intros HR [self w]. apply HR. Qed.

(** What it takes for a relation to hold between the states before and
    after the loops of the writer: it is a preorder, it holds when the
    writer is untouched, and it holds across one step of the cursor below
    the bound. *)
Section Loops.
Context (R : relation (t * world W)) `{!PreOrder R}.
Context (R_same : ∀ s s', same_self s s' → R s s').
Context (R_step : ∀ self w, current_key_id self < max_daily_keys self →
           R (self, w) (set_current_key_id (current_key_id self + 1) self, w)).

Lemma prepare_batch_preserves n batch_data : preserves R (prepare_batch n batch_data).
Proof.
  revert batch_data. induction n as [|n IH]; intros batch_data; simpl.
  - apply preserves_ret, _.
  - intros [self w]. unfold bind at 1. simpl.
    destruct (Z.leb_spec (max_daily_keys self) (current_key_id self)) as [Hle|Hlt].
    + simpl. reflexivity.
    + set (s1 := (set_current_key_id (current_key_id self + 1) self, w)).
      etrans; [exact (R_step self w Hlt)|].
      change (R s1
        ((bind (get_key_data (current_key_id self))
            (λ x, match x with (redis_key, redis_value) =>
               prepare_batch n (dict_set batch_data redis_key redis_value) end)) s1).2).
      apply preserves_bind; [apply _| |].
      * eapply preserves_weaken; [apply R_same|apply get_key_data_same_self].
      * intros [k v]. apply IH.
Qed.

Lemma write_loop_preserves fuel batch_size remaining written skipped :
  preserves R (write_loop fuel batch_size remaining written skipped).
Proof.
  revert remaining written. induction fuel as [|fuel IH]; intros remaining written; simpl.
  - apply preserves_diverge, _.
  - intros [self w]. unfold bind at 1. simpl.
    destruct ((0 <? remaining) && (current_key_id self <? max_daily_keys self)).
    + apply preserves_bind; [apply _|apply prepare_batch_preserves|]. intros batch_data.
      apply preserves_bind; [apply _| |intros; apply IH].
      eapply preserves_weaken; [apply R_same|].
      destruct (dict_nonempty batch_data); [apply write_batch_same_self|apply preserves_ret, _].
    + simpl. reflexivity.
Qed.

End Loops.

Lemma write_loop_cursor_ok fuel batch_size remaining written skipped :
  preserves (@cursor_ok W) (write_loop fuel batch_size remaining written skipped).
Proof.
  apply write_loop_preserves; [apply _|apply same_self_cursor_ok|].
  intros self w Hlt. unfold cursor_ok; simpl. lia.
Qed.

Lemma write_loop_keeps {X} (π : t → X) fuel batch_size remaining written skipped :
  (∀ v o, π (set_current_key_id v o) = π o) →
  preserves (@keeps _ W _ π) (write_loop fuel batch_size remaining written skipped).
Proof.
  intros Hπ. apply write_loop_preserves; [apply _|apply same_self_keeps|].
  intros self w _. unfold keeps; simpl. apply Hπ.
Qed.

(** The loop hands back the [skipped] it was started with. *)
Lemma write_loop_skipped fuel batch_size remaining written skipped s a b s' :
  write_loop fuel batch_size remaining written skipped s = (Ret (a, b), s') → b = skipped.
Proof.
  revert remaining written s. induction fuel as [|fuel IH]; intros remaining written [self w]; simpl.
  - done.
  - unfold bind at 1. simpl.
    destruct ((0 <? remaining) && (current_key_id self <? max_daily_keys self)).
    + intros Hb. apply bind_inv in Hb as [(bd & s1 & _ & Hb)|[(e & _ & ?)|[_ ?]]]; try done.
      apply bind_inv in Hb as [(wr & s2 & _ & Hb)|[(e & _ & ?)|[_ ?]]]; try done.
      by apply IH in Hb.
    + by intros [= _ <- _].
Qed.

(** Nothing happens once the cursor has reached the bound. *)
Lemma write_loop_at_bound fuel batch_size remaining written skipped self (w : world W) :
  max_daily_keys self ≤ current_key_id self → fuel ≠ 0%nat →
  write_loop fuel batch_size remaining written skipped (self, w)
  = (Ret (written, skipped), (self, w)).
Proof.
  intros Hle Hfuel. destruct fuel as [|fuel]; [done|]. simpl. unfold bind at 1. simpl.
  rewrite (proj2 (Z.ltb_ge (current_key_id self) (max_daily_keys self))) by done.
  by rewrite andb_false_r.
Qed.

Lemma call_terminates {O A} ev (f : W → answer A * W) : terminates (@call W O A ev f).
Proof. intros [o w]. unfold call. destruct (f (server w)) as [[a|e] s']; done. Qed.

Lemma now_terminates {O} : terminates (@now W _ O).
Proof. by intros [o w]. Qed.

Lemma get_value_terminates {O} key : terminates (@get_value W _ O key).
Proof.
  unfold get_value. apply terminates_try_except; [|intros; apply terminates_ret].
  apply terminates_bind; [apply call_terminates|].
  intros [s|]; [|apply terminates_ret].
  destruct (json_loads s); try apply terminates_ret. apply terminates_raise.
Qed.

Lemma set_value_with_ttl_terminates {O} key value ttl :
  terminates (@set_value_with_ttl W _ O key value ttl).
Proof.
  unfold set_value_with_ttl, client_setex.
  apply terminates_try_except; [apply call_terminates|intros; apply terminates_ret].
Qed.

Lemma get_self_terminates : terminates (@get_self W).
Proof. by intros [o w]. Qed.

Lemma config_writer_key_ttl_seconds_terminates :
  terminates (@config_writer_key_ttl_seconds W).
Proof.
  unfold config_writer_key_ttl_seconds.
  apply terminates_bind; [apply get_self_terminates|]. intros self.
  destruct (key_ttl_seconds self); [apply terminates_ret|apply terminates_raise].
Qed.

Lemma individual_writes_terminates items written :
  terminates (@individual_writes W _ items written).
Proof.
  revert written. induction items as [|[key value] items IH]; intros written; simpl.
  - apply terminates_ret.
  - apply terminates_bind; [|intros; apply IH].
    apply terminates_try_except; [|intros; apply terminates_ret].
    apply terminates_bind; [apply config_writer_key_ttl_seconds_terminates|]. intros ttl.
    apply terminates_bind; [apply set_value_with_ttl_terminates|].
    intros; apply terminates_ret.
Qed.

Lemma queue_batch_terminates items : terminates (@queue_batch W items).
Proof.
  induction items as [|[key value] items IH]; simpl.
  - apply terminates_ret.
  - apply terminates_bind; [apply config_writer_key_ttl_seconds_terminates|]. intros ttl.
    apply terminates_bind; [apply IH|]. intros; apply terminates_ret.
Qed.

Lemma write_batch_terminates batch_data written :
  terminates (@write_batch W _ batch_data written).
Proof.
  unfold write_batch.
  apply terminates_try_except; [|intros; apply individual_writes_terminates].
  apply terminates_bind; [apply queue_batch_terminates|]. intros cmds.
  apply terminates_bind; [apply call_terminates|]. intros; apply terminates_ret.
Qed.

Lemma get_key_data_terminates key_id : terminates (@get_key_data W key_id).
Proof.
  unfold get_key_data.
  apply terminates_bind; [apply get_self_terminates|]. intros self.
  destruct (sample_keys self !! _); [apply terminates_ret|apply terminates_raise].
Qed.

Lemma prepare_batch_terminates n batch_data : terminates (@prepare_batch W n batch_data).
Proof.
  revert batch_data. induction n as [|n IH]; intros batch_data; simpl.
  - apply terminates_ret.
  - apply terminates_bind; [apply get_self_terminates|]. intros self.
    destruct (_ <=? _); [apply terminates_ret|].
    apply terminates_bind; [by intros [??]|]. intros _.
    apply terminates_bind; [apply get_key_data_terminates|]. intros [k v]. apply IH.
Qed.

(** With batches of at least one key the loop ends within [remaining]
    iterations. *)
Lemma write_loop_terminates fuel batch_size remaining written skipped :
  1 ≤ batch_size → (Z.to_nat remaining < fuel)%nat →
  terminates (@write_loop W _ fuel batch_size remaining written skipped).
Proof.
  intros Hbs. revert remaining written.
  induction fuel as [|fuel IH]; intros remaining written Hfuel; [lia|]. simpl.
  apply terminates_bind; [apply get_self_terminates|]. intros self.
  destruct (Z.ltb_spec 0 remaining) as [Hrem|Hrem]; simpl; [|apply terminates_ret].
  destruct (_ <? _); [|apply terminates_ret].
  apply terminates_bind; [apply prepare_batch_terminates|]. intros batch_data.
  apply terminates_bind.
  - destruct (dict_nonempty batch_data); [apply write_batch_terminates|apply terminates_ret].
  - intros wr. apply IH. unfold Py.min. destruct (remaining <? batch_size); lia.
Qed.

(** The outer loop adds to the relation a cleared [running] flag and the
    counts of a call that skipped nothing. *)
Section Continuous.
Context (R : relation (t * world W)) `{!PreOrder R}.
Context (R_same : ∀ s s', same_self s s' → R s s').
Context (R_step : ∀ self w, current_key_id self < max_daily_keys self →
           R (self, w) (set_current_key_id (current_key_id self + 1) self, w)).
Context (R_signal : ∀ self w, R (self, w) (set_running false self, w)).
Context (R_counts : ∀ written self w, R (self, w) (add_counts written 0 self, w)).

Lemma progress_report_same_self last_report :
  preserves (@same_self _ W) (progress_report last_report).
Proof.
  unfold progress_report.
  apply preserves_bind; [apply _|apply now_same_self|]. intros t_now.
  destruct (PrimFloat.leb _ _); [|apply preserves_ret, _].
  apply preserves_bind; [apply _|apply get_self_same_self|]. intros self.
  destruct (_ =? _); [apply preserves_raise, _|apply preserves_ret, _].
Qed.

Lemma continuous_loop_preserves fuel target_keys duration_seconds last_report :
  preserves R (continuous_loop fuel target_keys duration_seconds last_report).
Proof.
  revert last_report. induction fuel as [|fuel IH]; intros last_report; simpl.
  - apply preserves_diverge, _.
  - apply preserves_bind; [apply _| |].
    { intros [self w]. simpl. destruct (sigint_delivered _); [apply R_signal|reflexivity]. }
    intros _. apply preserves_bind; [apply _|intros s; simpl; reflexivity|].
    intros [self w].
    destruct (negb (running self)); [apply preserves_ret, _|].
    destruct (target_reached _ _); [apply preserves_ret, _|].
    destruct (duration_reached _ _ _); [apply preserves_ret, _|].
    destruct (_ <=? _); [apply preserves_ret, _|].
    apply preserves_bind_ret; [apply _|by apply write_loop_preserves|].
    intros s [written skipped] s1 Hcall.
    apply write_loop_skipped in Hcall as ->.
    apply preserves_bind; [apply _|apply update_self_step, R_counts|]. intros _.
    apply preserves_bind; [apply _| |].
    { eapply preserves_weaken; [apply R_same|apply progress_report_same_self]. }
    intros last_report'. apply preserves_bind; [apply _| |intros; apply IH].
    eapply preserves_weaken; [apply R_same|]. by intros [??].
Qed.

Lemma run_continuous_preserves fuel target_keys duration_seconds :
  preserves R (run_continuous fuel target_keys duration_seconds).
Proof.
  unfold run_continuous.
  apply preserves_bind; [apply _| |].
  { eapply preserves_weaken; [apply R_same|apply now_same_self]. }
  intros last_report. apply preserves_bind; [apply _|apply continuous_loop_preserves|].
  intros _. eapply preserves_weaken; [apply R_same|].
  unfold print_final_stats.
  apply preserves_bind; [apply _|apply now_same_self|]. intros t_now.
  apply preserves_bind; [apply _|apply get_self_same_self|]. intros self.
  destruct (_ || _); [apply preserves_raise, _|apply preserves_ret, _].
Qed.

End Continuous.

Lemma run_continuous_cursor_ok fuel target_keys duration_seconds :
  preserves (@cursor_ok W) (run_continuous fuel target_keys duration_seconds).
Proof.
  apply run_continuous_preserves; [apply _|apply same_self_cursor_ok|..];
    intros; unfold cursor_ok; simpl; lia.
Qed.

Lemma run_continuous_keeps_skipped fuel target_keys duration_seconds :
  preserves (@keeps _ W _ keys_skipped) (run_continuous fuel target_keys duration_seconds).
Proof.
  apply run_continuous_preserves; [apply _|apply same_self_keeps|..];
    intros; unfold keeps; simpl; lia.
Qed.

Lemma calls_cursor_ok cs : preserves (@cursor_ok W) (calls cs).
Proof.
  apply preserves_for_each; [apply _|]. intros [[fuel count] batch_size].
  apply write_loop_cursor_ok.
Qed.

Lemma calls_at_bound cs self (w : world W) :
  max_daily_keys self ≤ current_key_id self → (calls cs (self, w)).2 = (self, w).
Proof.
  intros Hle. unfold calls. induction cs as [|[[fuel count] batch_size] cs IH]; [done|].
  simpl. unfold bind at 1. unfold write_pipeline_batches.
  destruct fuel as [|fuel].
  - done.
  - rewrite write_loop_at_bound by done. unfold bind.
    destruct (for_each _ cs (self, w)) as [[a|e|] s1]; simpl in *; done.
Qed.

(** C4. A call of [write_pipeline_batches], with any count and batch size,
    leaves the bound [K = max_daily_keys] as it is, never moves the cursor
    back, and never moves a cursor that is at most [K] past [K]; once the
    cursor has reached [K] a call changes neither the writer nor the
    server and sends nothing; the same holds across any sequence of calls
    and across [run_continuous]; and with a batch size of at least 1 the
    call does end. *)
Theorem cursor_never_passes_bound fuel count batch_size (self : t) (w : world W) r self' w' :
  write_pipeline_batches fuel count batch_size (self, w) = (r, (self', w')) →
  (max_daily_keys self' = max_daily_keys self
   ∧ current_key_id self ≤ current_key_id self'
   ∧ (current_key_id self ≤ max_daily_keys self → current_key_id self' ≤ max_daily_keys self)
   ∧ (max_daily_keys self ≤ current_key_id self → self' = self ∧ w' = w)
   ∧ (1 ≤ batch_size → (Z.to_nat count < fuel)%nat → r ≠ Diverged))
  ∧ (∀ cs, cursor_ok (self, w) (calls cs (self, w)).2
           ∧ (max_daily_keys self ≤ current_key_id self → (calls cs (self, w)).2 = (self, w)))
  ∧ (∀ fuel' target_keys duration_seconds,
       cursor_ok (self, w) (run_continuous fuel' target_keys duration_seconds (self, w)).2).
Proof.
  intros Hcall. split; [|split].
  - pose proof (write_loop_cursor_ok fuel batch_size count 0 0 (self, w)) as Hok.
    unfold write_pipeline_batches in Hcall. rewrite Hcall in Hok.
    destruct Hok as (Hmax & Hmono & Hbound). simpl in *.
    repeat split; try done.
    + destruct fuel as [|fuel]; [by injection Hcall as _ <- _|].
      rewrite write_loop_at_bound in Hcall by done. by injection Hcall as _ <- _.
    + destruct fuel as [|fuel]; [by injection Hcall as _ _ <-|].
      rewrite write_loop_at_bound in Hcall by done. by injection Hcall as _ _ <-.
    + intros Hbs Hfuel.
      pose proof (write_loop_terminates fuel batch_size count 0 0 Hbs Hfuel (self, w)) as Ht.
      by rewrite Hcall in Ht.
  - intros cs. split; [apply calls_cursor_ok|apply calls_at_bound].
  - intros. apply run_continuous_cursor_ok.
Qed.

(** With a batch size of 0 or less, keys left to write and a cursor below
    the bound, the loop prepares empty batches for ever: it changes nothing
    and never returns. *)
Lemma write_loop_never_ends fuel batch_size remaining written skipped self (w : world W) :
  batch_size ≤ 0 → 0 < remaining → current_key_id self < max_daily_keys self →
  write_loop fuel batch_size remaining written skipped (self, w) = (Diverged, (self, w)).
Proof.
  intros Hbs. revert remaining. induction fuel as [|fuel IH]; intros remaining Hrem Hcur; [done|].
  simpl. unfold bind at 1. simpl.
  rewrite (proj2 (Z.ltb_lt 0 remaining)), (proj2 (Z.ltb_lt _ _) Hcur) by done. simpl.
  assert (Py.min batch_size remaining = batch_size) as ->
    by (unfold Py.min; destruct (Z.ltb_spec remaining batch_size); lia).
  replace (Z.to_nat batch_size) with 0%nat by lia. simpl.
  unfold bind at 1. simpl. unfold bind at 1. simpl. apply IH; lia.
Qed.

(** *** The skip probability *)

Lemma skip_independent_ret {A} (a : A) : skip_independent (@ret (t * world W) A a).
Proof. by intros p s. Qed.

Lemma skip_independent_raise {A} e : skip_independent (@raise (t * world W) A e).
Proof. by intros p s. Qed.

Lemma skip_independent_bind {A B} (m : M (t * world W) A) (k : A → M (t * world W) B) :
  skip_independent m → (∀ a, skip_independent (k a)) → skip_independent (bind m k).
Proof.
  intros Hm Hk p s. unfold bind. rewrite Hm.
  destruct (m s) as [[a|e|] s1]; simpl; [apply Hk|done|done].
Qed.

Lemma skip_independent_try_except {A} (m : M (t * world W) A) h :
  skip_independent m → (∀ e, skip_independent (h e)) → skip_independent (try_except m h).
Proof.
  intros Hm Hh p s. unfold try_except. rewrite Hm.
  destruct (m s) as [[a|e|] s1]; simpl; [done|apply Hh|done].
Qed.

(** Code that reads the writer and uses nothing of its skip probability. *)
Lemma skip_independent_with_self {A} (k : t → M (t * world W) A) :
  (∀ self, skip_independent (k self)) →
  (∀ p self, k (set_skip_probability p self) = k self) →
  skip_independent (bind get_self k).
Proof.
  intros Hk Heq p [self w]. unfold bind, get_self, with_skip. simpl.
  rewrite Heq. apply (Hk self p (self, w)).
Qed.

Lemma call_skip_independent {A} ev (f : W → answer A * W) :
  skip_independent (@call W t A ev f).
Proof.
  intros p [o w]. unfold call, with_skip. simpl.
  destruct (f (server w)) as [[a|e] s']; done.
Qed.

Lemma set_value_with_ttl_skip_independent key value ttl :
  skip_independent (@set_value_with_ttl W _ t key value ttl).
Proof.
  unfold set_value_with_ttl, client_setex.
  apply skip_independent_try_except; [apply call_skip_independent|].
  intros; apply skip_independent_ret.
Qed.

Lemma config_writer_key_ttl_seconds_skip_independent :
  skip_independent (@config_writer_key_ttl_seconds W).
Proof.
  unfold config_writer_key_ttl_seconds. apply skip_independent_with_self; [|done].
  intros self.
  destruct (key_ttl_seconds self); [apply skip_independent_ret|apply skip_independent_raise].
Qed.

Lemma individual_writes_skip_independent items written :
  skip_independent (@individual_writes W _ items written).
Proof.
  revert written. induction items as [|[key value] items IH]; intros written; simpl.
  - apply skip_independent_ret.
  - apply skip_independent_bind; [|intros; apply IH].
    apply skip_independent_try_except; [|intros; apply skip_independent_ret].
    apply skip_independent_bind; [apply config_writer_key_ttl_seconds_skip_independent|].
    intros ttl.
    apply skip_independent_bind; [apply set_value_with_ttl_skip_independent|].
    intros; apply skip_independent_ret.
Qed.

Lemma queue_batch_skip_independent items : skip_independent (@queue_batch W items).
Proof.
  induction items as [|[key value] items IH]; simpl.
  - apply skip_independent_ret.
  - apply skip_independent_bind; [apply config_writer_key_ttl_seconds_skip_independent|].
    intros ttl.
    apply skip_independent_bind; [apply IH|]. intros; apply skip_independent_ret.
Qed.

Lemma write_batch_skip_independent batch_data written :
  skip_independent (@write_batch W _ batch_data written).
Proof.
  unfold write_batch.
  apply skip_independent_try_except; [|intros; apply individual_writes_skip_independent].
  apply skip_independent_bind; [apply queue_batch_skip_independent|]. intros cmds.
  apply skip_independent_bind; [apply call_skip_independent|].
  intros; apply skip_independent_ret.
Qed.

Lemma get_key_data_skip_independent key_id : skip_independent (@get_key_data W key_id).
Proof.
  unfold get_key_data. apply skip_independent_with_self; [|done]. intros self.
  destruct (sample_keys self !! _); [apply skip_independent_ret|apply skip_independent_raise].
Qed.

Lemma prepare_batch_skip_independent n batch_data :
  skip_independent (@prepare_batch W n batch_data).
Proof.
  revert batch_data. induction n as [|n IH]; intros batch_data; simpl.
  - apply skip_independent_ret.
  - apply skip_independent_with_self; [|done]. intros self.
    destruct (_ <=? _); [apply skip_independent_ret|].
    apply skip_independent_bind; [by intros p [o w]|]. intros _.
    apply skip_independent_bind; [apply get_key_data_skip_independent|].
    intros [k v]. apply IH.
Qed.

Lemma write_loop_skip_independent fuel batch_size remaining written skipped :
  skip_independent (@write_loop W _ fuel batch_size remaining written skipped).
Proof.
  revert remaining written. induction fuel as [|fuel IH]; intros remaining written; simpl.
  - by intros p s.
  - apply skip_independent_with_self; [|done]. intros self.
    destruct (_ && _); [|apply skip_independent_ret].
    apply skip_independent_bind; [apply prepare_batch_skip_independent|]. intros batch_data.
    apply skip_independent_bind; [|intros; apply IH].
    destruct (dict_nonempty batch_data);
      [apply write_batch_skip_independent|apply skip_independent_ret].
Qed.

(** *** Returning *)

Lemma get_key_data_returns key_id self (w : world W) :
  complete_samples self →
  ∃ kv, get_key_data key_id (self, w) = (Ret kv, (self, w)).
Proof.
  intros Hc. unfold get_key_data, bind, get_self. simpl.
  destruct (Hc (key_id mod 100)) as [v Hv]; [by apply Z.mod_pos_bound|].
  rewrite Hv. by eexists.
Qed.

Lemma prepare_batch_returns n batch_data self (w : world W) :
  complete_samples self →
  ∃ batch_data' self', prepare_batch n batch_data (self, w) = (Ret batch_data', (self', w))
                        ∧ complete_samples self'.
Proof.
  revert batch_data self. induction n as [|n IH]; intros batch_data self Hc; simpl.
  - by exists batch_data, self.
  - unfold bind at 1. simpl.
    destruct (_ <=? _); [by exists batch_data, self|].
    unfold bind at 1. simpl.
    set (self1 := set_current_key_id _ self).
    assert (complete_samples self1) as Hc1 by exact Hc.
    destruct (get_key_data_returns (current_key_id self) self1 w Hc1) as [[k v] Hkv].
    unfold bind at 1. rewrite Hkv. by apply IH.
Qed.

Lemma write_batch_returns batch_data written : returns (@write_batch W _ batch_data written).
Proof.
  unfold write_batch.
  apply returns_try_except.
  - apply terminates_bind; [apply queue_batch_terminates|]. intros cmds.
    apply terminates_bind; [apply call_terminates|]. intros; apply terminates_ret.
  - intros _. revert written.
    induction batch_data as [|[key value] items IH]; intros written; simpl.
    + apply returns_ret.
    + apply returns_bind; [|intros; apply IH].
      apply returns_try_except; [|intros; apply returns_ret].
      apply terminates_bind; [apply config_writer_key_ttl_seconds_terminates|]. intros ttl.
      apply terminates_bind; [apply set_value_with_ttl_terminates|].
      intros; apply terminates_ret.
Qed.

(** With a complete sample table and batches of at least one key, the
    loop returns, and hands back the [skipped] it was started with. *)
Lemma write_loop_returns fuel batch_size remaining written skipped self (w : world W) :
  complete_samples self → 1 ≤ batch_size → (Z.to_nat remaining < fuel)%nat →
  ∃ written' s', write_loop fuel batch_size remaining written skipped (self, w)
                 = (Ret (written', skipped), s').
Proof.
  intros Hc Hbs. revert remaining written self w Hc.
  induction fuel as [|fuel IH]; intros remaining written self w Hc Hfuel; [lia|]. simpl.
  unfold bind at 1. simpl.
  destruct (Z.ltb_spec 0 remaining) as [Hrem|Hrem]; simpl; [|by eexists _, _].
  destruct (_ <? _); [|by eexists _, _].
  destruct (prepare_batch_returns (Z.to_nat (Py.min batch_size remaining)) [] self w Hc)
    as (batch_data & self1 & Hp & Hc1).
  unfold bind at 1. rewrite Hp.
  set (m := if dict_nonempty batch_data then write_batch batch_data written else ret written).
  assert (returns m) as Hm
    by (unfold m; destruct (dict_nonempty batch_data); [apply write_batch_returns|apply returns_ret]).
  assert (preserves (@same_self _ W) m) as Hs
    by (unfold m; destruct (dict_nonempty batch_data);
        [apply write_batch_same_self|apply preserves_ret, _]).
  destruct (Hm (self1, w)) as [written1 Hw1]. specialize (Hs (self1, w)).
  unfold bind at 1. destruct (m (self1, w)) as [r1 [self2 w2]]. simpl in *.
  unfold same_self in Hs. simpl in Hs. subst r1 self2.
  apply IH; [done|]. unfold Py.min. destruct (remaining <? batch_size); lia.
Qed.

(** C10. [write_pipeline_batches] never counts a skipped key: whenever it
    returns, the second component is 0, and it does return for a batch size
    of at least 1 and a complete sample table; it leaves [keys_skipped] as
    it is, and so does [run_continuous], so the counter stays at its
    initial 0; and the call runs the same, with the same requests and the
    same result, whatever [skip_probability] the writer holds. *)
Theorem skip_is_dead_code fuel count batch_size (self : t) (w : world W) r self' w' :
  write_pipeline_batches fuel count batch_size (self, w) = (r, (self', w')) →
  (∀ written skipped, r = Ret (written, skipped) → skipped = 0)
  ∧ (complete_samples self → 1 ≤ batch_size → (Z.to_nat count < fuel)%nat →
     ∃ written, r = Ret (written, 0))
  ∧ keys_skipped self' = keys_skipped self
  ∧ (∀ fuel' target_keys duration_seconds,
       keys_skipped (run_continuous fuel' target_keys duration_seconds (self, w)).2.1
       = keys_skipped self)
  ∧ (∀ p, write_pipeline_batches fuel count batch_size (set_skip_probability p self, w)
          = (r, (set_skip_probability p self', w'))).
Proof.
  intros Hcall. unfold write_pipeline_batches in *. repeat split.
  - intros written skipped ->. by apply write_loop_skipped in Hcall.
  - intros Hc Hbs Hfuel.
    destruct (write_loop_returns fuel batch_size count 0 0 self w Hc Hbs Hfuel)
      as (written & s' & Hret).
    rewrite Hret in Hcall. injection Hcall as <- _. by exists written.
  - pose proof (write_loop_keeps keys_skipped fuel batch_size count 0 0 ltac:(done) (self, w)) as Hk.
    by rewrite Hcall in Hk.
  - intros. apply (run_continuous_keeps_skipped fuel' target_keys duration_seconds (self, w)).
  - intros p.
    pose proof (write_loop_skip_independent fuel batch_size count 0 0 p (self, w)) as Hi.
    by rewrite Hcall in Hi.
Qed.

(** *** Requests of a batch *)

Lemma config_writer_key_ttl_seconds_spec self (w : world W) :
  config_writer_key_ttl_seconds (self, w)
  = (match key_ttl_seconds self with
     | Some ttl => Ret ttl
     | None => Exc AttributeError
     end, (self, w)).
Proof.
  unfold config_writer_key_ttl_seconds, bind, get_self. simpl.
  by destruct (key_ttl_seconds self).
Qed.

(** With a readable TTL the loop queues one command per item. *)
Lemma queue_batch_readable items self (w : world W) ttl :
  key_ttl_seconds self = Some ttl →
  queue_batch items (self, w) = (Ret (batch_commands ttl items), (self, w)).
Proof.
  intros Httl. induction items as [|[key value] items IH]; [done|].
  cbn [queue_batch]. unfold bind at 1. rewrite config_writer_key_ttl_seconds_spec, Httl.
  unfold bind at 1. by rewrite IH.
Qed.

(** Without one the first [pipe.setex] raises. *)
Lemma queue_batch_unreadable items self (w : world W) :
  key_ttl_seconds self = None → items ≠ [] →
  queue_batch items (self, w) = (Exc AttributeError, (self, w)).
Proof.
  intros Httl Hne. destruct items as [|[key value] items]; [done|].
  cbn [queue_batch]. unfold bind at 1. by rewrite config_writer_key_ttl_seconds_spec, Httl.
Qed.

Lemma individual_writes_spec items written self (w : world W) ttl :
  key_ttl_seconds self = Some ttl →
  individual_writes items written (self, w)
  = (Ret (written + Z.of_nat (length (filter (λ a, written_ok a = true)
                                             (setex_answers ttl items (server w)).1))),
     (self, {| server := (setex_answers ttl items (server w)).2;
               log := log w ++ setex_events ttl items |})).
Proof.
  intros Httl. revert written w. induction items as [|[key value] items IH]; intros written w.
  - simpl. rewrite app_nil_r, Z.add_0_r. by destruct w.
  - cbn [individual_writes]. unfold bind at 1, try_except, bind at 1.
    rewrite config_writer_key_ttl_seconds_spec, Httl.
    unfold bind, set_value_with_ttl, try_except, client_setex, call.
    simpl.
    destruct (redis_setex key ttl value (server w)) as [[[|]|e] s1] eqn:Hans;
      simpl; rewrite IH; simpl;
      destruct (setex_answers ttl items s1) as [rest s2]; simpl;
      rewrite <- app_assoc; simpl; try rewrite filter_cons; simpl;
      do 2 f_equal; lia.
Qed.

(** Without a readable TTL no individual write is sent: the read raises
    inside the inner [try], before the call. *)
Lemma individual_writes_unreadable items written self (w : world W) :
  key_ttl_seconds self = None →
  individual_writes items written (self, w) = (Ret written, (self, w)).
Proof.
  intros Httl. induction items as [|[key value] items IH]; [done|].
  cbn [individual_writes]. unfold bind at 1, try_except, bind at 1.
  by rewrite config_writer_key_ttl_seconds_spec, Httl.
Qed.

Lemma write_batch_failed batch_data written self (w : world W) ttl e s1 :
  key_ttl_seconds self = Some ttl →
  redis_execute (batch_commands ttl batch_data) (server w) = (Fail e, s1) →
  write_batch batch_data written (self, w)
  = (Ret (written + Z.of_nat (length (filter (λ a, written_ok a = true)
                                             (setex_answers ttl batch_data s1).1))),
     (self, {| server := (setex_answers ttl batch_data s1).2;
               log := log w ++ Pipeline (batch_commands ttl batch_data)
                              :: setex_events ttl batch_data |})).
Proof.
  intros Httl Hfail. unfold write_batch, try_except, bind at 1.
  rewrite (queue_batch_readable _ _ _ _ Httl).
  unfold bind, pipeline_execute, call. simpl. rewrite Hfail.
  rewrite (individual_writes_spec _ _ _ _ _ Httl). simpl. by rewrite <- app_assoc.
Qed.

Lemma write_batch_ok batch_data written self (w : world W) ttl results s1 :
  key_ttl_seconds self = Some ttl →
  redis_execute (batch_commands ttl batch_data) (server w) = (Ok results, s1) →
  write_batch batch_data written (self, w)
  = (Ret (written + Z.of_nat (length (filter (λ r, truthy r = true) results))),
     (self, {| server := s1; log := log w ++ [Pipeline (batch_commands ttl batch_data)] |})).
Proof.
  intros Httl Hok. unfold write_batch, try_except, bind at 1.
  rewrite (queue_batch_readable _ _ _ _ Httl).
  unfold bind, pipeline_execute, call. simpl. by rewrite Hok.
Qed.

(** A batch whose TTL cannot be read sends nothing and counts nothing:
    queuing the first command raises, and so does every individual
    write before its request. *)
Lemma write_batch_unreadable batch_data written self (w : world W) :
  key_ttl_seconds self = None → batch_data ≠ [] →
  write_batch batch_data written (self, w) = (Ret written, (self, w)).
Proof.
  intros Httl Hne. unfold write_batch, try_except, bind at 1.
  rewrite (queue_batch_unreadable _ _ _ Httl Hne).
  by apply individual_writes_unreadable.
Qed.

(** *** Keys and ids *)

Lemma str_int_inj a b : str_int a = str_int b → a = b.
Proof.
  unfold str_int. intros Heq. apply to_int_inj.
  assert (∀ z, NilZero.int_of_string (NilZero.string_of_int (Z.to_int z)) = Some (Z.to_int z))
    as Hrt.
  { intros z. apply NilZero.isi; destruct z; simpl; try done;
      intros [= Hnil]; by apply Unsigned.to_uint_nonnil in Hnil. }
  pose proof (Hrt a) as Ha. rewrite Heq, Hrt in Ha. by injection Ha.
Qed.

Lemma append_inj_r (p a b : string) : p +:+ a = p +:+ b → a = b.
Proof. induction p as [|c p IH]; simpl; [done|]. intros [= Heq]. by apply IH. Qed.

Lemma create_redis_key_simple_inj version a b :
  NetworkUtils.create_redis_key_simple a version = NetworkUtils.create_redis_key_simple b version →
  a = b.
Proof.
  unfold NetworkUtils.create_redis_key_simple. intros Heq.
  do 3 apply append_inj_r in Heq. by apply str_int_inj.
Qed.

Lemma keys_of_ids_NoDup version first n : NoDup (keys_of_ids version first n).
Proof.
  unfold keys_of_ids. apply NoDup_fmap_2; [|apply NoDup_seqZ].
  intros a b. apply create_redis_key_simple_inj.
Qed.

Lemma keys_of_ids_app version first n1 n2 :
  0 ≤ n1 → 0 ≤ n2 →
  keys_of_ids version first (n1 + n2)
  = keys_of_ids version first n1 ++ keys_of_ids version (first + n1) n2.
Proof. intros. unfold keys_of_ids. by rewrite seqZ_app, fmap_app. Qed.

Lemma keys_of_ids_fresh version first n :
  0 ≤ n → NetworkUtils.create_redis_key_simple (first + n) version ∉ keys_of_ids version first n.
Proof.
  intros Hn Hin. unfold keys_of_ids in Hin.
  apply list_elem_of_fmap in Hin as (id & Heq & Hid).
  apply create_redis_key_simple_inj in Heq. apply elem_of_seqZ in Hid. lia.
Qed.

Lemma dict_set_fresh {V} (d : dict V) k v : k ∉ d.*1 → dict_set d k v = d ++ [(k, v)].
Proof.
  induction d as [|[k' v'] d IH]; simpl; [done|]. intros Hk.
  apply not_elem_of_cons in Hk as [Hne Hk].
  destruct (String.eqb_spec k' k) as [->|_]; [done|]. by rewrite IH.
Qed.

(** The keys of the batch that has been prepared are those of the ids the
    cursor went over, in order; preparing a batch sends nothing. *)
Lemma prepare_batch_ids n batch_data self (w : world W) r self' w' c0 :
  prepare_batch n batch_data (self, w) = (r, (self', w')) →
  c0 ≤ current_key_id self →
  batch_data.*1 = keys_of_ids (version self) c0 (current_key_id self - c0) →
  w' = w ∧ version self' = version self
  ∧ current_key_id self ≤ current_key_id self'
  ∧ (∀ batch_data', r = Ret batch_data' →
       batch_data'.*1 = keys_of_ids (version self) c0 (current_key_id self' - c0)).
Proof.
  revert batch_data self. induction n as [|n IH]; intros batch_data self Hrun Hc0 Hkeys.
  - simpl in Hrun. injection Hrun as <- <- <-. repeat split; try done. by intros ? [= <-].
  - simpl in Hrun. unfold bind at 1 in Hrun. simpl in Hrun.
    destruct (_ <=? _).
    + injection Hrun as <- <- <-. repeat split; try done. by intros ? [= <-].
    + unfold bind at 1 in Hrun. simpl in Hrun.
      unfold bind at 1, get_key_data, bind, get_self in Hrun. simpl in Hrun.
      destruct (sample_keys self !! _) as [v|]; simpl in Hrun.
      * apply IH in Hrun; simpl in *.
        -- destruct Hrun as (-> & -> & Hle & Hret). repeat split; try done. lia.
        -- lia.
        -- replace (current_key_id self + 1 - c0) with ((current_key_id self - c0) + 1) by lia.
           rewrite keys_of_ids_app by lia.
           replace (c0 + (current_key_id self - c0)) with (current_key_id self) by lia.
           rewrite dict_set_fresh, fmap_app, Hkeys; [done|].
           rewrite Hkeys.
           replace (current_key_id self) with (c0 + (current_key_id self - c0)) at 1 by lia.
           apply keys_of_ids_fresh. lia.
      * injection Hrun as <- <- <-. simpl. repeat split; try done; lia.
Qed.

Lemma command_keys_batch ttl (batch_data : dict string) :
  command_key <$> batch_commands ttl batch_data = batch_data.*1.
Proof.
  unfold batch_commands. rewrite <- list_fmap_compose.
  apply list_fmap_ext. by intros _ [k v] _.
Qed.

Lemma pipeline_keys_setex_events ttl items : pipeline_keys (setex_events ttl items) = [].
Proof. induction items as [|[k v] items IH]; [done|]. exact IH. Qed.

Lemma setex_keys_setex_events ttl items : setex_keys (setex_events ttl items) = items.*1.
Proof.
  induction items as [|[k v] items IH]; [done|].
  change (setex_keys (setex_events ttl ((k, v) :: items)))
    with (k :: setex_keys (setex_events ttl items)).
  by rewrite IH.
Qed.

(** What one batch sends: its pipeline, and after a failure one write per
    key. *)
Lemma write_step_requests (batch_data : dict string) written self (w : world W) :
  ∃ evs w2,
    ((if dict_nonempty batch_data then write_batch batch_data written else ret written)
       (self, w)).2 = (self, w2)
    ∧ log w2 = log w ++ evs
    ∧ pipeline_keys evs `sublist_of` batch_data.*1
    ∧ setex_keys evs `sublist_of` batch_data.*1
    ∧ setex_keys evs ⊆ pipeline_keys evs.
Proof.
  destruct (dict_nonempty batch_data) eqn:Hne.
  - destruct (key_ttl_seconds self) as [ttl|] eqn:Httl.
    2:{ rewrite (write_batch_unreadable _ _ _ _ Httl) by (by destruct batch_data).
        exists [], w. simpl. rewrite app_nil_r. repeat split; try done; apply sublist_nil_l. }
    destruct (redis_execute (batch_commands ttl batch_data) (server w))
      as [[results|e] s1] eqn:Hans.
    + rewrite (write_batch_ok _ _ _ _ _ _ _ Httl Hans). eexists [_], _. simpl.
      split; [done|]. split; [done|].
      unfold pipeline_keys, setex_keys. simpl. rewrite app_nil_r, command_keys_batch.
      split; [done|]. split; [apply sublist_nil_l|set_solver].
    + rewrite (write_batch_failed _ _ _ _ _ _ _ Httl Hans). eexists (_ :: _), _. simpl.
      split; [done|]. split; [done|].
      change (pipeline_keys (Pipeline ?c :: ?l)) with ((command_key <$> c) ++ pipeline_keys l).
      change (setex_keys (Pipeline ?c :: ?l)) with (setex_keys l).
      rewrite pipeline_keys_setex_events, setex_keys_setex_events, app_nil_r, command_keys_batch.
      done.
  - exists [], w. simpl. rewrite app_nil_r. repeat split; try done; apply sublist_nil_l.
Qed.

(** What a call sends: the keys of its pipelines, and the keys of its
    individual writes, are taken in order from the keys of the ids the
    cursor went over. *)
Lemma write_loop_requests fuel batch_size remaining written skipped self (w : world W) r self' w' :
  write_loop fuel batch_size remaining written skipped (self, w) = (r, (self', w')) →
  current_key_id self ≤ current_key_id self' ∧ version self' = version self
  ∧ ∃ evs, log w' = log w ++ evs
      ∧ pipeline_keys evs
          `sublist_of` keys_of_ids (version self) (current_key_id self)
                                   (current_key_id self' - current_key_id self)
      ∧ setex_keys evs
          `sublist_of` keys_of_ids (version self) (current_key_id self)
                                   (current_key_id self' - current_key_id self)
      ∧ setex_keys evs ⊆ pipeline_keys evs.
Proof.
  revert remaining written self w.
  induction fuel as [|fuel IH]; intros remaining written self w Hrun.
  { injection Hrun as <- <- <-. do 2 (split; [done|]). exists [].
    rewrite app_nil_r. repeat split; try done; apply sublist_nil_l. }
  simpl in Hrun. unfold bind at 1 in Hrun. simpl in Hrun.
  destruct (_ && _).
  2:{ injection Hrun as <- <- <-. do 2 (split; [done|]). exists [].
      rewrite app_nil_r. repeat split; try done; apply sublist_nil_l. }
  assert (∀ r1 self1 w1,
    prepare_batch (Z.to_nat (Py.min batch_size remaining)) [] (self, w) = (r1, (self1, w1)) →
    w1 = w ∧ version self1 = version self ∧ current_key_id self ≤ current_key_id self1
    ∧ ∀ bd, r1 = Ret bd →
        bd.*1 = keys_of_ids (version self) (current_key_id self)
                            (current_key_id self1 - current_key_id self)) as Hprep.
  { intros r1 self1 w1 Hp. eapply prepare_batch_ids in Hp; [exact Hp|lia|].
    by rewrite Z.sub_diag. }
  apply bind_inv in Hrun as [(bd & [self1 w1] & Hp & Hrun)|[(e & Hp & ->)|[Hp ->]]].
  2,3: apply Hprep in Hp as (-> & Hv & Hle & _); do 2 (split; [done|]); exists [];
       rewrite app_nil_r; repeat split; try done; apply sublist_nil_l.
  apply Hprep in Hp as (-> & Hv & Hle & Hkeys). specialize (Hkeys bd eq_refl).
  destruct (write_step_requests bd written self1 w) as (evs1 & w2 & Hst & Hlog1 & Hp1 & Hs1 & Hsub1).
  rewrite Hkeys in Hp1, Hs1.
  apply bind_inv in Hrun as [(wr & s2 & Hw & Hrun)|[(e & Hw & ->)|[Hw ->]]].
  2,3: rewrite Hw in Hst; injection Hst as -> ->; do 2 (split; [done|]); by exists evs1.
  rewrite Hw in Hst. simpl in Hst. subst s2.
  apply IH in Hrun as (Hle2 & Hv2 & evs2 & Hlog2 & Hp2 & Hs2 & Hsub2).
  split; [lia|]. split; [congruence|]. exists (evs1 ++ evs2).
  rewrite Hlog2, Hlog1, <- app_assoc. split; [done|].
  replace (current_key_id self' - current_key_id self)
    with ((current_key_id self1 - current_key_id self) + (current_key_id self' - current_key_id self1))
    by lia.
  rewrite keys_of_ids_app by lia.
  replace (current_key_id self + (current_key_id self1 - current_key_id self))
    with (current_key_id self1) by lia.
  rewrite Hv in Hp2, Hs2.
  unfold pipeline_keys, setex_keys in *. rewrite !bind_app.
  repeat split; try by apply sublist_app.
  intros k [Hk|Hk]%elem_of_app; apply elem_of_app; [left; by apply Hsub1|right; by apply Hsub2].
Qed.

(** C7. When the pipelined call of a batch raises, [write_pipeline_batches]
    sends, after it, exactly one individual write for each key of the
    batch, in the order of the batch, whatever the individual writes answer:
    those answering success are counted as written, the others (a refusal
    or an exception) are not and stop nothing.  When the pipelined call
    returns, no individual write is sent.  Over a whole call, no key is
    sent in more than one pipeline nor in more than one individual write,
    and individual writes are only sent for keys sent in a pipeline.  A
    pipelined call is only made with a TTL that could be read: when the
    read raises, the batch sends no request at all and counts nothing. *)
Theorem fallback_writes_each_key_once :
  (∀ batch_data written self (w : world W) ttl e s1,
     key_ttl_seconds self = Some ttl →
     redis_execute (batch_commands ttl batch_data) (server w) = (Fail e, s1) →
     write_batch batch_data written (self, w)
     = (Ret (written + Z.of_nat (length (filter (λ a, written_ok a = true)
                                                (setex_answers ttl batch_data s1).1))),
        (self, {| server := (setex_answers ttl batch_data s1).2;
                  log := log w ++ Pipeline (batch_commands ttl batch_data)
                                 :: setex_events ttl batch_data |}))
     ∧ length (setex_answers ttl batch_data s1).1 = length batch_data)
  ∧ (∀ batch_data written self (w : world W) ttl results s1,
     key_ttl_seconds self = Some ttl →
     redis_execute (batch_commands ttl batch_data) (server w) = (Ok results, s1) →
     write_batch batch_data written (self, w)
     = (Ret (written + Z.of_nat (length (filter (λ r, truthy r = true) results))),
        (self, {| server := s1; log := log w ++ [Pipeline (batch_commands ttl batch_data)] |})))
  ∧ (∀ batch_data written self (w : world W),
     key_ttl_seconds self = None → batch_data ≠ [] →
     write_batch batch_data written (self, w) = (Ret written, (self, w)))
  ∧ (∀ fuel count batch_size self (w : world W) r self' w',
     write_pipeline_batches fuel count batch_size (self, w) = (r, (self', w')) →
     ∃ evs, log w' = log w ++ evs
       ∧ NoDup (pipeline_keys evs)
       ∧ NoDup (setex_keys evs)
       ∧ setex_keys evs ⊆ pipeline_keys evs).
Proof.
  split; [|split; [|split]].
  - intros batch_data written self w ttl e s1 Httl Hfail.
    split; [exact (write_batch_failed _ _ _ _ _ _ _ Httl Hfail)|].
    clear Hfail. revert s1. induction batch_data as [|[k v] items IH]; intros s1; [done|].
    simpl. destruct (redis_setex k ttl v s1) as [a s2]. specialize (IH s2).
    destruct (setex_answers ttl items s2) as [rest s3]. simpl in *. by rewrite IH.
  - intros batch_data written self w ttl results s1 Httl Hok.
    exact (write_batch_ok _ _ _ _ _ _ _ Httl Hok).
  - intros batch_data written self w Httl Hne.
    exact (write_batch_unreadable _ _ _ _ Httl Hne).
  - intros fuel count batch_size self w r self' w' Hrun.
    apply write_loop_requests in Hrun as (_ & _ & evs & Hlog & Hp & Hs & Hsub).
    exists evs. repeat split; try done.
    + eapply sublist_NoDup; [apply keys_of_ids_NoDup|exact Hp].
    + eapply sublist_NoDup; [apply keys_of_ids_NoDup|exact Hs].
Qed.

(** *** Payloads *)

(** C9. The payload of a key id is that of the id modulo 100: the value
    component of [get_key_data(id)] is the sample stored under
    [str(id % 100)], it equals that of [get_key_data(id % 100)] and that
    of [get_key_data(id + 100)] (all three raise [KeyError] alike when the
    sample is missing), while the store keys of [id] and [id + 100]
    differ. *)
Theorem payload_cycles_mod_100 (self : t) (w : world W) (id : Z) :
  payload_of self w id = payload_of self w (id mod 100)
  ∧ payload_of self w (id + 100) = payload_of self w id
  ∧ payload_of self w id
    = match sample_keys self !! str_int (id mod 100) with
      | Some value => Ret value
      | None => Exc KeyError
      end
  ∧ (∀ key value, (get_key_data id (self, w)).1 = Ret (key, value) →
       key = NetworkUtils.create_redis_key_simple id (version self))
  ∧ NetworkUtils.create_redis_key_simple id (version self)
    ≠ NetworkUtils.create_redis_key_simple (id + 100) (version self).
Proof.
  assert (∀ i, payload_of self w i
               = match sample_keys self !! str_int (i mod 100) with
                 | Some value => Ret value
                 | None => Exc KeyError
                 end) as Hpayload.
  { intros i. unfold payload_of, get_key_data, bind, get_self. simpl.
    by destruct (sample_keys self !! _). }
  repeat split.
  - by rewrite !Hpayload, Z.mod_mod.
  - rewrite !Hpayload. by rewrite <- (Z_mod_plus_full id 1 100).
  - apply Hpayload.
  - intros key value. unfold get_key_data, bind, get_self. simpl.
    destruct (sample_keys self !! _); [|done]. by intros [= <- _].
  - intros Heq%create_redis_key_simple_inj. lia.
Qed.

End WriterProperties.

(** *** The writer on the in-memory server *)

Lemma cursor_never_passes_bound_witness :
  let env := InMemory.env InMemory.no_json InMemory.str_size in
  ∃ r self' w',
    FastWriter.write_pipeline_batches (H := env) 20 10 2 (InMemory.writer, InMemory.start true [])
    = (r, (self', w'))
    ∧ FastWriter.current_key_id self' ≤ 5
    ∧ r ≠ Diverged.
Proof.
  intros env.
  destruct (FastWriter.write_pipeline_batches 20 10 2 (InMemory.writer, InMemory.start true []))
    as [r [self' w']] eqn:Hrun.
  exists r, self', w'. split; [done|].
  destruct (cursor_never_passes_bound 20 10 2 InMemory.writer (InMemory.start true []) r self' w'
              Hrun) as ((_ & _ & Hbound & _ & Hend) & _).
  split; [apply Hbound; vm_compute; discriminate|apply Hend; lia].
Defined.

Lemma skip_is_dead_code_witness :
  let env := InMemory.env InMemory.no_json InMemory.str_size in
  ∃ written self' w',
    FastWriter.write_pipeline_batches (H := env) 20 10 2 (InMemory.writer, InMemory.start true [])
    = (Ret (written, 0), (self', w'))
    ∧ FastWriter.keys_skipped self' = 0.
Proof.
  intros env.
  destruct (FastWriter.write_pipeline_batches 20 10 2 (InMemory.writer, InMemory.start true []))
    as [r [self' w']] eqn:Hrun.
  destruct (skip_is_dead_code 20 10 2 InMemory.writer (InMemory.start true []) r self' w' Hrun)
    as (_ & Hret & Hskipped & _).
  destruct Hret as [written ->].
  - intros i Hi. unfold InMemory.writer, FastWriter.init, FastWriter.sample_keys.
    assert (∀ n : nat, (n ≤ 100)%nat → ∀ j, 0 ≤ j < Z.of_nat n →
              is_Some ((list_to_map ((λ i, (str_int i, "{}")) <$> (Z.of_nat <$> seq 0 n))
                          : gmap string string) !! str_int j)) as Hall.
    { clear. intros n _ j Hj. apply elem_of_dom. rewrite dom_list_to_map_L.
      apply elem_of_list_to_set, list_elem_of_fmap. exists (str_int j, "{}").
      split; [done|]. apply list_elem_of_fmap. exists j. split; [done|].
      apply list_elem_of_fmap. exists (Z.to_nat j). split; [lia|]. apply elem_of_seq. lia. }
    apply (Hall 100%nat); [lia|]. exact Hi.
  - lia.
  - lia.
  - by exists written, self', w'.
Defined.

Lemma fallback_writes_each_key_once_witness :
  let env := InMemory.env InMemory.no_json InMemory.str_size in
  let batch := [("ip:v22:0", "{}"); ("ip:v22:1", "{}")] in
  FastWriter.write_batch (H := env) batch 0 (InMemory.writer, InMemory.start false [])
  = (Ret 2,
     (InMemory.writer,
      {| server := (Spec.setex_answers 259200 batch
                      (InMemory.tick (server (InMemory.start false [])))).2;
         log := [Pipeline (FastWriter.batch_commands 259200 batch);
                 Setex "ip:v22:0" 259200 "{}"; Setex "ip:v22:1" 259200 "{}"] |})).
Proof.
  intros env batch.
  destruct (fallback_writes_each_key_once (H := env)) as (Hfail & _ & _).
  destruct (Hfail batch 0 InMemory.writer (InMemory.start false []) 259200 RedisError
              (InMemory.tick (server (InMemory.start false []))) eq_refl eq_refl) as [Hrun _].
  exact Hrun.
Defined.

Lemma payload_cycles_mod_100_witness :
  let env := InMemory.env InMemory.no_json InMemory.str_size in
  Spec.payload_of (H := env) InMemory.writer (InMemory.start true []) 207 = Ret "{}"
  ∧ Spec.payload_of (H := env) InMemory.writer (InMemory.start true []) 7 = Ret "{}".
Proof.
  intros env.
  destruct (payload_cycles_mod_100 (H := env) InMemory.writer (InMemory.start true []) 207)
    as (Hmod & _ & Hval & _).
  split; [exact Hval|].
  transitivity (Spec.payload_of (H := env) InMemory.writer (InMemory.start true []) 207);
    [symmetry; exact Hmod|exact Hval].
Defined.

(** ** Key-space partition *)

Section Partition.
Import ParallelWriter Spec.

Lemma chained_le a ts b : chained a ts b → a ≤ b.
Proof. induction 1; lia. Qed.

Lemma chained_count a ts b k :
  chained a ts b →
  length (filter (covers k) ts) = if bool_decide (a ≤ k < b) then 1%nat else 0%nat.
Proof.
  induction 1 as [a|a t ts b Hs He Hc IH].
  - rewrite bool_decide_eq_false_2; [done|lia].
  - pose proof (chained_le _ _ _ Hc) as Hle.
    rewrite filter_cons. destruct (decide (covers k t)) as [Hk|Hk]; unfold covers in Hk.
    + simpl. rewrite IH. rewrite bool_decide_eq_false_2 by lia.
      rewrite bool_decide_eq_true_2 by lia. done.
    + rewrite IH. repeat case_bool_decide; lia.
Qed.

Lemma task_for_chained T n (i m : nat) :
  0 ≤ T → 0 < n → (i + m ≤ Z.to_nat n)%nat →
  chained (Z.of_nat i * (T / n))
          (task_for T n <$> (Z.of_nat <$> seq i m))
          (if decide ((i + m)%nat = Z.to_nat n ∧ m ≠ 0%nat) then T
           else Z.of_nat (i + m) * (T / n)).
Proof.
  intros HT Hn. unfold task_for.
  assert (Hdiv : 0 ≤ T / n) by (apply Z.div_pos; lia).
  assert (Hmod : 0 ≤ T mod n) by (apply Z.mod_pos_bound; lia).
  pose proof (Z.div_mod T n ltac:(lia)) as Hdm.
  set (p := T / n) in *. set (r := T mod n) in *. clearbody p r.
  revert i. induction m as [|m IH]; intros i Him.
  - simpl. rewrite decide_False by lia. replace (i + 0)%nat with i by lia. constructor.
  - specialize (IH (S i) ltac:(lia)).
    rewrite <- cons_seq, !fmap_cons.
    constructor; simpl.
    + done.
    + destruct (Z.of_nat i =? n - 1); lia.
    + destruct m as [|m].
      * simpl. destruct (Z.eqb_spec (Z.of_nat i) (n - 1)) as [Hi|Hi].
        -- rewrite decide_True by lia.
           replace (Z.of_nat i * p + p + r) with T by nia.
           constructor.
        -- rewrite decide_False by lia.
           replace (Z.of_nat i * p + p) with (Z.of_nat (i + 1) * p) by lia.
           constructor.
      * rewrite (proj2 (Z.eqb_neq _ _)) by lia.
        replace (Z.of_nat i * p + p) with (Z.of_nat (S i) * p) by lia.
        replace (i + S (S m))%nat with (S i + S m)%nat by lia.
        destruct (decide _) as [Hd|Hd]; destruct (decide _) as [Hd'|Hd']; try lia; apply IH.
Qed.

Lemma chained_adjacent a ts b (i : nat) t t' :
  chained a ts b → ts !! i = Some t → ts !! S i = Some t' →
  end_key t = start_key t'.
Proof.
  intros Hc. revert i. induction Hc as [a|a u us b Hs He Hc IH]; intros i Ht Ht'.
  - done.
  - destruct i as [|i]; simpl in *.
    + injection Ht as ->. inversion Hc; subst; simpl in *; congruence.
    + eauto.
Qed.

Lemma chained_head a ts b t : chained a ts b → ts !! 0%nat = Some t → start_key t = a.
Proof. destruct 1; simpl; congruence. Qed.

Lemma chained_last a ts b t : chained a ts b → last ts = Some t → end_key t = b.
Proof.
  induction 1 as [a|a u us b Hs He Hc IH]; [done|].
  destruct us as [|u' us]; simpl in *.
  - inversion Hc; congruence.
  - auto.
Qed.

Lemma submitted_tasks_chained T n :
  0 ≤ T → 0 < n →
  chained 0 (task_for T n <$> range n) T.
Proof.
  intros HT Hn.
  pose proof (task_for_chained T n 0 (Z.to_nat n) HT Hn ltac:(lia)) as H.
  rewrite decide_True in H by lia. exact H.
Qed.

Lemma task_for_lookup T n (i : nat) t :
  (task_for T n <$> range n) !! i = Some t → t = task_for T n (Z.of_nat i) ∧ Z.of_nat i < n.
Proof.
  unfold range. rewrite !list_lookup_fmap.
  destruct (seq 0 (Z.to_nat n) !! i) as [j|] eqn:Hj; simpl; [|done].
  apply lookup_seq in Hj as [-> Hlt]. intros [= <-]. split; [done|lia].
Qed.

(** C1. For [totalKeys >= 1] and [1 <= numWorkers <= totalKeys],
    [run_parallel_import] submits [numWorkers] tasks; task [i] (0-indexed)
    has the range [[i*perWorker, (i+1)*perWorker)] with
    [perWorker = totalKeys div numWorkers], the last one extended by
    [totalKeys mod numWorkers]; consecutive ranges are contiguous, the first
    starts at 0, the last ends at [totalKeys], every id of [[0, totalKeys)]
    lies in exactly one range and no range holds any other id. *)
Theorem partition_coverage (totalKeys numWorkers : Z) :
  1 ≤ totalKeys → 1 ≤ numWorkers ≤ totalKeys →
  ∃ ts, submitted_tasks totalKeys numWorkers = Ret ts
    ∧ length ts = Z.to_nat numWorkers
    ∧ (∀ (i : nat) t, ts !! i = Some t →
         writer_id t = Z.of_nat i + 1
         ∧ start_key t = Z.of_nat i * (totalKeys / numWorkers)
         ∧ end_key t = (Z.of_nat i + 1) * (totalKeys / numWorkers)
                       + (if decide (Z.of_nat i = numWorkers - 1)
                          then totalKeys mod numWorkers else 0))
    ∧ (∀ (i : nat) t t', ts !! i = Some t → ts !! S i = Some t' →
         end_key t = start_key t')
    ∧ (∀ t, ts !! 0%nat = Some t → start_key t = 0)
    ∧ (∀ t, last ts = Some t → end_key t = totalKeys)
    ∧ (∀ k, 0 ≤ k < totalKeys → length (filter (covers k) ts) = 1%nat)
    ∧ (∀ k t, t ∈ ts → covers k t → 0 ≤ k < totalKeys).
Proof.
  intros HT Hn. unfold submitted_tasks.
  rewrite (proj2 (Z.eqb_neq _ _)) by lia. rewrite (proj2 (Z.ltb_ge _ _)) by lia.
  pose proof (submitted_tasks_chained totalKeys numWorkers ltac:(lia) ltac:(lia)) as Hc.
  eexists; split; [done|]. repeat split.
  - unfold range. rewrite !length_fmap, length_seq. done.
  - apply task_for_lookup in H as [-> _]. done.
  - apply task_for_lookup in H as [-> _]. done.
  - apply task_for_lookup in H as [-> _]. unfold task_for; simpl.
    destruct (Z.eqb_spec (Z.of_nat i) (numWorkers - 1)).
    + rewrite decide_True by done. lia.
    + rewrite decide_False by done. lia.
  - intros i t t'. exact (chained_adjacent _ _ _ i t t' Hc).
  - intros t. exact (chained_head _ _ _ t Hc).
  - intros t. exact (chained_last _ _ _ t Hc).
  - intros k Hk. rewrite (chained_count _ _ _ k Hc).
    by rewrite bool_decide_eq_true_2.
  - pose proof (chained_count _ _ _ k Hc) as Hcnt.
    case_bool_decide as Hk; [lia|].
    assert (t ∈ filter (covers k) (task_for totalKeys numWorkers <$> range numWorkers)) as Hin
      by (apply list_elem_of_filter; done).
    apply length_zero_iff_nil in Hcnt. rewrite Hcnt in Hin. by apply elem_of_nil in Hin.
  - pose proof (chained_count _ _ _ k Hc) as Hcnt.
    case_bool_decide as Hk; [lia|].
    assert (t ∈ filter (covers k) (task_for totalKeys numWorkers <$> range numWorkers)) as Hin
      by (apply list_elem_of_filter; done).
    apply length_zero_iff_nil in Hcnt. rewrite Hcnt in Hin. by apply elem_of_nil in Hin.
Qed.

Lemma partition_coverage_witness :
  ∃ ts, submitted_tasks 1000 4 = Ret ts
    ∧ (start_key <$> ts) = [0; 250; 500; 750]
    ∧ (end_key <$> ts) = [250; 500; 750; 1000]
    ∧ ∀ k, 0 ≤ k < 1000 → length (filter (covers k) ts) = 1%nat.
Proof.
  destruct (partition_coverage 1000 4 ltac:(lia) ltac:(lia))
    as (ts & Hts & _ & _ & _ & _ & _ & Hcov & _).
  exists ts. vm_compute in Hts. injection Hts as <-.
  split; [reflexivity|]. split; [reflexivity|]. split; [reflexivity|]. exact Hcov.
Defined.

End Partition.

(** ** Slices *)

Section Slices.
Import Spec.
Context {A : Type}.
Implicit Types l : list A.

Lemma slice_bound_nonneg len i : 0 ≤ i → slice_bound len i = Z.min i len.
Proof.
  intros Hi. unfold slice_bound.
  destruct (Z.ltb_spec i 0); [lia|]. cbv zeta.
  destruct (Z.ltb_spec i 0); [lia|]. destruct (Z.ltb_spec len i); lia.
Qed.

Lemma slice_nonneg l lo hi :
  0 ≤ lo → lo ≤ hi →
  Py.slice l lo hi = take (Z.to_nat (hi - lo)) (drop (Z.to_nat lo) l).
Proof.
  intros Hlo Hhi. unfold Py.slice. cbv zeta. rewrite !slice_bound_nonneg by lia.
  destruct (Z.le_gt_cases lo (Z.of_nat (length l))) as [Hl|Hl].
  - rewrite (Z.min_l lo) by lia.
    destruct (Z.le_gt_cases hi (Z.of_nat (length l))) as [Hh|Hh].
    + by rewrite (Z.min_l hi) by lia.
    + rewrite (Z.min_r hi) by lia. rewrite !take_ge; [done|rewrite length_drop; lia..].
  - rewrite !Z.min_r by lia.
    rewrite Z.sub_diag, !drop_ge by lia. by rewrite !take_nil.
Qed.

Lemma slice_app l a b c :
  0 ≤ a → a ≤ b → b ≤ c → Py.slice l a b ++ Py.slice l b c = Py.slice l a c.
Proof.
  intros Ha Hb Hc. rewrite !slice_nonneg by lia.
  replace (Z.to_nat b) with (Z.to_nat a + Z.to_nat (b - a))%nat by lia.
  rewrite <- drop_drop, take_take_drop. f_equal. lia.
Qed.

Lemma slice_all l c : Z.of_nat (length l) ≤ c → Py.slice l 0 c = l.
Proof. intros Hc. rewrite slice_nonneg by lia. simpl. apply take_ge. lia. Qed.

Lemma slice_empty l a : 0 ≤ a → Py.slice l a a = [].
Proof. intros Ha. rewrite slice_nonneg by lia. by rewrite Z.sub_diag. Qed.

Lemma length_slice l a b :
  0 ≤ a → a ≤ b → b ≤ Z.of_nat (length l) → Z.of_nat (length (Py.slice l a b)) = b - a.
Proof.
  intros Ha Hb Hlen. rewrite slice_nonneg by lia. rewrite length_take, length_drop. lia.
Qed.

End Slices.

(** ** Lookups *)

Section ReaderProperties.
Import SimpleReader Spec.
Context {W : Type} `{Env W}.

Lemma get_value_spec {O} key (o : O) (w : world W) :
  get_value key (o, w)
  = (Ret (looked_up key (server w)),
     (o, {| server := after_get key (server w); log := log w ++ [Get key] |})).
Proof.
  unfold get_value, try_except, bind, client_get, call, looked_up, after_get. simpl.
  destruct (redis_get key (server w)) as [[[v|]|e] s1]; simpl; try done.
  by destruct (json_loads v).
Qed.

Lemma try_version_spec key_id version start_time self (w : world W) :
  let key := NetworkUtils.create_redis_key_simple key_id version in
  let value := looked_up key (server w) in
  let s1 := after_get key (server w) in
  try_version key_id version start_time (self, w)
  = (Ret (if truthy value && encodable value
          then Some {| key_id := key_id; found_version := Some version;
                       value_size := rendered_size value;
                       read_time := PrimFloat.sub (time_now s1) start_time;
                       success := true |}
          else None),
     (self, {| server := s1; log := log w ++ [Get key] |})).
Proof.
  simpl. unfold try_version, try_except, bind. rewrite get_value_spec.
  destruct (truthy _); [|done]. simpl. by destruct (encodable _).
Qed.

(** What a sequential lookup does, in full. *)
Lemma read_key_with_fallback_spec key_id self (w : world W) :
  let start_time := time_now (server w) in
  let pk := NetworkUtils.create_redis_key_simple key_id (primary_version self) in
  let fk := NetworkUtils.create_redis_key_simple key_id (fallback_version self) in
  let pv := looked_up pk (server w) in
  let s1 := after_get pk (server w) in
  let fv := looked_up fk s1 in
  let s2 := after_get fk s1 in
  read_key_with_fallback key_id (self, w)
  = if truthy pv && encodable pv then
      (Ret {| key_id := key_id; found_version := Some (primary_version self);
              value_size := rendered_size pv;
              read_time := PrimFloat.sub (time_now s1) start_time; success := true |},
       (self, {| server := s1; log := log w ++ [Get pk] |}))
    else if truthy fv && encodable fv then
      (Ret {| key_id := key_id; found_version := Some (fallback_version self);
              value_size := rendered_size fv;
              read_time := PrimFloat.sub (time_now s2) start_time; success := true |},
       (self, {| server := s2; log := log w ++ [Get pk; Get fk] |}))
    else
      (Ret {| key_id := key_id; found_version := None; value_size := 0;
              read_time := PrimFloat.sub (time_now s2) start_time; success := false |},
       (self, {| server := s2; log := log w ++ [Get pk; Get fk] |})).
Proof.
  simpl. unfold read_key_with_fallback.
  unfold bind at 1, now. simpl. unfold bind at 1, get_self. simpl.
  unfold bind at 1. rewrite try_version_spec. simpl.
  destruct (truthy (looked_up _ (server w)) && encodable _); [done|].
  unfold bind at 1. rewrite try_version_spec. simpl. rewrite <- app_assoc. simpl.
  by destruct (truthy (looked_up _ _) && encodable _).
Qed.

Lemma read_key_with_fallback_returns key_id self (w : world W) :
  ∃ r w', read_key_with_fallback key_id (self, w) = (Ret r, (self, w'))
    ∧ SimpleReader.key_id r = key_id
    ∧ (success r = true →
       found_version r = Some (primary_version self)
       ∨ found_version r = Some (fallback_version self)).
Proof.
  rewrite read_key_with_fallback_spec.
  destruct (truthy _ && encodable _); [|destruct (truthy _ && encodable _)];
    eexists _, _; (split; [done|]); simpl; eauto.
  split; [done|]. done.
Qed.

(** A stored document that decodes to a false value (0, false, null, an
    empty string, list or object) is returned as such by [get_value], and
    so does not pass [if value:], while the pipelined path tests the stored
    string itself. *)
Lemma falsy_document_is_not_a_hit key (w : world W) v x s1 :
  redis_get key (server w) = (Ok (Some v), s1) →
  json_loads v = Parsed x → truthy x = false →
  truthy (looked_up key (server w)) = false
  ∧ truthy (PyStr v) = negb (String.eqb v "").
Proof. intros Hget Hdec Hx. unfold looked_up. rewrite Hget. simpl. by rewrite Hdec. Qed.

(** What the two lookups do.  A sequential lookup reports the primary
    version exactly when the primary lookup returned a value that passes
    [if value:] and that the encoding accepts: it then sends no request
    for the fallback key.  Otherwise (the key is absent, its value is
    empty or cannot be encoded, or the request failed) it sends the
    fallback request, and reports the fallback version when that lookup
    returned a non-empty value that can be encoded, and a miss when it did
    not.  The classification of a pipelined pair goes by [if value:] alone
    on the two pipeline results, and does not depend on the fallback
    result when the primary result is non-empty. *)
Lemma lookup_priority (self : t) (w : world W) (id : Z) :
  let pk := NetworkUtils.create_redis_key_simple id (primary_version self) in
  let fk := NetworkUtils.create_redis_key_simple id (fallback_version self) in
  let pv := looked_up pk (server w) in
  let fv := looked_up fk (after_get pk (server w)) in
  (∃ r w', read_key_with_fallback id (self, w) = (Ret r, (self, w'))
     ∧ key_id r = id
     ∧ (truthy pv && encodable pv = true →
          found_version r = Some (primary_version self) ∧ success r = true
          ∧ log w' = log w ++ [Get pk])
     ∧ (truthy pv && encodable pv = false →
          log w' = log w ++ [Get pk; Get fk]
          ∧ (truthy fv && encodable fv = true →
               found_version r = Some (fallback_version self) ∧ success r = true)
          ∧ (truthy fv && encodable fv = false → found_version r = None ∧ success r = false))
     ∧ (primary_version self ≠ fallback_version self →
          (found_version r = Some (primary_version self)
           ↔ truthy pv && encodable pv = true))
     ∧ (Get fk ∈ drop (length (log w) + 1) (log w') → truthy pv && encodable pv = false))
  ∧ (∀ e s1, redis_get pk (server w) = (Fail e, s1) → truthy pv = false)
  ∧ ((redis_get pk (server w)).1 = Ok None → truthy pv = false)
  ∧ (∀ read_time p f,
       let c := classify_pair self id read_time p f in
       key_id c = id
       ∧ (truthy p = true →
            found_version c = Some (primary_version self) ∧ success c = true
            ∧ ∀ f', classify_pair self id read_time p f' = c)
       ∧ (truthy p = false → truthy f = true →
            found_version c = Some (fallback_version self) ∧ success c = true)
       ∧ (truthy p = false → truthy f = false →
            found_version c = None ∧ success c = false)
       ∧ (primary_version self ≠ fallback_version self →
            (found_version c = Some (primary_version self) ↔ truthy p = true))).
Proof.
  simpl. split; [|split; [|split]].
  - rewrite read_key_with_fallback_spec.
    destruct (truthy (looked_up _ (server w)) && encodable _) eqn:Hp;
      [|destruct (truthy (looked_up _ (after_get _ _)) && encodable _) eqn:Hf];
      eexists _, _; (split; [done|]); simpl.
    + split; [done|]. split; [done|]. split; [done|]. split; [done|].
      intros Hin. rewrite drop_ge in Hin by (rewrite length_app; simpl; lia).
      by apply elem_of_nil in Hin.
    + split; [done|]. split; [done|]. split; [by repeat split|].
      split; [|done]. intros Hne. split; [congruence|done].
    + split; [done|]. split; [done|]. split; [by repeat split|].
      split; [|done]. intros Hne. split; done.
  - intros e s1 Hfail. unfold looked_up. by rewrite Hfail.
  - intros Hnone. unfold looked_up. by rewrite Hnone.
  - intros read_time p f. unfold classify_pair.
    destruct (truthy p) eqn:Hp; [|destruct (truthy f) eqn:Hf]; simpl.
    + split; [done|]. split; [by repeat split|]. by repeat split.
    + split; [done|]. split; [done|]. split; [by repeat split|]. split; [done|].
      intros Hne. split; [congruence|done].
    + split; [done|]. split; [done|]. split; [done|]. split; [by repeat split|].
      intros Hne. split; done.
Qed.

(** *** Pipelined batches *)

Lemma batch_gets_cons self id key_ids :
  batch_gets self (id :: key_ids)
  = CmdGet (NetworkUtils.create_redis_key_simple id (primary_version self))
    :: CmdGet (NetworkUtils.create_redis_key_simple id (fallback_version self))
    :: batch_gets self key_ids.
Proof. done. Qed.

Lemma batch_gets_lookup self key_ids (i : nat) id :
  key_ids !! i = Some id →
  batch_gets self key_ids !! (i * 2)%nat
  = Some (CmdGet (NetworkUtils.create_redis_key_simple id (primary_version self)))
  ∧ batch_gets self key_ids !! (i * 2 + 1)%nat
    = Some (CmdGet (NetworkUtils.create_redis_key_simple id (fallback_version self))).
Proof.
  revert i. induction key_ids as [|id' key_ids IH]; intros i Hi; [done|].
  rewrite batch_gets_cons. destruct i as [|i]; simpl in *.
  - by injection Hi as ->.
  - by apply IH.
Qed.

Lemma length_batch_gets self key_ids :
  length (batch_gets self key_ids) = (2 * length key_ids)%nat.
Proof.
  induction key_ids as [|id key_ids IH]; [done|].
  rewrite batch_gets_cons. simpl. rewrite IH. lia.
Qed.

Lemma classify_from_state start_time pipeline_results i key_ids :
  preserves (=) (@classify_from W _ start_time pipeline_results i key_ids).
Proof.
  revert i. induction key_ids as [|id key_ids IH]; intros i; simpl.
  - apply preserves_ret, _.
  - apply preserves_bind; [apply _|by intros [??]|]. intros self.
    apply preserves_bind; [apply _| |].
    { unfold index. destruct (_ !! _); [apply preserves_ret, _|apply preserves_raise, _]. }
    intros p. apply preserves_bind; [apply _| |].
    { unfold index. destruct (_ !! _); [apply preserves_ret, _|apply preserves_raise, _]. }
    intros f. apply preserves_bind; [apply _|by intros [??]|]. intros t_now.
    apply preserves_bind; [apply _|apply IH|]. intros rest. apply preserves_ret, _.
Qed.

(** With two results for every key id, the loop classifies the pair at
    positions [2i] and [2i + 1] for the id at position [i]. *)
Lemma classify_from_spec start_time pipeline_results (i : nat) key_ids self (w : world W) :
  (2 * (i + length key_ids) ≤ length pipeline_results)%nat →
  ∃ rs, classify_from start_time pipeline_results i key_ids (self, w) = (Ret rs, (self, w))
    ∧ key_id <$> rs = key_ids
    ∧ ∀ (j : nat) id, key_ids !! j = Some id →
        ∃ p f, pipeline_results !! ((i + j) * 2)%nat = Some p
          ∧ pipeline_results !! ((i + j) * 2 + 1)%nat = Some f
          ∧ rs !! j = Some (classify_pair self id
                              (PrimFloat.sub (time_now (server w)) start_time) p f).
Proof.
  revert i. induction key_ids as [|id key_ids IH]; intros i Hlen.
  - exists []. by repeat split.
  - simpl in Hlen.
    destruct (lookup_lt_is_Some_2 pipeline_results (i * 2)) as [p Hp]; [lia|].
    destruct (lookup_lt_is_Some_2 pipeline_results (i * 2 + 1)) as [f Hf]; [lia|].
    destruct (IH (S i) ltac:(lia)) as (rs & Hrs & Hids & Hpairs).
    eexists (_ :: rs). split; [|split].
    + simpl. unfold bind at 1, get_self. simpl.
      unfold bind at 1, index. rewrite Hp. simpl.
      unfold bind at 1, index. rewrite Hf. simpl.
      unfold bind at 1, now. simpl. unfold bind at 1. rewrite Hrs. done.
    + rewrite fmap_cons, Hids. f_equal. unfold classify_pair.
      by destruct (truthy p); [|destruct (truthy f)].
    + intros [|j] id' Hj; simpl in Hj.
      * injection Hj as <-. exists p, f. rewrite Nat.add_0_r. done.
      * destruct (Hpairs j id' Hj) as (p' & f' & Hp' & Hf' & Hr').
        exists p', f'. replace (i + S j)%nat with (S i + j)%nat by lia. done.
Qed.

Lemma for_each_lookups_returns key_ids self (w : world W) :
  ∃ rs w', for_each read_key_with_fallback key_ids (self, w) = (Ret rs, (self, w'))
    ∧ key_id <$> rs = key_ids.
Proof.
  revert w. induction key_ids as [|id key_ids IH]; intros w.
  - by exists [], w.
  - destruct (read_key_with_fallback_returns id self w) as (r & w1 & Hr & Hid & _).
    destruct (IH w1) as (rs & w2 & Hrs & Hids).
    exists (r :: rs), w2. split; [|by rewrite fmap_cons, Hid, Hids].
    simpl. unfold bind at 1. rewrite Hr. unfold bind at 1. by rewrite Hrs.
Qed.

(** The results of sequential lookups are what [_calculate_stats] is
    run on. *)
Lemma lookups_from_lookups key_ids self (w : world W) rs s' :
  for_each read_key_with_fallback key_ids (self, w) = (Ret rs, s') → from_lookups self rs.
Proof.
  revert w rs s'. induction key_ids as [|id key_ids IH]; intros w rs s' Hrun.
  - injection Hrun as <- _. by intros r ?%elem_of_nil.
  - simpl in Hrun.
    destruct (read_key_with_fallback_returns id self w) as (r & w1 & Hr & _ & Hfound).
    unfold bind at 1 in Hrun. rewrite Hr in Hrun.
    apply bind_inv in Hrun as [(rest & s1 & Hrest & Hrun)|[(e & _ & ?)|[_ ?]]]; try done.
    injection Hrun as <- _. apply IH in Hrest.
    intros r' [->|Hin]%elem_of_cons; [exact Hfound|by apply Hrest].
Qed.

Lemma read_batch_failed key_ids self (w : world W) e s1 :
  redis_execute (batch_gets self key_ids) (server w) = (Fail e, s1) →
  _read_batch_with_pipeline key_ids (self, w)
  = for_each read_key_with_fallback key_ids
      (self, {| server := s1; log := log w ++ [Pipeline (batch_gets self key_ids)] |}).
Proof.
  intros Hfail. unfold _read_batch_with_pipeline.
  unfold bind at 1, now. simpl. unfold bind at 1, get_self. simpl.
  unfold try_except, bind at 1, pipeline_execute, call. simpl. by rewrite Hfail.
Qed.

Lemma read_batch_ok key_ids self (w : world W) results s1 :
  redis_execute (batch_gets self key_ids) (server w) = (Ok results, s1) →
  (2 * length key_ids ≤ length results)%nat →
  ∃ rs, _read_batch_with_pipeline key_ids (self, w)
        = (Ret rs, (self, {| server := s1;
                             log := log w ++ [Pipeline (batch_gets self key_ids)] |}))
    ∧ key_id <$> rs = key_ids
    ∧ ∀ (i : nat) id, key_ids !! i = Some id →
        ∃ p f, results !! (i * 2)%nat = Some p
          ∧ results !! (i * 2 + 1)%nat = Some f
          ∧ rs !! i = Some (classify_pair self id
                              (PrimFloat.sub (time_now s1) (time_now (server w))) p f).
Proof.
  intros Hok Hlen.
  destruct (classify_from_spec (time_now (server w)) results 0 key_ids self
              {| server := s1; log := log w ++ [Pipeline (batch_gets self key_ids)] |}
              ltac:(simpl; lia)) as (rs & Hrs & Hids & Hpairs).
  exists rs. split; [|split; [done|exact Hpairs]].
  unfold _read_batch_with_pipeline.
  unfold bind at 1, now. simpl. unfold bind at 1, get_self. simpl.
  unfold try_except, bind at 1, pipeline_execute, call. simpl. rewrite Hok. by rewrite Hrs.
Qed.

Lemma classify_from_ids start_time pipeline_results i key_ids (s : t * world W) rs s' :
  classify_from start_time pipeline_results i key_ids s = (Ret rs, s') →
  key_id <$> rs = key_ids.
Proof.
  revert i rs s s'. induction key_ids as [|id key_ids IH]; intros i rs s s' Hc; simpl in Hc.
  - by injection Hc as <-.
  - apply bind_inv in Hc as [(self & s1 & _ & Hc)|[(e & _ & ?)|[_ ?]]]; try done.
    apply bind_inv in Hc as [(p & s2 & _ & Hc)|[(e & _ & ?)|[_ ?]]]; try done.
    apply bind_inv in Hc as [(f & s3 & _ & Hc)|[(e & _ & ?)|[_ ?]]]; try done.
    apply bind_inv in Hc as [(t_now & s4 & _ & Hc)|[(e & _ & ?)|[_ ?]]]; try done.
    apply bind_inv in Hc as [(rest & s5 & Hrest & Hc)|[(e & _ & ?)|[_ ?]]]; try done.
    injection Hc as <- _. apply IH in Hrest. rewrite fmap_cons, Hrest. f_equal.
    unfold classify_pair. by destruct (truthy p); [|destruct (truthy f)].
Qed.

Lemma classify_from_terminates start_time pipeline_results i key_ids :
  terminates (@classify_from W _ start_time pipeline_results i key_ids).
Proof.
  revert i. induction key_ids as [|id key_ids IH]; intros i; simpl.
  - apply terminates_ret.
  - apply terminates_bind; [by intros [??]|]. intros self.
    apply terminates_bind.
    { unfold index. destruct (_ !! _); [apply terminates_ret|apply terminates_raise]. }
    intros p. apply terminates_bind.
    { unfold index. destruct (_ !! _); [apply terminates_ret|apply terminates_raise]. }
    intros f. apply terminates_bind; [by intros [??]|]. intros t_now.
    apply terminates_bind; [apply IH|]. intros rest. apply terminates_ret.
Qed.

(** A batch returns one result for each of its key ids, in order,
    whatever the server does. *)
Lemma read_batch_returns key_ids self (w : world W) :
  ∃ rs w', _read_batch_with_pipeline key_ids (self, w) = (Ret rs, (self, w'))
    ∧ key_id <$> rs = key_ids.
Proof.
  destruct (redis_execute (batch_gets self key_ids) (server w)) as [[results|e] s1] eqn:Hans.
  - unfold _read_batch_with_pipeline.
    unfold bind at 1, now. simpl. unfold bind at 1, get_self. simpl.
    unfold try_except, bind at 1, pipeline_execute, call. simpl. rewrite Hans.
    set (w1 := {| server := s1; log := _ |}).
    pose proof (classify_from_state (time_now (server w)) results 0 key_ids (self, w1)) as Hst.
    pose proof (classify_from_terminates (time_now (server w)) results 0 key_ids (self, w1)) as Ht.
    destruct (classify_from _ _ _ _ _) as [[rs|e|] s2] eqn:Hc; simpl in Hst, Ht; subst s2.
    + exists rs, w1. split; [done|]. by eapply classify_from_ids.
    + apply for_each_lookups_returns.
    + done.
  - rewrite (read_batch_failed _ _ _ _ _ Hans). apply for_each_lookups_returns.
Qed.

Lemma concat_batches_from (key_ids : list Z) batch_size (j m : nat) :
  1 ≤ batch_size →
  concat ((λ k : nat, Py.slice key_ids (Z.of_nat k * batch_size) ((Z.of_nat k + 1) * batch_size))
            <$> seq j m)
  = Py.slice key_ids (Z.of_nat j * batch_size) (Z.of_nat (j + m) * batch_size).
Proof.
  intros Hbs. revert j. induction m as [|m IH]; intros j.
  - simpl. replace (j + 0)%nat with j by lia. rewrite slice_empty; [done|nia].
  - simpl. rewrite IH. replace (Z.of_nat j + 1) with (Z.of_nat (S j)) by lia.
    replace (j + S m)%nat with (S j + m)%nat by lia. apply slice_app; nia.
Qed.

Lemma batches_count len batch_size :
  0 ≤ len → 1 ≤ batch_size →
  let m := (len + batch_size - 1) / batch_size in
  0 ≤ m ∧ len ≤ m * batch_size ∧ (m - 1) * batch_size < len.
Proof.
  intros Hlen Hbs. simpl.
  pose proof (Z.div_mod (len + batch_size - 1) batch_size ltac:(lia)) as Hdm.
  pose proof (Z.mod_pos_bound (len + batch_size - 1) batch_size ltac:(lia)) as Hmod.
  assert (0 ≤ (len + batch_size - 1) / batch_size) by (apply Z.div_pos; lia).
  set (q := (len + batch_size - 1) / batch_size) in *.
  set (r := (len + batch_size - 1) mod batch_size) in *. clearbody q r. nia.
Qed.

Lemma concat_batches_of key_ids batch_size :
  1 ≤ batch_size → concat (batches_of key_ids batch_size) = key_ids.
Proof.
  intros Hbs. unfold batches_of. rewrite concat_batches_from by done.
  destruct (batches_count (Z.of_nat (length key_ids)) batch_size ltac:(lia) Hbs) as (Hm & Hge & _).
  simpl. apply slice_all. rewrite Z2Nat.id by done. lia.
Qed.

Lemma batches_of_sizes key_ids batch_size :
  1 ≤ batch_size →
  Forall (λ batch, 1 ≤ Z.of_nat (length batch) ≤ batch_size) (batches_of key_ids batch_size).
Proof.
  intros Hbs. unfold batches_of. apply Forall_fmap, Forall_forall. intros k Hk.
  apply elem_of_seq in Hk as [_ Hk]. simpl in Hk.
  destruct (batches_count (Z.of_nat (length key_ids)) batch_size ltac:(lia) Hbs) as (Hm & _ & Hlt).
  simpl. rewrite slice_nonneg by nia. rewrite length_take, length_drop. nia.
Qed.

Lemma read_keys_pipeline_batch_batches key_ids batch_size :
  1 ≤ batch_size →
  @read_keys_pipeline_batch W _ key_ids batch_size
  = (batches <- for_each _read_batch_with_pipeline (batches_of key_ids batch_size) ;;
     ret (concat batches)).
Proof.
  intros Hbs. unfold read_keys_pipeline_batch, Py.range3, batches_of.
  rewrite (proj2 (Z.eqb_neq _ _)) by lia. rewrite (proj2 (Z.ltb_lt 0 batch_size)) by lia.
  rewrite !for_each_fmap.
  replace (Z.of_nat (length key_ids) - 0 + batch_size - 1)
    with (Z.of_nat (length key_ids) + batch_size - 1) by lia.
  f_equal. apply for_each_ext. intros k. unfold batch_at. do 2 f_equal; lia.
Qed.

Lemma for_each_batches_returns batches self (w : world W) :
  ∃ rss w', for_each _read_batch_with_pipeline batches (self, w) = (Ret rss, (self, w'))
    ∧ key_id <$> concat rss = concat batches.
Proof.
  revert w. induction batches as [|batch batches IH]; intros w.
  - by exists [], w.
  - destruct (read_batch_returns batch self w) as (rs & w1 & Hrs & Hids).
    destruct (IH w1) as (rss & w2 & Hrss & Hall).
    exists (rs :: rss), w2. split; [|by simpl; rewrite fmap_app, Hids, Hall].
    simpl. unfold bind at 1. rewrite Hrs. unfold bind at 1. by rewrite Hrss.
Qed.

(** C8. A batch of the pipelined strategy sends one pipeline holding, for
    the key id at position [i], the GET of its primary key at position
    [2i] and the GET of its fallback key at position [2i + 1]; when the
    pipeline returns (at least) that many results, the result for the id at
    position [i] is the classification of the results at positions [2i] and
    [2i + 1], and nothing else is sent; when the pipelined call raises, the
    batch is resolved by the sequential lookup of each of its ids, in
    order, and of no other id; the whole run is the run of the consecutive
    batches of at most [batch_size] ids, one after the other, each on its
    own ids; and for a batch size of at least 1 it returns exactly one
    result for each requested id, in order, whatever the server does. *)
Theorem pipelined_batches (self : t) (w : world W) (key_ids : list Z) :
  (∀ (i : nat) id, key_ids !! i = Some id →
     batch_gets self key_ids !! (i * 2)%nat
     = Some (CmdGet (NetworkUtils.create_redis_key_simple id (primary_version self)))
     ∧ batch_gets self key_ids !! (i * 2 + 1)%nat
       = Some (CmdGet (NetworkUtils.create_redis_key_simple id (fallback_version self))))
  ∧ length (batch_gets self key_ids) = (2 * length key_ids)%nat
  ∧ (∀ results s1,
       redis_execute (batch_gets self key_ids) (server w) = (Ok results, s1) →
       (2 * length key_ids ≤ length results)%nat →
       ∃ rs, _read_batch_with_pipeline key_ids (self, w)
             = (Ret rs, (self, {| server := s1;
                                  log := log w ++ [Pipeline (batch_gets self key_ids)] |}))
         ∧ key_id <$> rs = key_ids
         ∧ ∀ (i : nat) id, key_ids !! i = Some id →
             ∃ p f, results !! (i * 2)%nat = Some p
               ∧ results !! (i * 2 + 1)%nat = Some f
               ∧ rs !! i = Some (classify_pair self id
                                   (PrimFloat.sub (time_now s1) (time_now (server w))) p f))
  ∧ (∀ e s1,
       redis_execute (batch_gets self key_ids) (server w) = (Fail e, s1) →
       _read_batch_with_pipeline key_ids (self, w)
       = for_each read_key_with_fallback key_ids
           (self, {| server := s1; log := log w ++ [Pipeline (batch_gets self key_ids)] |}))
  ∧ (∀ batch_size, 1 ≤ batch_size →
       concat (batches_of key_ids batch_size) = key_ids
       ∧ Forall (λ batch, 1 ≤ Z.of_nat (length batch) ≤ batch_size) (batches_of key_ids batch_size)
       ∧ @read_keys_pipeline_batch W _ key_ids batch_size
         = (batches <- for_each _read_batch_with_pipeline (batches_of key_ids batch_size) ;;
            ret (concat batches))
       ∧ ∃ rs w', read_keys_pipeline_batch key_ids batch_size (self, w) = (Ret rs, (self, w'))
           ∧ key_id <$> rs = key_ids).
Proof.
  split; [|split; [|split; [|split]]].
  - intros i id. apply batch_gets_lookup.
  - apply length_batch_gets.
  - intros results s1. apply read_batch_ok.
  - intros e s1. apply read_batch_failed.
  - intros batch_size Hbs.
    split; [by apply concat_batches_of|]. split; [by apply batches_of_sizes|].
    split; [by apply read_keys_pipeline_batch_batches|].
    rewrite read_keys_pipeline_batch_batches by done.
    destruct (for_each_batches_returns (batches_of key_ids batch_size) self w)
      as (rss & w' & Hrss & Hids).
    exists (concat rss), w'. unfold bind. rewrite Hrss. split; [done|].
    by rewrite Hids, concat_batches_of.
Qed.

End ReaderProperties.

(** *** The reader on the in-memory server *)

Lemma lookup_priority_witness :
  let env := InMemory.env InMemory.no_json InMemory.str_size in
  let w := InMemory.start true [("ip:v23:1", "a"); ("ip:v22:1", "b"); ("ip:v22:2", "b")] in
  (∃ r w', SimpleReader.read_key_with_fallback (H := env) 1 (InMemory.reader, w)
           = (Ret r, (InMemory.reader, w'))
     ∧ SimpleReader.found_version r = Some "v23" ∧ SimpleReader.success r = true)
  ∧ (∃ r w', SimpleReader.read_key_with_fallback (H := env) 2 (InMemory.reader, w)
             = (Ret r, (InMemory.reader, w'))
       ∧ SimpleReader.found_version r = Some "v22" ∧ SimpleReader.success r = true)
  ∧ (∃ r w', SimpleReader.read_key_with_fallback (H := env) 3 (InMemory.reader, w)
             = (Ret r, (InMemory.reader, w'))
       ∧ SimpleReader.found_version r = None ∧ SimpleReader.success r = false).
Proof.
  intros env w. split; [|split].
  - destruct (lookup_priority (H := env) InMemory.reader w 1)
      as ((r & w' & Hrun & _ & Hprimary & _) & _).
    exists r, w'. split; [done|]. destruct (Hprimary eq_refl) as (Hv & Hs & _). done.
  - destruct (lookup_priority (H := env) InMemory.reader w 2)
      as ((r & w' & Hrun & _ & _ & Hfallback & _) & _).
    exists r, w'. split; [done|]. destruct (Hfallback eq_refl) as (_ & Hhit & _).
    exact (Hhit eq_refl).
  - destruct (lookup_priority (H := env) InMemory.reader w 3)
      as ((r & w' & Hrun & _ & _ & Hfallback & _) & _).
    exists r, w'. split; [done|]. destruct (Hfallback eq_refl) as (_ & _ & Hmiss).
    exact (Hmiss eq_refl).
Defined.

(** C2. The sequential lookup does not always report the primary version
    when the primary lookup returned a non-empty value.  With the document
    ["\ud800"] stored under the primary key of id 7 and a value under its
    fallback key, [get_value] returns for the primary key a non-empty
    string (one lone surrogate); computing its size raises inside the
    [try], the handler passes, and [read_key_with_fallback] sends the
    fallback request and reports the fallback version.  On the same store
    [_read_batch_with_pipeline] reports the primary version.  The two
    paths also part on an empty JSON object stored under the primary key:
    the sequential lookup tests the decoded document and reports the
    fallback version, the pipelined one tests the stored text and reports
    the primary version. *)
Theorem sequential_lookup_misses_primary_hit :
  let env := InMemory.env_with InMemory.decode_documents InMemory.accepts_utf8
               InMemory.str_size in
  let pk := "ip:v23:7" in
  let fk := "ip:v22:7" in
  let w := InMemory.start true [(pk, InMemory.surrogate_document); (fk, "b")] in
  let w0 := InMemory.start true [(pk, "{}"); (fk, "b")] in
  (get_value (H := env) pk (InMemory.reader, w)).1 = Ret (PyStr InMemory.lone_surrogate)
  ∧ truthy (PyStr InMemory.lone_surrogate) = true
  ∧ (∃ r w', SimpleReader.read_key_with_fallback (H := env) 7 (InMemory.reader, w)
             = (Ret r, (InMemory.reader, w'))
       ∧ SimpleReader.found_version r = Some "v22" ∧ SimpleReader.success r = true
       ∧ log w' = [Get pk; Get fk])
  ∧ (∃ r w', SimpleReader._read_batch_with_pipeline (H := env) [7] (InMemory.reader, w)
             = (Ret [r], (InMemory.reader, w'))
       ∧ SimpleReader.found_version r = Some "v23" ∧ SimpleReader.success r = true)
  ∧ (∃ r w', SimpleReader.read_key_with_fallback (H := env) 7 (InMemory.reader, w0)
             = (Ret r, (InMemory.reader, w'))
       ∧ SimpleReader.found_version r = Some "v22" ∧ SimpleReader.success r = true)
  ∧ (∃ r w', SimpleReader._read_batch_with_pipeline (H := env) [7] (InMemory.reader, w0)
             = (Ret [r], (InMemory.reader, w'))
       ∧ SimpleReader.found_version r = Some "v23" ∧ SimpleReader.success r = true).
Proof.
  intros env pk fk w w0.
  split; [by vm_compute|]. split; [by vm_compute|].
  split; [|split; [|split]].
  - destruct (SimpleReader.read_key_with_fallback 7 (InMemory.reader, w)) as [r [self' w']] eqn:Hrun.
    vm_compute in Hrun. injection Hrun as <- <- <-. by eexists _, _.
  - destruct (SimpleReader._read_batch_with_pipeline [7] (InMemory.reader, w))
      as [r [self' w']] eqn:Hrun.
    vm_compute in Hrun. injection Hrun as <- <- <-. by eexists _, _.
  - destruct (SimpleReader.read_key_with_fallback 7 (InMemory.reader, w0)) as [r [self' w']] eqn:Hrun.
    vm_compute in Hrun. injection Hrun as <- <- <-. by eexists _, _.
  - destruct (SimpleReader._read_batch_with_pipeline [7] (InMemory.reader, w0))
      as [r [self' w']] eqn:Hrun.
    vm_compute in Hrun. injection Hrun as <- <- <-. by eexists _, _.
Qed.

Lemma pipelined_batches_witness :
  let env := InMemory.env InMemory.no_json InMemory.str_size in
  let entries := [("ip:v23:1", "a"); ("ip:v22:1", "b"); ("ip:v22:2", "b")] in
  (∃ rs w', SimpleReader.read_keys_pipeline_batch (H := env) [1; 2; 3] 2
              (InMemory.reader, InMemory.start true entries) = (Ret rs, (InMemory.reader, w'))
     ∧ SimpleReader.key_id <$> rs = [1; 2; 3])
  ∧ SimpleReader._read_batch_with_pipeline (H := env) [1; 2]
      (InMemory.reader, InMemory.start false entries)
    = Py.for_each (SimpleReader.read_key_with_fallback (H := env)) [1; 2]
        (InMemory.reader,
         {| server := InMemory.tick (server (InMemory.start false entries));
            log := [Pipeline (SimpleReader.batch_gets InMemory.reader [1; 2])] |}).
Proof.
  intros env entries. split.
  - destruct (pipelined_batches (H := env) InMemory.reader (InMemory.start true entries) [1; 2; 3])
      as (_ & _ & _ & _ & Hrun).
    destruct (Hrun 2 ltac:(lia)) as (_ & _ & _ & Hret). exact Hret.
  - destruct (pipelined_batches (H := env) InMemory.reader (InMemory.start false entries) [1; 2])
      as (_ & _ & _ & Hfail & _).
    exact (Hfail RedisError (InMemory.tick (server (InMemory.start false entries))) eq_refl).
Defined.

(** ** Read statistics *)

Section Statistics.
Import SimpleReader Spec.

Lemma count_result_fold self stats rs :
  let stats' := foldl (count_result self) stats rs in
  total_reads stats' = total_reads stats
  ∧ successful_reads stats' + cache_misses stats'
    = successful_reads stats + cache_misses stats + Z.of_nat (length rs)
  ∧ primary_hits stats' + fallback_hits stats' - successful_reads stats'
    = primary_hits stats + fallback_hits stats - successful_reads stats.
Proof.
  revert stats. induction rs as [|r rs IH]; intros stats; simpl; [lia|].
  destruct (IH (count_result self stats r)) as (Ht & Hs & Hh).
  rewrite Ht, Hs, Hh. unfold count_result.
  destruct (success r); [destruct (version_is _ _)|]; simpl; lia.
Qed.

(** The statistics of the two pipelined benchmarks add up, whatever the
    merged results and whatever the versions. *)
Lemma pipeline_stats_conservation self total_time all_results :
  let stats := pipeline_stats self total_time all_results in
  successful_reads stats + cache_misses stats = total_reads stats
  ∧ primary_hits stats + fallback_hits stats = successful_reads stats.
Proof.
  unfold pipeline_stats.
  destruct (count_result_fold self
    {| total_reads := Z.of_nat (length all_results); successful_reads := 0; cache_misses := 0;
       primary_hits := 0; fallback_hits := 0; total_time := total_time; total_data_bytes := 0 |}
    all_results) as (Ht & Hs & Hh).
  simpl in *. lia.
Qed.

Lemma calculate_stats_total self total_time :
  let stats := _calculate_stats self total_time in
  successful_reads stats + cache_misses stats = total_reads stats.
Proof. unfold _calculate_stats. destruct (results self); simpl; lia. Qed.

Lemma hits_partition (self : t) (rs : list ReadResult) :
  primary_version self ≠ fallback_version self →
  (∀ r, r ∈ rs →
     found_version r = Some (primary_version self) ∨ found_version r = Some (fallback_version self)) →
  (length (filter (λ r, version_is (found_version r) (primary_version self) = true) rs)
   + length (filter (λ r, version_is (found_version r) (fallback_version self) = true) rs)
   = length rs)%nat.
Proof.
  intros Hne. induction rs as [|r rs IH]; intros Hrs; [done|].
  rewrite !filter_cons.
  specialize (IH (λ r' Hr', Hrs r' (list_elem_of_further _ _ _ Hr'))).
  destruct (Hrs r (list_elem_of_here _ _)) as [Hr|Hr].
  - assert (version_is (found_version r) (primary_version self) = true) as H1
      by (unfold version_is; rewrite Hr; by apply bool_decide_eq_true_2).
    assert (version_is (found_version r) (fallback_version self) ≠ true) as H2
      by (unfold version_is; rewrite Hr, bool_decide_eq_false_2; congruence).
    rewrite decide_True by done. rewrite decide_False by done. simpl. lia.
  - assert (version_is (found_version r) (fallback_version self) = true) as H1
      by (unfold version_is; rewrite Hr; by apply bool_decide_eq_true_2).
    assert (version_is (found_version r) (primary_version self) ≠ true) as H2
      by (unfold version_is; rewrite Hr, bool_decide_eq_false_2; congruence).
    rewrite decide_False by done. rewrite decide_True by done. simpl. lia.
Qed.

(** The statistics of the sequential benchmark add up when the two
    versions differ. *)
Lemma calculate_stats_conservation self total_time :
  primary_version self ≠ fallback_version self →
  from_lookups self (results self) →
  let stats := _calculate_stats self total_time in
  successful_reads stats + cache_misses stats = total_reads stats
  ∧ primary_hits stats + fallback_hits stats = successful_reads stats.
Proof.
  intros Hne Hfrom. split; [apply calculate_stats_total|].
  unfold _calculate_stats. destruct (results self) as [|r0 rs] eqn:Hrs; [done|].
  rewrite <- Hrs in *. cbn [primary_hits fallback_hits successful_reads].
  rewrite <- Nat2Z.inj_add. f_equal.
  apply hits_partition; [done|].
  intros r [Hr Hin]%list_elem_of_filter. by apply Hfrom.
Qed.

(** C3, at a reader whose primary and fallback versions are the same
    string. Its lookup of key 7, held by the server, is one successful
    result; [_calculate_stats] on that result counts it both as a primary
    hit and as a fallback hit, so the hits add up to 2 for 1 successful
    read, where the loop of the pipelined benchmarks counts 1. *)
Theorem calculate_stats_counts_twice :
  ∃ r s', read_key_with_fallback (H := InMemory.env InMemory.no_json InMemory.str_size) 7
            (same_version_reader [], InMemory.start true [("ip:v22:7", "x")]) = (Ret r, s')
    ∧ success r = true
    ∧ let sequential := _calculate_stats (same_version_reader [r]) 1 in
      let pipelined := pipeline_stats (same_version_reader []) 1 [r] in
      successful_reads sequential = 1
      ∧ primary_hits sequential = 1
      ∧ fallback_hits sequential = 1
      ∧ primary_hits sequential + fallback_hits sequential ≠ successful_reads sequential
      ∧ primary_hits pipelined + fallback_hits pipelined = successful_reads pipelined.
Proof.
  eexists _, _. split; [vm_compute; reflexivity|].
  split; [reflexivity|]. by vm_compute.
Qed.

End Statistics.

(** ** Slices of the reader threads *)

Section ThreadSlices.
Import SimpleReader Spec.

Lemma slice_start_succ p r i :
  slice_start p r (i + 1) = slice_start p r i + (p + (if i <? r then 1 else 0)).
Proof. unfold slice_start. destruct (Z.ltb_spec i r); lia. Qed.

Lemma slice_start_mono p r i k : 0 ≤ p → i ≤ k → slice_start p r i ≤ slice_start p r k.
Proof. unfold slice_start. intros Hp Hik. assert (i * p ≤ k * p) by nia. lia. Qed.

Lemma slices_from_seq all_key_ids p r (j m : nat) :
  slices_from all_key_ids p r (slice_start p r (Z.of_nat j)) (Z.of_nat <$> seq j m)
  = (λ i, (i + 1, Py.slice all_key_ids (slice_start p r i) (slice_start p r (i + 1))))
      <$> (Z.of_nat <$> seq j m).
Proof.
  revert j. induction m as [|m IH]; intros j; [done|]. simpl.
  rewrite <- slice_start_succ. f_equal.
  replace (Z.of_nat j + 1) with (Z.of_nat (S j)) by lia. apply IH.
Qed.

Lemma concat_slices (all_key_ids : list Z) p r (j m : nat) :
  0 ≤ p → 0 ≤ r →
  concat (((λ i, (i + 1, Py.slice all_key_ids (slice_start p r i) (slice_start p r (i + 1))))
             <$> (Z.of_nat <$> seq j m)).*2)
  = Py.slice all_key_ids (slice_start p r (Z.of_nat j)) (slice_start p r (Z.of_nat (j + m))).
Proof.
  intros Hp Hr. revert j. induction m as [|m IH]; intros j.
  - simpl. replace (j + 0)%nat with j by lia. rewrite slice_empty; [done|].
    unfold slice_start. nia.
  - simpl. rewrite IH.
    replace (Z.of_nat j + 1) with (Z.of_nat (S j)) by lia.
    replace (j + S m)%nat with (S j + m)%nat by lia.
    apply slice_app.
    + unfold slice_start. nia.
    + apply slice_start_mono; lia.
    + apply slice_start_mono; lia.
Qed.

(** C5, as the code has it. For [total_reads >= 0] ids and
    [num_threads >= 1], the threads get contiguous slices of the id
    sequence, in order, that together are the whole sequence; every slice
    has [total_reads div num_threads] ids and each of the first
    [total_reads mod num_threads] slices has one more. *)
Theorem thread_slices_cover (all_key_ids : list Z) (total_reads num_threads : Z) :
  0 ≤ total_reads → 1 ≤ num_threads → Z.of_nat (length all_key_ids) = total_reads →
  ∃ slices, thread_slices all_key_ids total_reads num_threads = Ret slices
    ∧ length slices = Z.to_nat num_threads
    ∧ concat slices.*2 = all_key_ids
    ∧ ∀ (i : nat) thread_id key_ids, slices !! i = Some (thread_id, key_ids) →
        let p := total_reads / num_threads in
        let r := total_reads mod num_threads in
        thread_id = Z.of_nat i + 1
        ∧ key_ids = take (Z.to_nat (p + (if Z.of_nat i <? r then 1 else 0)))
                         (drop (Z.to_nat (slice_start p r (Z.of_nat i))) all_key_ids)
        ∧ Z.of_nat (length key_ids) = p + (if Z.of_nat i <? r then 1 else 0).
Proof.
  intros Htotal Hn Hlen. unfold thread_slices.
  rewrite (proj2 (Z.eqb_neq _ _)) by lia.
  assert (Hp : 0 ≤ total_reads / num_threads) by (apply Z.div_pos; lia).
  assert (Hr : 0 ≤ total_reads mod num_threads < num_threads) by (apply Z.mod_pos_bound; lia).
  pose proof (Z.div_mod total_reads num_threads ltac:(lia)) as Hdm.
  set (p := total_reads / num_threads) in *. set (r := total_reads mod num_threads) in *.
  clearbody p r.
  assert (Hstart : slice_start p r (Z.of_nat 0) = 0) by (unfold slice_start; lia).
  pose proof (slices_from_seq all_key_ids p r 0 (Z.to_nat num_threads)) as Hsl.
  rewrite Hstart in Hsl. unfold Py.range. rewrite Hsl.
  assert (Hend : slice_start p r num_threads = total_reads) by (unfold slice_start; nia).
  eexists. split; [done|]. split; [by rewrite !length_fmap, length_seq|]. split.
  - rewrite concat_slices by lia.
    rewrite Hstart, Nat.add_0_l, Z2Nat.id, Hend by lia. apply slice_all. lia.
  - intros i thread_id key_ids Hi. rewrite !list_lookup_fmap in Hi.
    destruct (seq 0 (Z.to_nat num_threads) !! i) as [j|] eqn:Hj; simpl in Hi; [|done].
    apply lookup_seq in Hj as [-> Hlt]. simpl in Hi. injection Hi as <- <-.
    assert (0 ≤ slice_start p r (Z.of_nat i)) by (unfold slice_start; nia).
    pose proof (slice_start_succ p r (Z.of_nat i)) as Hsucc.
    pose proof (slice_start_mono p r (Z.of_nat i + 1) num_threads ltac:(lia) ltac:(lia)) as Hle.
    split; [done|]. split.
    + rewrite slice_nonneg by (destruct (Z.of_nat i <? r); lia).
      do 2 f_equal. lia.
    + rewrite length_slice by (destruct (Z.of_nat i <? r); lia). lia.
Qed.

Lemma thread_slices_cover_witness :
  ∃ slices, thread_slices [10; 11; 12; 13; 14] 5 2 = Ret slices
    ∧ concat slices.*2 = [10; 11; 12; 13; 14].
Proof.
  destruct (thread_slices_cover [10; 11; 12; 13; 14] 5 2 ltac:(lia) ltac:(lia) eq_refl)
    as (slices & Hsl & _ & Hcat & _).
  by exists slices.
Defined.

(** C5, as the claim has it: with 5 ids and 2 threads the first slice has
    3 ids, not [5 div 2 = 2], and the last slice has 2 ids, not
    [5 div 2 + 5 mod 2 = 3]: the remainder goes to the first slices, not to
    the last one. *)
Lemma thread_slices_remainder_not_last :
  thread_slices [10; 11; 12; 13; 14] 5 2 = Ret [(1, [10; 11; 12]); (2, [13; 14])]
  ∧ Z.of_nat (length [10; 11; 12]) ≠ 5 / 2
  ∧ Z.of_nat (length [13; 14]) ≠ 5 / 2 + 5 mod 2.
Proof. split; [reflexivity|]. split; by vm_compute. Qed.

End ThreadSlices.

(** ** Projection of the import time *)

Section Projection.
Import ParallelWriter.

Lemma float_neq (a b : float) : PrimFloat.eqb a b = false → PrimFloat.eqb b b = true → a ≠ b.
Proof. intros Hab Hbb ->. congruence. Qed.

(** C6, as the code has it. The projection is produced only for
    [target_keys < 66,000,000]; it then is
    [(66,000,000 * 2 * 0.95) / combined_rate / 3600], that is 125,400,000
    keys over the combined rate, in hours; it raises for a zero rate. *)
Theorem projection_formula (target_keys : Z) (combined_rate : float) :
  (target_keys < 66000000 → PrimFloat.eqb combined_rate 0 = false →
     estimated_66m_time target_keys combined_rate
     = Some (Ret (125400000 / combined_rate / 3600)%float))
  ∧ (target_keys < 66000000 → PrimFloat.eqb combined_rate 0 = true →
     estimated_66m_time target_keys combined_rate = Some (Exc ZeroDivisionError))
  ∧ (66000000 ≤ target_keys → estimated_66m_time target_keys combined_rate = None).
Proof.
  unfold estimated_66m_time. repeat split.
  - intros Ht Hr. rewrite (proj2 (Z.ltb_lt _ _)) by done. rewrite Hr. reflexivity.
  - intros Ht Hr. rewrite (proj2 (Z.ltb_lt _ _)) by done. by rewrite Hr.
  - intros Ht. by rewrite (proj2 (Z.ltb_ge _ _)).
Qed.

Lemma projection_formula_witness :
  estimated_66m_time 1000000 1000 = Some (Ret (125400000 / 1000 / 3600)%float)
  ∧ estimated_66m_time 1000000 0 = Some (Exc ZeroDivisionError)
  ∧ estimated_66m_time 66000000 1000 = None.
Proof.
  destruct (projection_formula 1000000 1000) as (H1 & _ & _).
  destruct (projection_formula 1000000 0) as (_ & H2 & _).
  destruct (projection_formula 66000000 1000) as (_ & _ & H3).
  split; [apply H1; [lia|reflexivity]|].
  split; [apply H2; [lia|reflexivity]|].
  apply H3; lia.
Defined.

(** C6, as the claim has it: at a combined rate of 1000 keys per second
    the projection is produced and is neither 66,000,000 keys over the
    rate, nor twice that, nor 125,400,000 keys over the rate. *)
Lemma projection_not_plain_quotient :
  ∃ e, estimated_66m_time 1000000 1000 = Some (Ret e)
    ∧ e ≠ (66000000 / 1000)%float
    ∧ e ≠ (66000000 * 2 / 1000)%float
    ∧ e ≠ (66000000 * 2 * 0.95 / 1000)%float.
Proof.
  eexists. split; [reflexivity|].
  repeat split; apply float_neq; reflexivity.
Qed.

End Projection.

(** * Further properties *)

(** ** What a call of the writer consumes, sends and counts *)

Section WriterBehaviour.
Import FastWriter Spec Behaviour.
Context {W : Type} `{Env W}.

#[local] Existing Instance same_self_preorder.
#[local] Existing Instance keeps_preorder.
#[local] Existing Instance cursor_ok_preorder.

Lemma prepare_batch_exact n batch_data self (w : world W) :
  complete_samples self →
  ∃ batch_data' self',
    prepare_batch n batch_data (self, w) = (Ret batch_data', (self', w))
    ∧ complete_samples self'
    ∧ max_daily_keys self' = max_daily_keys self
    ∧ current_key_id self'
      = current_key_id self
        + Z.max 0 (Z.min (Z.of_nat n) (max_daily_keys self - current_key_id self)).
Proof.
  revert batch_data self. induction n as [|n IH]; intros batch_data self Hc.
  - exists batch_data, self. repeat split; try done. lia.
  - simpl. unfold bind at 1. simpl.
    destruct (Z.leb_spec (max_daily_keys self) (current_key_id self)) as [Hle|Hlt].
    + exists batch_data, self. repeat split; try done. lia.
    + unfold bind at 1. simpl.
      set (self1 := set_current_key_id _ self).
      assert (complete_samples self1) as Hc1 by exact Hc.
      destruct (get_key_data_returns (current_key_id self) self1 w Hc1) as [[k v] Hkv].
      unfold bind at 1. rewrite Hkv.
      destruct (IH (dict_set batch_data k v) self1 Hc1) as (bd' & self' & Hrun & Hc' & Hmax & Hcur).
      exists bd', self'. split; [done|]. split; [done|]. split; [done|].
      rewrite Hcur. simpl. lia.
Qed.

Lemma py_min_min a b : Py.min a b = Z.min a b.
Proof. unfold Py.min. destruct (Z.ltb_spec b a); lia. Qed.

Lemma write_loop_exact fuel batch_size remaining written skipped self (w : world W) :
  complete_samples self → 1 ≤ batch_size → (Z.to_nat remaining < fuel)%nat →
  ∃ written' self' w',
    write_loop fuel batch_size remaining written skipped (self, w)
    = (Ret (written', skipped), (self', w'))
    ∧ complete_samples self'
    ∧ max_daily_keys self' = max_daily_keys self
    ∧ current_key_id self'
      = current_key_id self
        + Z.max 0 (Z.min remaining (max_daily_keys self - current_key_id self)).
Proof.
  intros Hc Hbs. revert remaining written self w Hc.
  induction fuel as [|fuel IH]; intros remaining written self w Hc Hfuel; [lia|]. simpl.
  unfold bind at 1. simpl.
  destruct (Z.ltb_spec 0 remaining) as [Hrem|Hrem]; simpl;
    [|eexists _, _, _; repeat split; [done|lia]].
  destruct (Z.ltb_spec (current_key_id self) (max_daily_keys self)) as [Hlt|Hge];
    [|eexists _, _, _; repeat split; [done|lia]].
  destruct (prepare_batch_exact (Z.to_nat (Py.min batch_size remaining)) [] self w Hc)
    as (batch_data & self1 & Hp & Hc1 & Hmax1 & Hcur1).
  unfold bind at 1. rewrite Hp.
  set (m := if dict_nonempty batch_data then write_batch batch_data written else ret written).
  assert (returns m) as Hm
    by (unfold m; destruct (dict_nonempty batch_data); [apply write_batch_returns|apply returns_ret]).
  assert (preserves (@same_self _ W) m) as Hs
    by (unfold m; destruct (dict_nonempty batch_data);
        [apply write_batch_same_self|apply preserves_ret, _]).
  destruct (Hm (self1, w)) as [written1 Hw1]. specialize (Hs (self1, w)).
  unfold bind at 1. destruct (m (self1, w)) as [r1 [self2 w2]]. simpl in *.
  unfold same_self in Hs. simpl in Hs. subst r1 self2.
  pose proof (py_min_min batch_size remaining) as Hmin.
  destruct (IH (remaining - Py.min batch_size remaining) written1 self1 w2 Hc1 ltac:(lia))
    as (written' & self' & w' & Hrun & Hc' & Hmax & Hcur).
  exists written', self', w'. split; [done|]. split; [done|]. split; [congruence|].
  rewrite Hcur, Hcur1, Hmax1. lia.
Qed.

(** A batch size of 0 or less: nothing is consumed and nothing is sent,
    and the loop runs for ever unless it has nothing to do at the start. *)
Lemma write_loop_idle fuel batch_size remaining written skipped self (w : world W) :
  batch_size ≤ 0 →
  write_loop fuel batch_size remaining written skipped (self, w)
  = (if (0 <? remaining) && (current_key_id self <? max_daily_keys self)
     then Diverged else if fuel is O then Diverged else Ret (written, skipped),
     (self, w)).
Proof.
  intros Hbs.
  destruct (Z.ltb_spec 0 remaining) as [Hrem|Hrem]; simpl.
  - destruct (Z.ltb_spec (current_key_id self) (max_daily_keys self)) as [Hlt|Hge].
    + by apply write_loop_never_ends.
    + destruct fuel; [done|]. simpl. unfold bind at 1. simpl.
      rewrite (proj2 (Z.ltb_ge (current_key_id self) (max_daily_keys self)) Hge).
      by rewrite andb_false_r.
  - destruct fuel; [done|]. simpl. unfold bind at 1. simpl.
    by rewrite (proj2 (Z.ltb_ge 0 remaining) Hrem).
Qed.

Lemma sends_entries_weaken self lo hi lo' hi' batch_size ev :
  lo' ≤ lo → hi ≤ hi' →
  sends_entries self lo hi batch_size ev → sends_entries self lo' hi' batch_size ev.
Proof.
  intros Hlo Hhi.
  assert (∀ c, writes_entry self lo hi c → writes_entry self lo' hi' c) as Hw.
  { intros [k|k ttl v]; [done|]. intros [Httl (id & Hid & He)]. split; [done|].
    exists id. split; [lia|done]. }
  destruct ev as [k|k ttl v|cmds]; [done|apply Hw|].
  intros (Hne & Hlen & Hall). repeat split; try done. eapply Forall_impl; [exact Hall|exact Hw].
Qed.

Lemma sends_entries_ext self self0 lo hi batch_size ev :
  version self = version self0 → sample_keys self = sample_keys self0 →
  key_ttl_seconds self = key_ttl_seconds self0 →
  sends_entries self lo hi batch_size ev → sends_entries self0 lo hi batch_size ev.
Proof.
  intros Hv Hs Ht.
  assert (∀ c, writes_entry self lo hi c → writes_entry self0 lo hi c) as Hw.
  { intros [k|k ttl v]; [done|]. intros [Httl (id & Hid & He)]. split; [congruence|].
    exists id. split; [done|]. unfold entry_of in *. by rewrite <- Hv, <- Hs. }
  destruct ev as [k|k ttl v|cmds]; [done|apply Hw|].
  intros (Hne & Hlen & Hall). repeat split; try done. eapply Forall_impl; [exact Hall|exact Hw].
Qed.

Lemma dict_set_Forall {V} (P : string * V → Prop) (d : dict V) k v :
  Forall P d → P (k, v) → Forall P (dict_set d k v).
Proof.
  intros Hd Hkv. induction Hd as [|[k' v'] d Hx Hd IH]; simpl.
  - by constructor.
  - destruct (String.eqb_spec k' k) as [->|Hne]; by constructor.
Qed.

Lemma prepare_batch_entries n batch_data self (w : world W) batch_data' self' w' lo :
  prepare_batch n batch_data (self, w) = (Ret batch_data', (self', w')) →
  lo ≤ current_key_id self →
  Forall (is_entry self lo (current_key_id self)) batch_data →
  Forall (is_entry self lo (current_key_id self')) batch_data'.
Proof.
  revert batch_data self. induction n as [|n IH]; intros batch_data self Hrun Hlo Hall.
  - simpl in Hrun. by injection Hrun as <- <- <-.
  - simpl in Hrun. unfold bind at 1 in Hrun. simpl in Hrun.
    destruct (Z.leb_spec (max_daily_keys self) (current_key_id self)) as [Hle|Hlt].
    + by injection Hrun as <- <- <-.
    + unfold bind at 1 in Hrun. simpl in Hrun.
      unfold bind at 1, get_key_data, bind, get_self in Hrun. simpl in Hrun.
      destruct (sample_keys self !! _) as [v|] eqn:Hs; simpl in Hrun; [|done].
      apply IH in Hrun; [exact Hrun|simpl; lia|]. simpl.
      apply dict_set_Forall.
      * eapply Forall_impl; [exact Hall|]. intros kv (id & Hid & He).
        exists id. split; [lia|exact He].
      * exists (current_key_id self). split; [lia|]. unfold entry_of. simpl. by rewrite Hs.
Qed.

Lemma prepare_batch_raises n batch_data self (w : world W) e self' w' :
  prepare_batch n batch_data (self, w) = (Exc e, (self', w')) →
  e = KeyError
  ∧ current_key_id self < current_key_id self' ≤ current_key_id self + Z.of_nat n
  ∧ sample_keys self !! str_int ((current_key_id self' - 1) mod 100) = None.
Proof.
  revert batch_data self. induction n as [|n IH]; intros batch_data self Hrun; [done|].
  simpl in Hrun. unfold bind at 1 in Hrun. simpl in Hrun.
  destruct (_ <=? _); [done|].
  unfold bind at 1 in Hrun. simpl in Hrun.
  unfold bind at 1, get_key_data, bind, get_self in Hrun. simpl in Hrun.
  destruct (sample_keys self !! _) as [v|] eqn:Hs; simpl in Hrun.
  - apply IH in Hrun as (-> & Hcur & Hnone). simpl in *. split; [done|]. split; [lia|done].
  - injection Hrun as <- <- <-. simpl. split; [done|]. split; [lia|].
    by replace (current_key_id self + 1 - 1) with (current_key_id self) by lia.
Qed.

Lemma prepare_batch_advance n batch_data self (w : world W) r self' w' :
  prepare_batch n batch_data (self, w) = (r, (self', w')) →
  current_key_id self' ≤ current_key_id self + Z.of_nat n.
Proof.
  revert batch_data self. induction n as [|n IH]; intros batch_data self Hrun.
  - simpl in Hrun. injection Hrun as <- <- <-. lia.
  - simpl in Hrun. unfold bind at 1 in Hrun. simpl in Hrun.
    destruct (_ <=? _); [injection Hrun as <- <- <-; lia|].
    unfold bind at 1 in Hrun. simpl in Hrun.
    unfold bind at 1, get_key_data, bind, get_self in Hrun. simpl in Hrun.
    destruct (sample_keys self !! _) as [v|] eqn:Hs; simpl in Hrun.
    + apply IH in Hrun. simpl in Hrun. lia.
    + injection Hrun as <- <- <-. simpl. lia.
Qed.

Lemma length_setex_answers ttl (items : list (string * string)) (s : W) :
  length (setex_answers ttl items s).1 = length items.
Proof.
  revert s. induction items as [|[k v] items IH]; intros s; [done|]. simpl.
  destruct (redis_setex k ttl v s) as [a s1]. specialize (IH s1).
  destruct (setex_answers ttl items s1) as [rest s2]. simpl in *. by rewrite IH.
Qed.

Lemma sent_from_setex_events ttl (items batch_data : list (string * string)) :
  items ⊆ batch_data → Forall (sent_from (Some ttl) batch_data) (setex_events ttl items).
Proof.
  intros Hsub. unfold setex_events. apply Forall_fmap, Forall_forall.
  intros [k v] Hin. simpl. split; [done|]. by apply Hsub.
Qed.

(** What writing one batch returns, sends and counts. *)
Lemma write_step_trace (batch_data : dict string) written self (w : world W) :
  ∃ written1 evs w2,
    (if dict_nonempty batch_data then write_batch batch_data written else ret written) (self, w)
    = (Ret written1, (self, w2))
    ∧ log w2 = log w ++ evs
    ∧ pipeline_keys evs = pipelined self batch_data.*1
    ∧ Forall (sent_from (key_ttl_seconds self) batch_data) evs
    ∧ written ≤ written1
    ∧ (replies_match W → written1 ≤ written + Z.of_nat (length batch_data))
    ∧ (key_ttl_seconds self = None → evs = [] ∧ written1 = written).
Proof.
  unfold pipelined.
  destruct batch_data as [|kv batch_data'] eqn:Hbd.
  { exists written, [], w. simpl. rewrite app_nil_r.
    repeat split; try done; try lia. by destruct (key_ttl_seconds self). }
  rewrite <- Hbd. assert (batch_data ≠ []) as Hne by (by rewrite Hbd).
  replace (dict_nonempty batch_data) with true by (by rewrite Hbd).
  clear Hbd.
  destruct (key_ttl_seconds self) as [ttl|] eqn:Httl.
  2:{ rewrite (write_batch_unreadable _ _ _ _ Httl Hne). exists written, [], w.
      rewrite app_nil_r. repeat split; try done; lia. }
  destruct (redis_execute (batch_commands ttl batch_data) (server w))
    as [[results|e] s1] eqn:Hans.
  - rewrite (write_batch_ok _ _ _ _ _ _ _ Httl Hans). eexists _, [_], _.
    split; [done|]. split; [done|].
    split; [unfold pipeline_keys; simpl; by rewrite app_nil_r, command_keys_batch|].
    split; [repeat constructor; by exists ttl|]. split; [lia|].
    split; [|done].
    intros Hrm. apply Hrm in Hans.
    pose proof (length_filter (λ r, truthy r = true) results) as Hf.
    unfold batch_commands in Hans. rewrite length_fmap in Hans. lia.
  - rewrite (write_batch_failed _ _ _ _ _ _ _ Httl Hans). eexists _, (_ :: _), _.
    split; [done|]. split; [done|].
    split.
    { change (pipeline_keys (Pipeline ?c :: ?l)) with ((command_key <$> c) ++ pipeline_keys l).
      by rewrite pipeline_keys_setex_events, app_nil_r, command_keys_batch. }
    split; [constructor; [by exists ttl|by apply sent_from_setex_events]|].
    pose proof (length_filter (λ a, written_ok a = true)
                  (setex_answers ttl batch_data s1).1) as Hf.
    rewrite length_setex_answers in Hf. split; [lia|]. split; [|done]. intros _. lia.
Qed.

Lemma sent_from_sends_entries self lo hi batch_size batch_data ev :
  Forall (is_entry self lo hi) batch_data →
  Z.of_nat (length batch_data) ≤ batch_size →
  sent_from (key_ttl_seconds self) batch_data ev →
  sends_entries self lo hi batch_size ev.
Proof.
  intros Hall Hlen. destruct ev as [k|k ttl v|cmds]; simpl; [done| |].
  - intros [Httl Hin]. split; [done|]. by apply (proj1 (Forall_forall _ _) Hall (k, v)).
  - intros (ttl & Httl & -> & Hne). unfold batch_commands. rewrite length_fmap.
    split; [by destruct batch_data|]. split; [done|].
    apply Forall_fmap. eapply Forall_impl; [exact Hall|]. by intros [k v] He.
Qed.

Lemma length_keys_of_ids version first n : Z.of_nat (length (keys_of_ids version first n)) = Z.max 0 n.
Proof. unfold keys_of_ids. rewrite length_fmap, length_seqZ. lia. Qed.

Lemma pipelined_nil self : pipelined self [] = [].
Proof. unfold pipelined. by destruct (key_ttl_seconds self). Qed.

(** The requests of a call, the ids they cover, what the call counts, and
    how it fails. *)
Lemma write_loop_trace fuel batch_size remaining written skipped self (w : world W) r self' w' :
  write_loop fuel batch_size remaining written skipped (self, w) = (r, (self', w')) →
  ∃ evs sent,
    log w' = log w ++ evs
    ∧ current_key_id self ≤ sent ≤ current_key_id self'
    ∧ pipeline_keys evs
      = pipelined self
          (keys_of_ids (version self) (current_key_id self) (sent - current_key_id self))
    ∧ Forall (sends_entries self (current_key_id self) sent batch_size) evs
    ∧ (key_ttl_seconds self = None → evs = [])
    ∧ match r with
      | Ret (written', _) =>
          sent = current_key_id self' ∧ written ≤ written'
          ∧ (replies_match W → written' ≤ written + (sent - current_key_id self))
          ∧ (key_ttl_seconds self = None → written' = written)
      | Exc e =>
          e = KeyError ∧ sent < current_key_id self' ≤ sent + batch_size
          ∧ sample_keys self !! str_int ((current_key_id self' - 1) mod 100) = None
      | Diverged => sent = current_key_id self'
      end.
Proof.
  revert remaining written self w.
  induction fuel as [|fuel IH]; intros remaining written self w Hrun.
  { injection Hrun as <- <- <-. exists [], (current_key_id self).
    rewrite app_nil_r, Z.sub_diag.
    repeat split; try done; try lia; try (unfold pipelined; by destruct (key_ttl_seconds self)). }
  simpl in Hrun. unfold bind at 1 in Hrun. simpl in Hrun.
  destruct (Z.ltb_spec 0 remaining) as [Hrem|Hrem]; simpl in Hrun.
  2:{ injection Hrun as <- <- <-. exists [], (current_key_id self).
      rewrite app_nil_r, Z.sub_diag.
      repeat split; try done; try lia; try (unfold pipelined; by destruct (key_ttl_seconds self)). }
  destruct (current_key_id self <? max_daily_keys self).
  2:{ injection Hrun as <- <- <-. exists [], (current_key_id self).
      rewrite app_nil_r, Z.sub_diag.
      repeat split; try done; try lia; try (unfold pipelined; by destruct (key_ttl_seconds self)). }
  set (n := Z.to_nat (Py.min batch_size remaining)) in *.
  assert (n ≠ 0%nat → Z.of_nat n ≤ batch_size) as Hn
    by (unfold n; rewrite py_min_min; lia).
  apply bind_inv in Hrun as [(bd & [self1 w1] & Hp & Hrun)|[(e & Hp & ->)|[Hp ->]]].
  - pose proof Hp as Hids. eapply prepare_batch_ids in Hids; [|reflexivity|by rewrite Z.sub_diag].
    destruct Hids as (-> & Hv & Hle & Hkeys). specialize (Hkeys bd eq_refl).
    pose proof (prepare_batch_advance _ _ _ _ _ _ _ Hp) as Hadv.
    pose proof (prepare_batch_entries _ _ _ _ _ _ _ (current_key_id self) Hp
                  ltac:(lia) (Forall_nil_2 _)) as Hent.
    assert (sample_keys self1 = sample_keys self ∧ key_ttl_seconds self1 = key_ttl_seconds self)
      as (Hsk & Httl).
    { split.
      - pose proof (prepare_batch_preserves (keeps sample_keys) (same_self_keeps _)
                      ltac:(done) n [] (self, w)) as Hk.
        rewrite Hp in Hk. exact Hk.
      - pose proof (prepare_batch_preserves (keeps key_ttl_seconds) (same_self_keeps _)
                      ltac:(done) n [] (self, w)) as Hk.
        rewrite Hp in Hk. exact Hk. }
    assert (Z.of_nat (length bd) = current_key_id self1 - current_key_id self) as Hlen.
    { rewrite <- (length_fmap fst bd), Hkeys, length_keys_of_ids. lia. }
    destruct (write_step_trace bd written self1 w)
      as (written1 & evs1 & w2 & Hw & Hlog1 & Hpk1 & Hsent1 & Hwr1 & Hcnt1 & Hnone1).
    apply bind_inv in Hrun as [(wr & s2 & Hw' & Hrun)|[(e & Hw' & _)|[Hw' _]]];
      rewrite Hw in Hw'; [|done..]. injection Hw' as <- <-.
    apply IH in Hrun as (evs2 & sent2 & Hlog2 & Hsent2 & Hpk2 & Hall2 & Hnone2 & Hres).
    exists (evs1 ++ evs2), sent2.
    split; [by rewrite Hlog2, Hlog1, <- app_assoc|]. split; [lia|].
    split.
    { replace (sent2 - current_key_id self)
        with ((current_key_id self1 - current_key_id self) + (sent2 - current_key_id self1))
        by lia.
      rewrite keys_of_ids_app by lia.
      replace (current_key_id self + (current_key_id self1 - current_key_id self))
        with (current_key_id self1) by lia.
      unfold pipeline_keys in *. rewrite bind_app, Hpk1, Hpk2, Hkeys, Hv.
      unfold pipelined. rewrite Httl. by destruct (key_ttl_seconds self). }
    split.
    { apply Forall_app. split.
      - eapply Forall_impl; [exact Hsent1|]. intros ev Hev.
        apply (sends_entries_weaken self (current_key_id self) (current_key_id self1));
          [lia|lia|].
        destruct (decide (bd = [])) as [->|Hne].
        { destruct ev as [k|k ttl v|cmds]; simpl in Hev;
            [done|destruct Hev as [_ Hin]; by apply elem_of_nil in Hin
            |by destruct Hev as (? & _ & _ & ?)]. }
        apply (sent_from_sends_entries _ _ _ _ bd); [done| |by rewrite <- Httl].
        rewrite Hlen. apply Z.le_trans with (Z.of_nat n); [lia|]. apply Hn.
        intros Hn0. rewrite Hn0 in Hadv. destruct bd; [done|]. simpl in Hlen. lia.
      - eapply Forall_impl; [exact Hall2|]. intros ev Hev.
        apply (sends_entries_weaken self (current_key_id self1) sent2); [lia|lia|].
        by apply (sends_entries_ext self1 self). }
    split.
    { intros Hno. rewrite <- Httl in Hno.
      destruct (Hnone1 Hno) as [-> _]. by rewrite (Hnone2 Hno). }
    destruct r as [[written' skipped']|e|].
    + destruct Hres as (-> & Hwr2 & Hcnt2 & Hsame2). split; [done|]. split; [lia|].
      split.
      * intros Hrm. specialize (Hcnt1 Hrm). specialize (Hcnt2 Hrm). lia.
      * intros Hno. rewrite <- Httl in Hno.
        destruct (Hnone1 Hno) as [_ <-]. by apply Hsame2.
    + destruct Hres as (-> & Hlt & Hnone). split; [done|]. split; [lia|]. by rewrite <- Hsk.
    + done.
  - pose proof Hp as Hids. eapply prepare_batch_ids in Hids; [|reflexivity|by rewrite Z.sub_diag].
    destruct Hids as (-> & _). apply prepare_batch_raises in Hp as (-> & Hcur & Hnone).
    exists [], (current_key_id self). rewrite app_nil_r, Z.sub_diag.
    repeat split; try done; try lia; try (unfold pipelined; by destruct (key_ttl_seconds self)).
  - exfalso. pose proof (prepare_batch_terminates n [] (self, w)) as Ht.
    by rewrite Hp in Ht.
Qed.

Lemma write_loop_advance fuel batch_size remaining written skipped self (w : world W) r self' w' :
  write_loop fuel batch_size remaining written skipped (self, w) = (r, (self', w')) →
  current_key_id self' - current_key_id self ≤ Z.max 0 remaining.
Proof.
  destruct (Z.le_gt_cases batch_size 0) as [Hbs|Hbs].
  { rewrite write_loop_idle by done. intros [= _ <- _]. lia. }
  revert remaining written self w.
  induction fuel as [|fuel IH]; intros remaining written self w Hrun.
  { injection Hrun as <- <- <-. lia. }
  simpl in Hrun. unfold bind at 1 in Hrun. simpl in Hrun.
  destruct (Z.ltb_spec 0 remaining) as [Hrem|Hrem]; simpl in Hrun;
    [|injection Hrun as <- <- <-; lia].
  destruct (current_key_id self <? max_daily_keys self); [|injection Hrun as <- <- <-; lia].
  pose proof (py_min_min batch_size remaining) as Hmin.
  apply bind_inv in Hrun as [(bd & [self1 w1] & Hp & Hrun)|[(e & Hp & ->)|[Hp ->]]];
    apply prepare_batch_advance in Hp; [|lia..].
  destruct (write_step_trace bd written self1 w1) as (written1 & evs1 & w2 & Hw & _).
  apply bind_inv in Hrun as [(wr & s2 & Hw' & Hrun)|[(e & Hw' & _)|[Hw' _]]];
    rewrite Hw in Hw'; [|done..]. injection Hw' as <- <-.
  apply IH in Hrun. lia.
Qed.

Lemma key_not_in_earlier_ids version first n id :
  first + n ≤ id → NetworkUtils.create_redis_key_simple id version ∉ keys_of_ids version first n.
Proof.
  intros Hid Hin. unfold keys_of_ids in Hin.
  apply list_elem_of_fmap in Hin as (id' & Heq & Hin).
  apply create_redis_key_simple_inj in Heq as <-. apply elem_of_seqZ in Hin. lia.
Qed.

(** X1. With a complete sample table and a batch size of at least 1, a
    call of [write_pipeline_batches] returns and has consumed exactly
    [count] ids, or all the ids left below the bound when these are fewer
    (and none for a count of 0 or less). *)
Theorem write_consumes_count fuel count batch_size (self : t) (w : world W) :
  complete_samples self → 1 ≤ batch_size → (Z.to_nat count < fuel)%nat →
  ∃ written self' w',
    write_pipeline_batches fuel count batch_size (self, w) = (Ret (written, 0), (self', w'))
    ∧ current_key_id self'
      = current_key_id self + Z.max 0 (Z.min count (max_daily_keys self - current_key_id self)).
Proof.
  intros Hc Hbs Hfuel.
  destruct (write_loop_exact fuel batch_size count 0 0 self w Hc Hbs Hfuel)
    as (written & self' & w' & Hrun & _ & _ & Hcur).
  by exists written, self', w'.
Qed.

(** X2. A call of [write_pipeline_batches] raises only [KeyError], for the
    sample index of the id it consumed last.  The ids consumed for the
    batch in preparation, at most [batch_size] of them, are lost: the
    cursor has passed them and no request of the call carries their keys.
    The pipelines sent before cover the earlier ids when the TTL of the
    configuration can be read; when it cannot, the call has sent no
    request at all. *)
Theorem missing_sample_loses_batch fuel count batch_size (self : t) (w : world W) e self' w' :
  write_pipeline_batches fuel count batch_size (self, w) = (Exc e, (self', w')) →
  e = KeyError
  ∧ sample_keys self !! str_int ((current_key_id self' - 1) mod 100) = None
  ∧ ∃ evs sent,
      log w' = log w ++ evs
      ∧ current_key_id self ≤ sent < current_key_id self'
      ∧ current_key_id self' ≤ sent + batch_size
      ∧ (∀ ttl, key_ttl_seconds self = Some ttl →
           pipeline_keys evs
           = keys_of_ids (version self) (current_key_id self) (sent - current_key_id self))
      ∧ (key_ttl_seconds self = None → evs = [])
      ∧ ∀ id, sent ≤ id →
          (NetworkUtils.create_redis_key_simple id (version self) ∉ pipeline_keys evs)
          ∧ (NetworkUtils.create_redis_key_simple id (version self) ∉ setex_keys evs).
Proof.
  intros Hrun. pose proof Hrun as Hreq.
  apply write_loop_trace in Hrun
    as (evs & sent & Hlog & Hsent & Hpk & _ & Hno & -> & Hlt & Hnone).
  apply write_loop_requests in Hreq as (_ & _ & evs' & Hlog' & _ & _ & Hsub).
  rewrite Hlog in Hlog'. apply app_inv_head in Hlog' as <-.
  assert (∀ id, sent ≤ id →
            NetworkUtils.create_redis_key_simple id (version self) ∉ pipeline_keys evs) as Hnot.
  { intros id Hid. rewrite Hpk. unfold pipelined.
    destruct (key_ttl_seconds self); [|apply not_elem_of_nil].
    apply key_not_in_earlier_ids. lia. }
  split; [done|]. split; [done|]. exists evs, sent.
  split; [done|]. split; [lia|]. split; [lia|].
  split; [intros ttl Httl; rewrite Hpk; unfold pipelined; by rewrite Httl|].
  split; [done|]. intros id Hid. split; [by apply Hnot|].
  intros Hin. apply Hsub in Hin. by apply (Hnot id).
Qed.

(** X3. Unless it raises, a call of [write_pipeline_batches] made with a
    TTL that can be read sends the key of every id it consumed in a
    pipeline exactly once, in increasing order of the ids, and no other
    key in any pipeline.  When the TTL cannot be read (an integer override
    has replaced [config.writer]), the call sends no request at all and
    reports no write, although it consumes the ids all the same. *)
Theorem pipelines_cover_consumed_ids fuel count batch_size (self : t) (w : world W) r self' w' :
  write_pipeline_batches fuel count batch_size (self, w) = (r, (self', w')) →
  (∀ e, r ≠ Exc e) →
  ∃ evs, log w' = log w ++ evs
    ∧ (∀ ttl, key_ttl_seconds self = Some ttl →
         pipeline_keys evs
         = keys_of_ids (version self) (current_key_id self)
                       (current_key_id self' - current_key_id self))
    ∧ (key_ttl_seconds self = None →
         evs = [] ∧ ∀ written skipped, r = Ret (written, skipped) → written = 0).
Proof.
  intros Hrun Hr.
  apply write_loop_trace in Hrun as (evs & sent & Hlog & Hsent & Hpk & _ & Hno & Hres).
  exists evs. split; [done|]. split.
  - intros ttl Httl. rewrite Hpk. unfold pipelined. rewrite Httl.
    destruct r as [[written' skipped']|e|];
      [destruct Hres as [-> _]|by destruct (Hr e)|subst sent]; done.
  - intros Httl. split; [by apply Hno|]. intros written skipped ->.
    destruct Hres as (_ & _ & _ & Hsame). by apply Hsame.
Qed.

(** X4. Every request of a call of [write_pipeline_batches] is a write
    with the configured TTL: a pipeline of one to [batch_size] SETEX
    commands or, in the fallback, a single SETEX; each carries the key and
    the sample payload of an id the call consumed.  The call never reads. *)
Theorem requests_write_entries fuel count batch_size (self : t) (w : world W) r self' w' :
  write_pipeline_batches fuel count batch_size (self, w) = (r, (self', w')) →
  ∃ evs, log w' = log w ++ evs
    ∧ Forall (sends_entries self (current_key_id self) (current_key_id self') batch_size) evs.
Proof.
  intros Hrun.
  apply write_loop_trace in Hrun as (evs & sent & Hlog & Hsent & _ & Hall & _).
  exists evs. split; [done|]. eapply Forall_impl; [exact Hall|].
  intros ev. apply sends_entries_weaken; lia.
Qed.

(** X5. A call of [write_pipeline_batches] consumes at most [count] ids
    and, when the server answers a pipeline with one result per command,
    the number of writes it reports lies between 0 and the number of ids
    it consumed. *)
Theorem written_within_consumed fuel count batch_size (self : t) (w : world W) r self' w' :
  replies_match W →
  write_pipeline_batches fuel count batch_size (self, w) = (r, (self', w')) →
  current_key_id self' - current_key_id self ≤ Z.max 0 count
  ∧ ∀ written skipped, r = Ret (written, skipped) →
      0 ≤ written ≤ current_key_id self' - current_key_id self.
Proof.
  intros Hrm Hrun. split; [by apply write_loop_advance in Hrun|].
  intros written skipped ->.
  apply write_loop_trace in Hrun as (evs & sent & _ & _ & _ & _ & _ & -> & Hwr & Hcnt & _).
  specialize (Hcnt Hrm). lia.
Qed.

(** X6. With a batch size of 0 or less a call of [write_pipeline_batches]
    consumes no id and sends nothing; it returns [(0, 0)] when the count is
    0 or less or the cursor is at the bound, and otherwise it never
    returns, whatever the number of iterations allowed. *)
Theorem nonpositive_batch_size_stalls fuel count batch_size (self : t) (w : world W) :
  batch_size ≤ 0 →
  write_pipeline_batches (S fuel) count batch_size (self, w)
  = (if (0 <? count) && (current_key_id self <? max_daily_keys self)
     then Diverged else Ret (0, 0),
     (self, w)).
Proof. intros Hbs. unfold write_pipeline_batches. by rewrite write_loop_idle. Qed.

End WriterBehaviour.

(** ** What a run of the writer counts, and how it ends *)

Section RunBehaviour.
Import FastWriter Spec Behaviour.
Context {W : Type} `{Env W}.

#[local] Existing Instance same_self_preorder.

Lemma handle_signals_spec self (w : world W) :
  ∃ self0, handle_signals (self, w) = (Ret (), (self0, w))
    ∧ (self0 = self ∨ self0 = set_running false self).
Proof.
  unfold handle_signals. destruct (sigint_delivered _); eexists; split; eauto.
Qed.

Lemma progress_report_spec last_report self (w : world W) r s' :
  progress_report last_report (self, w) = (r, s') → s' = (self, w) ∧ r ≠ Diverged.
Proof.
  unfold progress_report, bind, now, get_self. simpl.
  destruct (PrimFloat.leb _ _); [destruct (_ =? _)|]; by intros [= <- <-].
Qed.

(** One turn of the loop of [run_continuous] that writes: the call of
    [write_pipeline_batches] and the update of the counters. *)
Lemma continuous_step_counts fuel self (w : world W) written skipped self1 w1 :
  replies_match W →
  write_pipeline_batches fuel 100 50 (self, w) = (Ret (written, skipped), (self1, w1)) →
  skipped = 0
  ∧ keys_written self1 = keys_written self
  ∧ 0 ≤ written ≤ current_key_id self1 - current_key_id self
  ∧ current_key_id self1 - current_key_id self ≤ 100.
Proof.
  intros Hrm Hrun.
  pose proof (write_loop_keeps keys_written fuel 50 100 0 0 ltac:(done) (self, w)) as Hk.
  pose proof Hrun as Hadv. apply write_loop_advance in Hadv.
  pose proof Hrun as Hsk. apply write_loop_skipped in Hsk.
  unfold write_pipeline_batches in Hrun. rewrite Hrun in Hk.
  apply write_loop_trace in Hrun as (evs & sent & _ & _ & _ & _ & _ & -> & Hwr & Hcnt & _).
  specialize (Hcnt Hrm). unfold keeps in Hk. simpl in Hk. repeat split; try done; lia.
Qed.

Lemma continuous_loop_accounting fuel target_keys duration_seconds last_report
    self (w : world W) r self' w' :
  replies_match W →
  continuous_loop fuel target_keys duration_seconds last_report (self, w) = (r, (self', w')) →
  keys_written self ≤ keys_written self'
  ∧ keys_written self' - keys_written self ≤ current_key_id self' - current_key_id self
  ∧ (∀ n, target_keys = Some n → n ≠ 0 → keys_written self' ≤ Z.max (keys_written self) (n + 99)).
Proof.
  intros Hrm. revert last_report self w.
  induction fuel as [|fuel IH]; intros last_report self w Hrun.
  { injection Hrun as <- <- <-. repeat split; lia. }
  simpl in Hrun.
  destruct (handle_signals_spec self w) as (self0 & Hsig & Hself0).
  unfold bind at 1 in Hrun. rewrite Hsig in Hrun.
  unfold bind at 1 in Hrun. simpl in Hrun.
  assert (keys_written self0 = keys_written self ∧ current_key_id self0 = current_key_id self)
    as [Hkw0 Hcur0] by (by destruct Hself0 as [->| ->]).
  rewrite <- Hkw0, <- Hcur0. clear Hsig Hself0 Hkw0 Hcur0 self.
  destruct (negb (running self0)); [injection Hrun as <- <- <-; repeat split; lia|].
  destruct (target_reached target_keys self0) eqn:Htarget;
    [injection Hrun as <- <- <-; repeat split; lia|].
  destruct (duration_reached _ _ _); [injection Hrun as <- <- <-; repeat split; lia|].
  destruct (_ <=? _); [injection Hrun as <- <- <-; repeat split; lia|].
  apply bind_inv in Hrun as [([written skipped] & [self1 w1] & Hw & Hrun)|[(e & Hw & ->)|[Hw ->]]].
  2,3: pose proof (write_loop_keeps keys_written fuel 50 100 0 0 ltac:(done) (self0, w)) as Hk;
       pose proof (write_loop_cursor_ok fuel 50 100 0 0 (self0, w)) as (_ & Hc & _);
       unfold write_pipeline_batches in Hw; rewrite Hw in Hk, Hc; unfold keeps in Hk;
       simpl in Hk, Hc; repeat split; lia.
  apply continuous_step_counts in Hw as (-> & Hkw1 & Hwritten & Hadv); [|done].
  unfold bind at 1 in Hrun. simpl in Hrun.
  set (self2 := add_counts written 0 self1) in *.
  assert (keys_written self2 = keys_written self0 + written
          ∧ current_key_id self2 = current_key_id self1) as [Hkw2 Hcur2]
    by (unfold self2; simpl; split; lia).
  assert (∀ n, target_keys = Some n → n ≠ 0 → keys_written self0 < n) as Hbelow.
  { intros n -> Hn. unfold target_reached in Htarget.
    rewrite (proj2 (Z.eqb_neq n 0) Hn) in Htarget. simpl in Htarget. lia. }
  clearbody self2.
  apply bind_inv in Hrun as [(lr & s2 & Hp & Hrun)|[(e & Hp & ->)|[Hp ->]]];
    apply progress_report_spec in Hp as [Hs2 Hnd]; [|injection Hs2 as <- <-|done].
  2:{ repeat split; try lia. intros n Hn Hn0. specialize (Hbelow n Hn Hn0). lia. }
  subst s2. unfold bind at 1 in Hrun. simpl in Hrun.
  apply IH in Hrun as (Hle & Hcnt & Hover).
  repeat split; try lia.
  intros n Hn Hn0. specialize (Hbelow n Hn Hn0). specialize (Hover n Hn Hn0). lia.
Qed.

Lemma continuous_loop_stops fuel target_keys duration_seconds last_report
    self (w : world W) self' w' :
  continuous_loop fuel target_keys duration_seconds last_report (self, w)
  = (Ret (), (self', w')) →
  running self' = false
  ∨ target_reached target_keys self' = true
  ∨ duration_reached duration_seconds self' w' = true
  ∨ max_daily_keys self' ≤ current_key_id self'.
Proof.
  revert last_report self w.
  induction fuel as [|fuel IH]; intros last_report self w Hrun; [done|].
  simpl in Hrun.
  destruct (handle_signals_spec self w) as (self0 & Hsig & _).
  unfold bind at 1 in Hrun. rewrite Hsig in Hrun.
  unfold bind at 1 in Hrun. simpl in Hrun.
  destruct (running self0) eqn:Hr; simpl in Hrun; [|injection Hrun as <- <-; by left].
  destruct (target_reached target_keys self0) eqn:Htarget;
    [injection Hrun as <- <-; by right; left|].
  destruct (duration_reached duration_seconds self0 w) eqn:Hd;
    [injection Hrun as <- <-; by right; right; left|].
  destruct (Z.leb_spec (max_daily_keys self0) (current_key_id self0));
    [injection Hrun as <- <-; by right; right; right|].
  apply bind_inv in Hrun as [([written skipped] & [self1 w1] & Hw & Hrun)|[(e & Hw & ?)|[Hw ?]]];
    [|done..].
  unfold bind at 1 in Hrun. simpl in Hrun.
  apply bind_inv in Hrun as [(lr & [self2 w2] & Hp & Hrun)|[(e & Hp & ?)|[Hp ?]]]; [|done..].
  unfold bind at 1 in Hrun. simpl in Hrun. by apply IH in Hrun.
Qed.

Lemma print_final_stats_spec self (w : world W) :
  print_final_stats (self, w)
  = (if PrimFloat.eqb (PrimFloat.sub (time_now (server w)) (start_time self)) 0
        || (keys_written self + keys_skipped self =? 0)
        || (max_daily_keys self =? 0)
        || (current_key_id self =? 0)
     then Exc ZeroDivisionError else Ret (), (self, w)).
Proof. unfold print_final_stats, bind, now, get_self. simpl. by destruct (_ || _). Qed.

Lemma run_continuous_inv fuel target_keys duration_seconds self (w : world W) r self' w' :
  run_continuous fuel target_keys duration_seconds (self, w) = (r, (self', w')) →
  ∃ r0, continuous_loop fuel target_keys duration_seconds (time_now (server w)) (self, w)
        = (r0, (self', w'))
    ∧ (r = Ret () → r0 = Ret () ∧ print_final_stats (self', w') = (Ret (), (self', w'))).
Proof.
  unfold run_continuous. intros Hrun.
  unfold bind at 1 in Hrun. simpl in Hrun.
  apply bind_inv in Hrun as [([] & [self1 w1] & Hloop & Hrun)|[(e & Hloop & ->)|[Hloop ->]]].
  - rewrite print_final_stats_spec in Hrun. injection Hrun as <- <- <-.
    exists (Ret ()). split; [done|]. intros Hr. split; [done|].
    rewrite print_final_stats_spec. by rewrite Hr.
  - by exists (Exc e).
  - by exists Diverged.
Qed.

(** X7. In a run of [run_continuous], when the server answers a pipeline
    with one result per command, the counter of written keys never goes
    down and grows by at most the number of ids the run consumed, however
    the run ends. *)
Theorem run_counts_within_consumed fuel target_keys duration_seconds
    (self : t) (w : world W) r self' w' :
  replies_match W →
  run_continuous fuel target_keys duration_seconds (self, w) = (r, (self', w')) →
  keys_written self ≤ keys_written self'
  ∧ keys_written self' - keys_written self ≤ current_key_id self' - current_key_id self.
Proof.
  intros Hrm Hrun. apply run_continuous_inv in Hrun as (r0 & Hloop & _).
  apply continuous_loop_accounting in Hloop as (Hle & Hcnt & _); done.
Qed.

(** X8. A run of [run_continuous] with a target of [n] keys ([n] not 0)
    overshoots it by at most 99: the counter of written keys ends at most
    at [n + 99], unless it was already higher at the start.  The server is
    taken to answer a pipeline with one result per command. *)
Theorem run_overshoots_target_by_less_than_100 fuel n duration_seconds
    (self : t) (w : world W) r self' w' :
  replies_match W → n ≠ 0 →
  run_continuous fuel (Some n) duration_seconds (self, w) = (r, (self', w')) →
  keys_written self' ≤ Z.max (keys_written self) (n + 99).
Proof.
  intros Hrm Hn Hrun. apply run_continuous_inv in Hrun as (r0 & Hloop & _).
  apply continuous_loop_accounting in Hloop as (_ & _ & Hover); [|done]. by apply Hover.
Qed.

(** X9. [run_continuous] returns normally only if a reason to stop holds
    at the end (the run was interrupted, the target or the duration was
    reached, or the key space is exhausted) and none of the divisions of
    the final statistics is by zero: time has passed since the writer was
    made, a key was written or skipped, and neither the bound nor the
    cursor is 0. *)
Theorem run_returns_for_a_reason fuel target_keys duration_seconds
    (self : t) (w : world W) self' w' :
  run_continuous fuel target_keys duration_seconds (self, w) = (Ret (), (self', w')) →
  (running self' = false
   ∨ target_reached target_keys self' = true
   ∨ duration_reached duration_seconds self' w' = true
   ∨ max_daily_keys self' ≤ current_key_id self')
  ∧ PrimFloat.eqb (PrimFloat.sub (time_now (server w')) (start_time self')) 0 = false
  ∧ keys_written self' + keys_skipped self' ≠ 0
  ∧ max_daily_keys self' ≠ 0
  ∧ current_key_id self' ≠ 0.
Proof.
  intros Hrun. apply run_continuous_inv in Hrun as (r0 & Hloop & Hret).
  destruct (Hret eq_refl) as [-> Hstats]. split; [by apply continuous_loop_stops in Hloop|].
  rewrite print_final_stats_spec in Hstats.
  destruct (PrimFloat.eqb _ _); [done|]. split; [done|].
  destruct (Z.eqb_spec (keys_written self' + keys_skipped self') 0); [done|].
  destruct (Z.eqb_spec (max_daily_keys self') 0); [done|].
  destruct (Z.eqb_spec (current_key_id self') 0); done.
Qed.

Lemma continuous_loop_at_bound fuel target_keys duration_seconds last_report
    self (w : world W) :
  max_daily_keys self ≤ current_key_id self →
  ∃ self0,
    continuous_loop (S fuel) target_keys duration_seconds last_report (self, w)
    = (Ret (), (self0, w))
    ∧ (self0 = self ∨ self0 = set_running false self).
Proof.
  intros Hle. destruct (handle_signals_spec self w) as (self0 & Hsig & Hself0).
  exists self0. split; [|done]. cbn [continuous_loop].
  unfold bind at 1. rewrite Hsig. unfold bind at 1. simpl.
  assert ((max_daily_keys self0 <=? current_key_id self0) = true) as ->
    by (destruct Hself0 as [->| ->]; simpl; lia).
  destruct (negb (running self0)); [done|].
  destruct (target_reached target_keys self0); [done|].
  by destruct (duration_reached _ _ _).
Qed.

(** X10. On a writer whose cursor is at the bound, [run_continuous] sends
    nothing and consumes nothing (it only clears [running] when an
    interrupt arrived); and if that writer has neither written nor skipped
    a key, the run ends with [ZeroDivisionError] from the final
    statistics. *)
Theorem run_on_exhausted_key_space fuel target_keys duration_seconds (self : t) (w : world W) :
  max_daily_keys self ≤ current_key_id self →
  ∃ r self',
    run_continuous (S fuel) target_keys duration_seconds (self, w) = (r, (self', w))
    ∧ (self' = self ∨ self' = set_running false self)
    ∧ r ≠ Diverged
    ∧ (keys_written self + keys_skipped self = 0 → r = Exc ZeroDivisionError).
Proof.
  intros Hle.
  destruct (continuous_loop_at_bound fuel target_keys duration_seconds (time_now (server w))
              self w Hle) as (self0 & Hloop & Hself0).
  assert (run_continuous (S fuel) target_keys duration_seconds (self, w)
          = print_final_stats (self0, w)) as ->.
  { unfold run_continuous. unfold bind at 1, now at 1. cbn beta iota.
    unfold bind at 1. by rewrite Hloop. }
  rewrite print_final_stats_spec. eexists _, self0. split; [done|]. split; [done|].
  split; [by destruct (_ || _)|]. intros Hz.
  replace (keys_written self0 + keys_skipped self0) with 0
    by (by destruct Hself0 as [->| ->]).
  simpl. by rewrite orb_true_r.
Qed.

Lemma continuous_loop_terminates fuel target_keys duration_seconds last_report
    self (w : world W) :
  complete_samples self →
  (Z.to_nat (max_daily_keys self - current_key_id self) + 101 < fuel)%nat →
  (continuous_loop fuel target_keys duration_seconds last_report (self, w)).1 ≠ Diverged.
Proof.
  revert last_report self w.
  induction fuel as [|fuel IH]; intros last_report self w Hc Hfuel; [lia|].
  simpl.
  destruct (handle_signals_spec self w) as (self0 & Hsig & Hself0).
  unfold bind at 1. rewrite Hsig. unfold bind at 1. simpl.
  assert (complete_samples self0 ∧ max_daily_keys self0 = max_daily_keys self
          ∧ current_key_id self0 = current_key_id self) as (Hc0 & Hmax0 & Hcur0)
    by (by destruct Hself0 as [->| ->]).
  destruct (negb (running self0)); [done|].
  destruct (target_reached target_keys self0); [done|].
  destruct (duration_reached _ _ _); [done|].
  destruct (Z.leb_spec (max_daily_keys self0) (current_key_id self0)) as [Hle|Hlt]; [done|].
  destruct (write_loop_exact fuel 50 100 0 0 self0 w Hc0 ltac:(lia) ltac:(lia))
    as (written & self1 & w1 & Hw & Hc1 & Hmax1 & Hcur1).
  unfold bind at 1, write_pipeline_batches. rewrite Hw.
  unfold bind at 1. simpl.
  destruct (progress_report last_report (add_counts written 0 self1, w1)) as [rp sp] eqn:Hp.
  apply progress_report_spec in Hp as Hp'. destruct Hp' as [-> Hnd].
  unfold bind at 1. rewrite Hp.
  destruct rp as [lr|e|]; [|done..].
  unfold bind at 1. simpl. apply IH; [exact Hc1|]. simpl. lia.
Qed.

(** X11. With a complete sample table [run_continuous] always ends: it
    returns or raises within a number of turns of its loop that the ids
    left below the bound determine, whatever the server, the clock and the
    signals do. *)
Theorem run_continuous_ends fuel target_keys duration_seconds (self : t) (w : world W) :
  complete_samples self →
  (Z.to_nat (max_daily_keys self - current_key_id self) + 101 < fuel)%nat →
  (run_continuous fuel target_keys duration_seconds (self, w)).1 ≠ Diverged.
Proof.
  intros Hc Hfuel. unfold run_continuous. unfold bind at 1. simpl.
  pose proof (continuous_loop_terminates fuel target_keys duration_seconds
                (time_now (server w)) self w Hc Hfuel) as Hloop.
  unfold bind.
  destruct (continuous_loop _ _ _ _ _) as [[[]|e|] [self1 w1]]; [|done..].
  rewrite print_final_stats_spec. by destruct (_ || _).
Qed.

Lemma continuous_loop_sends fuel target_keys duration_seconds last_report
    self (w : world W) r self' w' :
  continuous_loop fuel target_keys duration_seconds last_report (self, w) = (r, (self', w')) →
  current_key_id self ≤ current_key_id self'
  ∧ version self' = version self ∧ sample_keys self' = sample_keys self
  ∧ key_ttl_seconds self' = key_ttl_seconds self
  ∧ ∃ evs, log w' = log w ++ evs
      ∧ Forall (sends_entries self (current_key_id self) (current_key_id self') 50) evs.
Proof.
  revert last_report self w.
  induction fuel as [|fuel IH]; intros last_report self w Hrun.
  { injection Hrun as <- <- <-. repeat split; try done. exists []. by rewrite app_nil_r. }
  simpl in Hrun.
  destruct (handle_signals_spec self w) as (self0 & Hsig & Hself0).
  unfold bind at 1 in Hrun. rewrite Hsig in Hrun.
  unfold bind at 1 in Hrun. simpl in Hrun.
  assert (current_key_id self0 = current_key_id self ∧ version self0 = version self
          ∧ sample_keys self0 = sample_keys self
          ∧ key_ttl_seconds self0 = key_ttl_seconds self) as (Hcur0 & Hv0 & Hs0 & Ht0)
    by (by destruct Hself0 as [->| ->]).
  assert (∀ c1 evs, Forall (sends_entries self0 (current_key_id self0) c1 50) evs →
                    Forall (sends_entries self (current_key_id self0) c1 50) evs) as Hback.
  { intros c1 evs HF. eapply Forall_impl; [exact HF|].
    intros ev. by apply sends_entries_ext. }
  rewrite <- Hcur0, <- Hv0, <- Hs0, <- Ht0.
  assert (r = Ret () ∧ self' = self0 ∧ w' = w →
          current_key_id self0 ≤ current_key_id self'
          ∧ version self' = version self0 ∧ sample_keys self' = sample_keys self0
          ∧ key_ttl_seconds self' = key_ttl_seconds self0
          ∧ ∃ evs, log w' = log w ++ evs
              ∧ Forall (sends_entries self (current_key_id self0) (current_key_id self') 50) evs)
    as Hstop.
  { intros (_ & -> & ->). repeat split; try done. exists []. by rewrite app_nil_r. }
  destruct (negb (running self0)); [apply Hstop; by injection Hrun as <- <- <-|].
  destruct (target_reached target_keys self0); [apply Hstop; by injection Hrun as <- <- <-|].
  destruct (duration_reached duration_seconds self0 w);
    [apply Hstop; by injection Hrun as <- <- <-|].
  destruct (_ <=? _); [apply Hstop; by injection Hrun as <- <- <-|].
  clear Hstop.
  assert (∀ r1 self1 w1,
    write_pipeline_batches fuel 100 50 (self0, w) = (r1, (self1, w1)) →
    current_key_id self0 ≤ current_key_id self1
    ∧ version self1 = version self0 ∧ sample_keys self1 = sample_keys self0
    ∧ key_ttl_seconds self1 = key_ttl_seconds self0
    ∧ ∃ evs, log w1 = log w ++ evs
        ∧ Forall (sends_entries self (current_key_id self0) (current_key_id self1) 50) evs)
    as Hcall.
  { intros r1 self1 w1 Hw.
    pose proof (write_loop_keeps version fuel 50 100 0 0 ltac:(done) (self0, w)) as Hkv.
    pose proof (write_loop_keeps sample_keys fuel 50 100 0 0 ltac:(done) (self0, w)) as Hks.
    pose proof (write_loop_keeps key_ttl_seconds fuel 50 100 0 0 ltac:(done) (self0, w)) as Hkt.
    unfold write_pipeline_batches in Hw. rewrite Hw in Hkv, Hks, Hkt.
    apply write_loop_trace in Hw as (evs & sent & Hlog & Hsent & _ & Hall & _).
    split; [lia|]. do 3 (split; [done|]). exists evs. split; [done|].
    apply Hback. eapply Forall_impl; [exact Hall|].
    intros ev. apply sends_entries_weaken; lia. }
  apply bind_inv in Hrun as [([written skipped] & [self1 w1] & Hw & Hrun)|[(e & Hw & ->)|[Hw ->]]];
    [|by apply Hcall in Hw..].
  apply Hcall in Hw as (Hle1 & Hv1 & Hs1 & Ht1 & evs1 & Hlog1 & Hall1).
  unfold bind at 1 in Hrun. simpl in Hrun.
  set (self2 := add_counts written skipped self1) in *.
  assert (current_key_id self2 = current_key_id self1 ∧ version self2 = version self1
          ∧ sample_keys self2 = sample_keys self1
          ∧ key_ttl_seconds self2 = key_ttl_seconds self1) as (Hcur2 & Hv2 & Hs2 & Ht2)
    by done.
  clearbody self2.
  assert (∀ self3 (w3 : world W) evs3,
    current_key_id self2 ≤ current_key_id self3
    ∧ version self3 = version self2 ∧ sample_keys self3 = sample_keys self2
    ∧ key_ttl_seconds self3 = key_ttl_seconds self2
    ∧ log w3 = log w1 ++ evs3
    ∧ Forall (sends_entries self2 (current_key_id self2) (current_key_id self3) 50) evs3 →
    current_key_id self0 ≤ current_key_id self3
    ∧ version self3 = version self0 ∧ sample_keys self3 = sample_keys self0
    ∧ key_ttl_seconds self3 = key_ttl_seconds self0
    ∧ ∃ evs, log w3 = log w ++ evs
        ∧ Forall (sends_entries self (current_key_id self0) (current_key_id self3) 50) evs)
    as Hjoin.
  { intros self3 w3 evs3 (Hle3 & Hv3 & Hs3 & Ht3 & Hlog3 & Hall3).
    split; [lia|]. do 3 (split; [congruence|]). exists (evs1 ++ evs3).
    split; [by rewrite Hlog3, Hlog1, <- app_assoc|]. apply Forall_app. split.
    - eapply Forall_impl; [exact Hall1|]. intros ev. apply sends_entries_weaken; lia.
    - eapply Forall_impl; [exact Hall3|]. intros ev Hev.
      apply (sends_entries_weaken self (current_key_id self2) (current_key_id self3));
        [lia|lia|].
      apply (sends_entries_ext self2 self); congruence. }
  apply bind_inv in Hrun as [(lr & s2 & Hp & Hrun)|[(e & Hp & ->)|[Hp ->]]];
    apply progress_report_spec in Hp as [Hs2' Hnd]; [|injection Hs2' as -> ->|done].
  2:{ apply (Hjoin self2 w1 []). rewrite app_nil_r. repeat split; try done; lia. }
  subst s2. unfold bind at 1 in Hrun. simpl in Hrun.
  apply IH in Hrun as (Hle3 & Hv3 & Hs3 & Ht3 & evs3 & Hlog3 & Hall3).
  apply (Hjoin self' w' evs3). repeat split; done.
Qed.

(** X12. Every request of a run of [run_continuous], however it ends, is a
    write with the configured TTL, a pipeline of one to 50 SETEX commands
    or a single SETEX, of the key and sample payload of an id the run
    consumed; the run never reads from the server. *)
Theorem run_requests_write_entries fuel target_keys duration_seconds
    (self : t) (w : world W) r self' w' :
  run_continuous fuel target_keys duration_seconds (self, w) = (r, (self', w')) →
  ∃ evs, log w' = log w ++ evs
    ∧ Forall (sends_entries self (current_key_id self) (current_key_id self') 50) evs.
Proof.
  intros Hrun. apply run_continuous_inv in Hrun as (r0 & Hloop & _).
  by apply continuous_loop_sends in Hloop as (_ & _ & _ & _ & Hevs).
Qed.

End RunBehaviour.

(** ** The properties of the writer on the in-memory server *)

Lemma samples_complete : Spec.complete_samples InMemory.writer.
Proof.
  intros i Hi. unfold InMemory.writer, FastWriter.init, FastWriter.sample_keys.
  apply elem_of_dom. unfold InMemory.samples. rewrite dom_list_to_map_L.
  apply elem_of_list_to_set, list_elem_of_fmap. exists (str_int i, "{}").
  split; [done|]. apply list_elem_of_fmap. exists i. split; [done|].
  apply list_elem_of_fmap. exists (Z.to_nat i). split; [lia|]. apply elem_of_seq. lia.
Qed.

Lemma length_execute_all cmds s : length (InMemory.execute_all cmds s).1 = length cmds.
Proof.
  revert s. induction cmds as [|c cmds IH]; intros s; [done|]. simpl.
  destruct (InMemory.execute_one c s) as [r s1]. specialize (IH s1).
  destruct (InMemory.execute_all cmds s1) as [rs s2]. simpl in *. by rewrite IH.
Qed.

Lemma in_memory_replies_match decode size :
  Behaviour.replies_match InMemory.server (H := InMemory.env decode size).
Proof.
  intros cmds s rs s'. simpl. destruct (InMemory.pipelines s); [|done].
  pose proof (length_execute_all cmds s) as Hlen.
  destruct (InMemory.execute_all cmds s) as [rs' s1]. by intros [= <- _].
Qed.

Lemma write_consumes_count_witness :
  let env := InMemory.env InMemory.no_json InMemory.str_size in
  ∃ written self' w',
    FastWriter.write_pipeline_batches (H := env) 20 10 2 (InMemory.writer, InMemory.start true [])
    = (Ret (written, 0), (self', w'))
    ∧ FastWriter.current_key_id self' = 5.
Proof.
  intros env.
  destruct (write_consumes_count (H := env) 20 10 2 InMemory.writer (InMemory.start true [])
              samples_complete ltac:(lia) ltac:(lia))
    as (written & self' & w' & Hrun & Hcur).
  exists written, self', w'. split; [done|]. rewrite Hcur. reflexivity.
Defined.

Lemma missing_sample_loses_batch_witness :
  let env := InMemory.env InMemory.no_json InMemory.str_size in
  ∃ self' w',
    FastWriter.write_pipeline_batches (H := env) 20 10 2
      (Behaviour.bare_writer, InMemory.start true [])
    = (Exc KeyError, (self', w'))
    ∧ FastWriter.sample_keys Behaviour.bare_writer
        !! str_int ((FastWriter.current_key_id self' - 1) mod 100) = None.
Proof.
  intros env.
  destruct (FastWriter.write_pipeline_batches 20 10 2
              (Behaviour.bare_writer, InMemory.start true []))
    as [r [self' w']] eqn:Hrun.
  assert (r = Exc KeyError) as -> by (vm_compute in Hrun; by injection Hrun as <- _ _).
  exists self', w'. split; [done|].
  apply (missing_sample_loses_batch (H := env) 20 10 2 Behaviour.bare_writer
           (InMemory.start true []) KeyError self' w' Hrun).
Defined.

Lemma pipelines_cover_consumed_ids_witness :
  let env := InMemory.env InMemory.no_json InMemory.str_size in
  (∃ r self' w' evs,
     FastWriter.write_pipeline_batches (H := env) 20 10 2 (InMemory.writer, InMemory.start true [])
     = (r, (self', w'))
     ∧ log w' = log (InMemory.start true []) ++ evs
     ∧ Spec.pipeline_keys evs
       = Spec.keys_of_ids "v22" 0 (FastWriter.current_key_id self' - 0))
  ∧ (∃ self' w',
       FastWriter.write_pipeline_batches (H := env) 20 10 2
         (Behaviour.writer_without_ttl, InMemory.start true [])
       = (Ret (0, 0), (self', w'))
       ∧ FastWriter.current_key_id self' = 5
       ∧ log w' = []).
Proof.
  intros env. split.
  - destruct (write_loop_exact (H := env) 20 2 10 0 0 InMemory.writer (InMemory.start true [])
                samples_complete ltac:(lia) ltac:(lia))
      as (written & self' & w' & Hrun & _).
    destruct (pipelines_cover_consumed_ids (H := env) 20 10 2 InMemory.writer
                (InMemory.start true []) _ self' w' Hrun ltac:(done))
      as (evs & Hlog & Hkeys & _).
    exists (Ret (written, 0)), self', w', evs. split; [done|]. split; [done|].
    exact (Hkeys 259200 eq_refl).
  - destruct (write_loop_exact (H := env) 20 2 10 0 0 Behaviour.writer_without_ttl
                (InMemory.start true []) samples_complete ltac:(lia) ltac:(lia))
      as (written & self' & w' & Hrun & _ & _ & Hcur).
    destruct (pipelines_cover_consumed_ids (H := env) 20 10 2 Behaviour.writer_without_ttl
                (InMemory.start true []) _ self' w' Hrun ltac:(done))
      as (evs & Hlog & _ & Hnone).
    destruct (Hnone eq_refl) as [-> Hzero].
    rewrite (Hzero written 0 eq_refl) in Hrun.
    exists self', w'. split; [done|]. split; [rewrite Hcur; reflexivity|]. exact Hlog.
Defined.

Lemma requests_write_entries_witness :
  let env := InMemory.env InMemory.no_json InMemory.str_size in
  ∃ r self' w' evs,
    FastWriter.write_pipeline_batches (H := env) 20 10 2 (InMemory.writer, InMemory.start false [])
    = (r, (self', w'))
    ∧ log w' = log (InMemory.start false []) ++ evs
    ∧ Forall (Behaviour.sends_entries InMemory.writer 0 (FastWriter.current_key_id self') 2) evs.
Proof.
  intros env.
  destruct (FastWriter.write_pipeline_batches 20 10 2 (InMemory.writer, InMemory.start false []))
    as [r [self' w']] eqn:Hrun.
  destruct (requests_write_entries (H := env) 20 10 2 InMemory.writer
              (InMemory.start false []) r self' w' Hrun) as (evs & Hlog & Hall).
  by exists r, self', w', evs.
Defined.

Lemma written_within_consumed_witness :
  let env := InMemory.env InMemory.no_json InMemory.str_size in
  ∃ r self' w',
    FastWriter.write_pipeline_batches (H := env) 20 10 2 (InMemory.writer, InMemory.start true [])
    = (r, (self', w'))
    ∧ FastWriter.current_key_id self' - 0 ≤ 10.
Proof.
  intros env.
  destruct (FastWriter.write_pipeline_batches 20 10 2 (InMemory.writer, InMemory.start true []))
    as [r [self' w']] eqn:Hrun.
  exists r, self', w'. split; [done|].
  apply (written_within_consumed (H := env) 20 10 2 InMemory.writer (InMemory.start true [])
           r self' w' (in_memory_replies_match _ _) Hrun).
Defined.

Lemma nonpositive_batch_size_stalls_witness :
  let env := InMemory.env InMemory.no_json InMemory.str_size in
  FastWriter.write_pipeline_batches (H := env) 20 10 0 (InMemory.writer, InMemory.start true [])
  = (Diverged, (InMemory.writer, InMemory.start true [])).
Proof.
  intros env.
  exact (nonpositive_batch_size_stalls (H := env) 19 10 0 InMemory.writer
           (InMemory.start true []) ltac:(lia)).
Defined.

Lemma run_counts_within_consumed_witness :
  let env := InMemory.env InMemory.no_json InMemory.str_size in
  ∃ r self' w',
    FastWriter.run_continuous (H := env) 200 (Some 3) None
      (InMemory.writer, InMemory.start true [])
    = (r, (self', w'))
    ∧ 0 ≤ FastWriter.keys_written self'
    ∧ FastWriter.keys_written self' - 0 ≤ FastWriter.current_key_id self' - 0.
Proof.
  intros env.
  destruct (FastWriter.run_continuous 200 (Some 3) None (InMemory.writer, InMemory.start true []))
    as [r [self' w']] eqn:Hrun.
  exists r, self', w'. split; [done|].
  apply (run_counts_within_consumed (H := env) 200 (Some 3) None InMemory.writer
           (InMemory.start true []) r self' w' (in_memory_replies_match _ _) Hrun).
Defined.

Lemma run_overshoots_target_by_less_than_100_witness :
  let env := InMemory.env InMemory.no_json InMemory.str_size in
  ∃ r self' w',
    FastWriter.run_continuous (H := env) 200 (Some 3) None
      (InMemory.writer, InMemory.start true [])
    = (r, (self', w'))
    ∧ FastWriter.keys_written self' ≤ Z.max 0 (3 + 99).
Proof.
  intros env.
  destruct (FastWriter.run_continuous 200 (Some 3) None (InMemory.writer, InMemory.start true []))
    as [r [self' w']] eqn:Hrun.
  exists r, self', w'. split; [done|].
  apply (run_overshoots_target_by_less_than_100 (H := env) 200 3 None InMemory.writer
           (InMemory.start true []) r self' w' (in_memory_replies_match _ _) ltac:(lia) Hrun).
Defined.

Lemma run_returns_for_a_reason_witness :
  let env := InMemory.env InMemory.no_json InMemory.str_size in
  ∃ self' w',
    FastWriter.run_continuous (H := env) 200 (Some 3) None
      (InMemory.writer, InMemory.start true [])
    = (Ret (), (self', w'))
    ∧ FastWriter.keys_written self' + FastWriter.keys_skipped self' ≠ 0.
Proof.
  intros env.
  destruct (FastWriter.run_continuous 200 (Some 3) None (InMemory.writer, InMemory.start true []))
    as [r [self' w']] eqn:Hrun.
  assert (r = Ret ()) as -> by (vm_compute in Hrun; by injection Hrun as <- _ _).
  exists self', w'. split; [done|].
  apply (run_returns_for_a_reason (H := env) 200 (Some 3) None InMemory.writer
           (InMemory.start true []) self' w' Hrun).
Defined.

Lemma run_on_exhausted_key_space_witness :
  let env := InMemory.env InMemory.no_json InMemory.str_size in
  ∃ self',
    FastWriter.run_continuous (H := env) 200 (Some 3) None
      (FastWriter.set_current_key_id 5 InMemory.writer, InMemory.start true [])
    = (Exc ZeroDivisionError, (self', InMemory.start true [])).
Proof.
  intros env.
  destruct (run_on_exhausted_key_space (H := env) 199 (Some 3) None
              (FastWriter.set_current_key_id 5 InMemory.writer) (InMemory.start true [])
              ltac:(simpl; lia))
    as (r & self' & Hrun & _ & _ & Hzero).
  exists self'. rewrite Hrun. by rewrite Hzero.
Defined.

Lemma run_continuous_ends_witness :
  let env := InMemory.env InMemory.no_json InMemory.str_size in
  (FastWriter.run_continuous (H := env) 200 (Some 3) None
     (InMemory.writer, InMemory.start true [])).1 ≠ Diverged.
Proof.
  intros env.
  apply (run_continuous_ends (H := env) 200 (Some 3) None InMemory.writer
           (InMemory.start true []) samples_complete).
  simpl. lia.
Defined.

Lemma run_requests_write_entries_witness :
  let env := InMemory.env InMemory.no_json InMemory.str_size in
  ∃ r self' w' evs,
    FastWriter.run_continuous (H := env) 200 (Some 3) None
      (InMemory.writer, InMemory.start false [])
    = (r, (self', w'))
    ∧ log w' = log (InMemory.start false []) ++ evs
    ∧ Forall (Behaviour.sends_entries InMemory.writer 0 (FastWriter.current_key_id self') 50) evs.
Proof.
  intros env.
  destruct (FastWriter.run_continuous 200 (Some 3) None (InMemory.writer, InMemory.start false []))
    as [r [self' w']] eqn:Hrun.
  destruct (run_requests_write_entries (H := env) 200 (Some 3) None InMemory.writer
              (InMemory.start false []) r self' w' Hrun) as (evs & Hlog & Hall).
  by exists r, self', w', evs.
Defined.

(** ** Store keys *)

Section Keys.
Import Behaviour.

Lemma colon_free_no_colon x y : ¬ colon_free (x +:+ ":" +:+ y).
Proof. induction x as [|c x IH]; simpl; [by intros [? _]|by intros [_ ?]]. Qed.

Lemma append_colon_inj v1 v2 d1 d2 :
  colon_free d1 → colon_free d2 →
  v1 +:+ ":" +:+ d1 = v2 +:+ ":" +:+ d2 → v1 = v2 ∧ d1 = d2.
Proof.
  intros H1 H2. revert v2. induction v1 as [|c v1 IH]; intros [|c' v2] Heq.
  - injection Heq as Heq. split; [done|exact Heq].
  - injection Heq as _ Heq. change (d1 = v2 +:+ ":" +:+ d2) in Heq. subst d1.
    by apply colon_free_no_colon in H1.
  - injection Heq as _ Heq. change (v1 +:+ ":" +:+ d1 = d2) in Heq. subst d2.
    by apply colon_free_no_colon in H2.
  - injection Heq as -> Heq. by apply IH in Heq as [-> ->].
Qed.

Lemma colon_free_uint d : colon_free (NilEmpty.string_of_uint d).
Proof. induction d; simpl; try done; split; done. Qed.

Lemma colon_free_str_int z : colon_free (str_int z).
Proof.
  unfold str_int, NilZero.string_of_int, NilZero.string_of_uint.
  destruct (Z.to_int z) as [d|d]; [|split; [done|]]; destruct d; try apply colon_free_uint;
    simpl; done.
Qed.

Lemma create_redis_key_simple_eq id1 version1 id2 version2 :
  NetworkUtils.create_redis_key_simple id1 version1
  = NetworkUtils.create_redis_key_simple id2 version2 →
  id1 = id2 ∧ version1 = version2.
Proof.
  unfold NetworkUtils.create_redis_key_simple. intros Heq.
  apply append_inj_r in Heq.
  apply append_colon_inj in Heq as [-> Hid]; try apply colon_free_str_int.
  by apply str_int_inj in Hid as ->.
Qed.

(** X13. [create_redis_key_simple] is injective in the pair of the id and
    the version, whatever the version string: two store keys are equal
    only for the same id and the same version. *)
Theorem create_redis_key_simple_injective id1 version1 id2 version2 :
  NetworkUtils.create_redis_key_simple id1 version1
  = NetworkUtils.create_redis_key_simple id2 version2 →
  id1 = id2 ∧ version1 = version2.
Proof. apply create_redis_key_simple_eq. Qed.

End Keys.

Lemma create_redis_key_simple_injective_witness :
  NetworkUtils.create_redis_key_simple 12 "v2" = NetworkUtils.create_redis_key_simple 12 "v2"
  ∧ 12 = 12 ∧ "v2" = "v2".
Proof.
  split; [reflexivity|].
  exact (create_redis_key_simple_injective 12 "v2" 12 "v2" eq_refl).
Defined.

(** ** The parallel writers *)

Section WorkerBehaviour.
Import Spec Behaviour ParallelWriter.
Context {W : Type} `{Env W}.

Lemma sends_entries_keys self lo hi hi' batch_size ev :
  hi ≤ hi' → sends_entries self lo hi batch_size ev →
  is_write ev ∧ Forall (key_in_range (FastWriter.version self) lo hi') (event_keys ev).
Proof.
  intros Hhi.
  assert (∀ key ttl value, writes_entry self lo hi (CmdSetex key ttl value) →
                           key_in_range (FastWriter.version self) lo hi' key) as Hkey.
  { intros key ttl value (_ & id & Hid & He). exists id. split; [lia|].
    unfold entry_of in He. destruct (_ !! _); [|done]. by injection He as <- _. }
  destruct ev as [key|key ttl value|cmds]; simpl; [done| |].
  - intros Hw. split; [done|]. repeat constructor. by eapply Hkey.
  - intros (_ & _ & Hall). split.
    + eapply Forall_impl; [exact Hall|]. by intros [key|key ttl value].
    + apply Forall_fmap. eapply Forall_impl; [exact Hall|].
      intros [key|key ttl value]; [done|]. simpl. apply Hkey.
Qed.

Lemma request_keys_Forall (P : string → Prop) evs :
  Forall (λ ev, Forall P (event_keys ev)) evs → Forall P (request_keys evs).
Proof.
  unfold request_keys. induction 1 as [|ev evs Hev _ IH]; [constructor|].
  change (Forall P (event_keys ev ++ (evs ≫= event_keys))). by apply Forall_app.
Qed.

(** What a run of [run_continuous] with a target leaves: its requests and
    its counters. *)
Lemma run_in_range fuel target_keys self (w : world W) r self' w' :
  FastWriter.run_continuous fuel target_keys None (self, w) = (r, (self', w')) →
  ∃ evs, log w' = log w ++ evs
    ∧ Forall is_write evs
    ∧ Forall (key_in_range (FastWriter.version self) (FastWriter.current_key_id self)
                (FastWriter.max_daily_keys self)) (request_keys evs)
    ∧ FastWriter.keys_skipped self' = FastWriter.keys_skipped self
    ∧ (r ≠ Diverged → replies_match W →
       FastWriter.keys_written self ≤ FastWriter.keys_written self'
       ∧ FastWriter.keys_written self' - FastWriter.keys_written self
         ≤ Z.max 0 (FastWriter.max_daily_keys self - FastWriter.current_key_id self)).
Proof.
  intros Hrun.
  pose proof (run_continuous_cursor_ok fuel target_keys None (self, w)) as (Hmax & Hle & Hbound).
  pose proof (run_continuous_keeps_skipped fuel target_keys None (self, w)) as Hsk.
  rewrite Hrun in Hmax, Hle, Hbound, Hsk. unfold keeps in Hsk. simpl in *.
  apply run_continuous_inv in Hrun as (r0 & Hloop & Hr0).
  assert (FastWriter.max_daily_keys self < FastWriter.current_key_id self → r ≠ Diverged →
          FastWriter.current_key_id self' = FastWriter.current_key_id self
          ∧ FastWriter.keys_written self' = FastWriter.keys_written self) as Hpast.
  { intros Hlt Hr. destruct fuel as [|fuel].
    - injection Hloop as _ <- _. done.
    - destruct (continuous_loop_at_bound fuel target_keys None (time_now (server w)) self w
                  ltac:(lia)) as (self0 & Hloop' & Hself0).
      rewrite Hloop' in Hloop. injection Hloop as _ <- _. by destruct Hself0 as [->| ->]. }
  pose proof Hloop as Hsends.
  apply continuous_loop_sends in Hsends as (_ & _ & _ & _ & evs & Hlog & Hall).
  exists evs. split; [done|].
  assert (FastWriter.current_key_id self'
          ≤ Z.max (FastWriter.current_key_id self) (FastWriter.max_daily_keys self)
          ∨ evs = []) as Hcur.
  { destruct (Z.le_gt_cases (FastWriter.current_key_id self) (FastWriter.max_daily_keys self))
      as [Hin|Hout]; [left; lia|].
    destruct fuel as [|fuel].
    - injection Hloop as _ <- _. left. lia.
    - destruct (continuous_loop_at_bound fuel target_keys None (time_now (server w)) self w
                  ltac:(lia)) as (self0 & Hloop' & Hself0).
      rewrite Hloop' in Hloop. injection Hloop as _ <- _. left.
      destruct Hself0 as [->| ->]; simpl; lia. }
  assert (Forall (λ ev, is_write ev
                        ∧ Forall (key_in_range (FastWriter.version self)
                                    (FastWriter.current_key_id self)
                                    (FastWriter.max_daily_keys self)) (event_keys ev)) evs)
    as Hevs.
  { destruct Hcur as [Hcur| ->]; [|constructor].
    eapply Forall_impl; [exact Hall|]. intros ev Hev.
    destruct (Z.le_gt_cases (FastWriter.current_key_id self') (FastWriter.max_daily_keys self))
      as [Hin|Hout]; [exact (sends_entries_keys _ _ _ _ _ _ Hin Hev)|].
    assert (FastWriter.current_key_id self' = FastWriter.current_key_id self) as Heq by lia.
    rewrite Heq in Hev. exfalso. clear -Hev.
    destruct ev as [key|key ttl value|cmds]; simpl in Hev; [done| |].
    - destruct Hev as (_ & id & Hid & _). lia.
    - destruct Hev as (Hne & _ & Hcmds). destruct Hcmds as [|c cmds Hc _]; [done|].
      destruct c as [key|key ttl value]; [done|]. destruct Hc as (_ & id & Hid & _). lia. }
  split; [eapply Forall_impl; [exact Hevs|]; by intros ev [? _]|].
  split; [apply request_keys_Forall; eapply Forall_impl; [exact Hevs|]; by intros ev [_ ?]|].
  split; [done|]. intros Hr Hrm.
  apply continuous_loop_accounting in Hloop as (Hkw & Hcnt & _); [|done].
  destruct (Z.le_gt_cases (FastWriter.current_key_id self) (FastWriter.max_daily_keys self))
    as [Hin|Hout]; [specialize (Hbound Hin); lia|].
  destruct (Hpast Hout Hr) as [Hc Hk]. lia.
Qed.

(** The cases of [_create_writer_for_range]. *)
Lemma create_writer_for_range_inv fuel env skip_probability writer_id start_key end_key version
    (w : world W) r w' :
  ParallelWriterRun._create_writer_for_range fuel env skip_probability
    writer_id start_key end_key version w = (r, w') →
  (w' = w
   ∧ (r = ParallelWriterRun.Returns
            (ParallelWriterRun.failed_stats writer_id start_key end_key version)
      ∨ r = ParallelWriterRun.SystemExit 1))
  ∨ ∃ samples r0 self',
      FastWriter.run_continuous fuel (Some (end_key - start_key)) None
        (ParallelWriterRun.range_writer env skip_probability start_key end_key version
           (time_now (server w)) samples, w) = (r0, (self', w'))
      ∧ (r0 = Diverged ↔ r = ParallelWriterRun.Unfinished)
      ∧ ∀ stats, r = ParallelWriterRun.Returns stats →
          stats = ParallelWriterRun.failed_stats writer_id start_key end_key version
          ∨ (ParallelWriterRun.writer_id stats = writer_id
             ∧ ParallelWriterRun.start_key stats = start_key
             ∧ ParallelWriterRun.end_key stats = end_key
             ∧ ParallelWriterRun.version stats = version
             ∧ ParallelWriterRun.keys_written stats = FastWriter.keys_written self'
             ∧ ParallelWriterRun.keys_skipped stats = FastWriter.keys_skipped self').
Proof.
  unfold ParallelWriterRun._create_writer_for_range.
  destruct (ParallelWriterRun.constructor env) as [samples| |];
    [|intros [= <- <-]; left; split; [done|by left]
     |intros [= <- <-]; left; split; [done|by right]].
  destruct (FastWriter.run_continuous _ _ _ _) as [r0 [self' w1]] eqn:Hrun.
  intros Hr. right. exists samples, r0, self'.
  destruct r0 as [[]|e|].
  - destruct (PrimFloat.eqb _ _); injection Hr as <- <-; (split; [done|]);
      (split; [done|]); intros stats [= <-]; [by left|by right].
  - injection Hr as <- <-. split; [done|]. split; [done|]. intros stats [= <-]. by left.
  - injection Hr as <- <-. split; [done|]. split; [done|]. done.
Qed.

(** The requests of a writer of a range. *)
Lemma create_writer_for_range_requests fuel env skip_probability writer_id start_key end_key
    version (w : world W) r w' :
  ParallelWriterRun._create_writer_for_range fuel env skip_probability
    writer_id start_key end_key version w = (r, w') →
  ∃ evs, log w' = log w ++ evs
    ∧ Forall is_write evs
    ∧ Forall (key_in_range version start_key end_key) (request_keys evs).
Proof.
  intros Hrun.
  apply create_writer_for_range_inv in Hrun as [[-> _]|(samples & r0 & self' & Hrun & _)].
  { exists []. rewrite app_nil_r. repeat split; constructor. }
  apply run_in_range in Hrun as (evs & Hlog & Hwr & Hkeys & _). by exists evs.
Qed.

(** X14. A writer of [_create_writer_for_range], however it ends, only
    writes, and only keys of its own version with ids of its own range
    [[start_key, end_key)]: it sends no read, and no key of another range
    or version. *)
Theorem writer_stays_in_its_range fuel env skip_probability writer_id start_key end_key
    version (w : world W) r w' :
  ParallelWriterRun._create_writer_for_range fuel env skip_probability
    writer_id start_key end_key version w = (r, w') →
  ∃ evs, log w' = log w ++ evs
    ∧ Forall is_write evs
    ∧ Forall (key_in_range version start_key end_key) (request_keys evs).
Proof. apply create_writer_for_range_requests. Qed.

(** The statistics of a writer of a range. *)
Lemma create_writer_for_range_stats fuel env skip_probability writer_id start_key end_key
    version (w : world W) stats w' :
  replies_match W →
  ParallelWriterRun._create_writer_for_range fuel env skip_probability
    writer_id start_key end_key version w = (ParallelWriterRun.Returns stats, w') →
  ParallelWriterRun.writer_id stats = writer_id
  ∧ ParallelWriterRun.start_key stats = start_key
  ∧ ParallelWriterRun.end_key stats = end_key
  ∧ ParallelWriterRun.version stats = version
  ∧ ParallelWriterRun.keys_skipped stats = 0
  ∧ 0 ≤ ParallelWriterRun.keys_written stats ≤ Z.max 0 (end_key - start_key).
Proof.
  intros Hrm Hrun.
  apply create_writer_for_range_inv in Hrun
    as [[_ [[= ->]|[=]]]|(samples & r0 & self' & Hrun & Hdiv & Hstats)].
  { simpl. repeat split; try done; lia. }
  destruct (Hstats stats eq_refl) as [->|(-> & -> & -> & -> & Hkw & Hks)].
  { simpl. repeat split; try done; lia. }
  apply run_in_range in Hrun as (evs & _ & _ & _ & Hskip & Hcount).
  destruct Hcount as [Hle Hcnt]; [|done|].
  { intros Hd. by apply Hdiv in Hd. }
  simpl in *. rewrite Hkw, Hks. repeat split; try done; lia.
Qed.

(** X15. The statistics a writer of [_create_writer_for_range] returns
    name its id, range and version, report no skipped key, and report a
    number of written keys between 0 and the size of the range.  The
    server is taken to answer a pipeline with one result per command. *)
Theorem writer_stats_within_range fuel env skip_probability writer_id start_key end_key
    version (w : world W) stats w' :
  replies_match W →
  ParallelWriterRun._create_writer_for_range fuel env skip_probability
    writer_id start_key end_key version w = (ParallelWriterRun.Returns stats, w') →
  ParallelWriterRun.writer_id stats = writer_id
  ∧ ParallelWriterRun.start_key stats = start_key
  ∧ ParallelWriterRun.end_key stats = end_key
  ∧ ParallelWriterRun.version stats = version
  ∧ ParallelWriterRun.keys_skipped stats = 0
  ∧ 0 ≤ ParallelWriterRun.keys_written stats ≤ Z.max 0 (end_key - start_key).
Proof. apply create_writer_for_range_stats. Qed.

Lemma chained_ordered a ts b (i j : nat) t t' :
  chained a ts b → ts !! i = Some t → ts !! j = Some t' → (i < j)%nat →
  a ≤ start_key t ∧ end_key t ≤ start_key t' ∧ end_key t' ≤ b.
Proof.
  intros Hc. revert i j. induction Hc as [a|a t0 ts b Hstart Hle Hc IH]; intros i j Hi Hj Hij.
  { done. }
  destruct j as [|j]; [lia|]. simpl in Hj.
  assert (∀ k t1, ts !! k = Some t1 → end_key t0 ≤ start_key t1 ∧ end_key t1 ≤ b) as Hlater.
  { clear -Hc. generalize dependent (end_key t0). intros a0 Hc.
    induction Hc as [a|a t1 ts b Hstart Hle Hc IH]; intros k t2 Hk; [done|].
    destruct k as [|k]; simpl in Hk.
    - injection Hk as <-. apply chained_le in Hc. lia.
    - apply IH in Hk. lia. }
  destruct i as [|i]; simpl in Hi.
  - injection Hi as <-. apply Hlater in Hj. lia.
  - destruct (IH i j Hi Hj ltac:(lia)) as (? & ? & ?). lia.
Qed.

(** X16. Two writers of different tasks of one import, or of the same
    ranges in different versions, never send a common key, from whatever
    states of the server they run and however they end. *)
Theorem writers_send_disjoint_keys target_keys num_writers tasks (i j : nat) t1 t2
    version1 version2 fuel1 fuel2 env1 env2 skip1 skip2 (w1 w2 : world W) r1 r2 w1' w2'
    evs1 evs2 :
  0 ≤ target_keys →
  submitted_tasks target_keys num_writers = Ret tasks →
  tasks !! i = Some t1 → tasks !! j = Some t2 →
  i ≠ j ∨ version1 ≠ version2 →
  ParallelWriterRun._create_writer_for_range fuel1 env1 skip1
    (writer_id t1) (start_key t1) (end_key t1) version1 w1 = (r1, w1') →
  ParallelWriterRun._create_writer_for_range fuel2 env2 skip2
    (writer_id t2) (start_key t2) (end_key t2) version2 w2 = (r2, w2') →
  log w1' = log w1 ++ evs1 → log w2' = log w2 ++ evs2 →
  ∀ key, key ∈ request_keys evs1 → key ∈ request_keys evs2 → False.
Proof.
  intros HT Htasks Hi Hj Hne Hrun1 Hrun2 Hlog1 Hlog2 key Hin1 Hin2.
  apply create_writer_for_range_requests in Hrun1 as (evs1' & Hlog1' & _ & Hk1).
  apply create_writer_for_range_requests in Hrun2 as (evs2' & Hlog2' & _ & Hk2).
  rewrite Hlog1 in Hlog1'. apply app_inv_head in Hlog1' as <-.
  rewrite Hlog2 in Hlog2'. apply app_inv_head in Hlog2' as <-.
  apply (proj1 (Forall_forall _ _) Hk1) in Hin1 as (id1 & Hid1 & ->).
  apply (proj1 (Forall_forall _ _) Hk2) in Hin2 as (id2 & Hid2 & Heq).
  apply create_redis_key_simple_eq in Heq as [<- <-].
  destruct Hne as [Hne|Hne]; [|done].
  unfold submitted_tasks in Htasks.
  destruct (Z.eqb_spec num_writers 0); [done|].
  destruct (Z.ltb_spec num_writers 0); [done|]. injection Htasks as <-.
  pose proof (submitted_tasks_chained target_keys num_writers HT ltac:(lia)) as Hc.
  destruct (Nat.lt_total i j) as [Hlt|[->|Hgt]]; [|done|].
  - destruct (chained_ordered _ _ _ i j t1 t2 Hc Hi Hj Hlt) as (_ & ? & _). lia.
  - destruct (chained_ordered _ _ _ j i t2 t1 Hc Hj Hi Hgt) as (_ & ? & _). lia.
Qed.

(** A writer whose range is empty: unless the connection fails, the
    rates printed at the end of the run divide by the zero attempts, and
    the handler returns the defaults. *)
Lemma create_writer_for_empty_range fuel env skip_probability writer_id start_key end_key
    version (w : world W) :
  end_key ≤ start_key →
  ParallelWriterRun._create_writer_for_range (S fuel) env skip_probability
    writer_id start_key end_key version w
  = (match ParallelWriterRun.constructor env with
     | ParallelWriterRun.Exits => ParallelWriterRun.SystemExit 1
     | _ => ParallelWriterRun.Returns
              (ParallelWriterRun.failed_stats writer_id start_key end_key version)
     end, w).
Proof.
  intros Hle. unfold ParallelWriterRun._create_writer_for_range.
  destruct (ParallelWriterRun.constructor env) as [samples| |]; [|done..].
  set (self := ParallelWriterRun.range_writer _ _ _ _ _ _ _).
  destruct (continuous_loop_at_bound fuel (Some (end_key - start_key)) None
              (time_now (server w)) self w ltac:(simpl; lia)) as (self0 & Hloop & Hself0).
  assert (FastWriter.run_continuous (S fuel) (Some (end_key - start_key)) None (self, w)
          = (Exc ZeroDivisionError, (self0, w))) as ->.
  { unfold FastWriter.run_continuous. unfold bind at 1, now at 1. cbn beta iota.
    unfold bind at 1. rewrite Hloop. rewrite print_final_stats_spec.
    replace (FastWriter.keys_written self0 + FastWriter.keys_skipped self0) with 0
      by (by destruct Hself0 as [->| ->]).
    simpl. by rewrite orb_true_r. }
  done.
Qed.

(** X17. When an import has fewer keys than writers, every writer but the
    last gets the empty range at 0 and the last one gets all the keys.  A
    writer of an empty range sends nothing, whatever the server holds, and
    it ends as soon as its loop has run once: with the default statistics
    when its [FastWriter] was constructed (the rates printed at the end
    divide by zero) or the constructor raised, and with [SystemExit] when
    the connection failed. *)
Theorem fewer_keys_than_writers target_keys num_writers tasks (i : nat) t
    fuel env skip_probability version (w : world W) :
  0 ≤ target_keys < num_writers →
  submitted_tasks target_keys num_writers = Ret tasks →
  tasks !! i = Some t →
  start_key t = 0
  ∧ end_key t = (if decide (Z.of_nat i = num_writers - 1) then target_keys else 0)
  ∧ (Z.of_nat i ≠ num_writers - 1 →
     ParallelWriterRun._create_writer_for_range (S fuel) env skip_probability
       (writer_id t) (start_key t) (end_key t) version w
     = (match ParallelWriterRun.constructor env with
        | ParallelWriterRun.Exits => ParallelWriterRun.SystemExit 1
        | _ => ParallelWriterRun.Returns
                 (ParallelWriterRun.failed_stats (writer_id t) 0 0 version)
        end, w)).
Proof.
  intros HT Htasks Hi.
  unfold submitted_tasks in Htasks.
  destruct (Z.eqb_spec num_writers 0); [lia|].
  destruct (Z.ltb_spec num_writers 0); [lia|]. injection Htasks as <-.
  apply task_for_lookup in Hi as [-> Hlt].
  assert (target_keys / num_writers = 0) as Hdiv by (apply Z.div_small; lia).
  assert (target_keys mod num_writers = target_keys) as Hmod by (apply Z.mod_small; lia).
  assert (start_key (task_for target_keys num_writers (Z.of_nat i)) = 0) as Hstart
    by (simpl; rewrite Hdiv; lia).
  assert (end_key (task_for target_keys num_writers (Z.of_nat i))
          = if decide (Z.of_nat i = num_writers - 1) then target_keys else 0) as Hend.
  { simpl. rewrite Hdiv, Hmod.
    destruct (Z.eqb_spec (Z.of_nat i) (num_writers - 1)); destruct (decide _); lia. }
  split; [done|]. split; [done|]. intros Hnot.
  destruct (decide _) as [|_]; [done|].
  rewrite create_writer_for_empty_range by lia.
  by rewrite Hstart, Hend.
Qed.

Lemma chained_sum a ts b :
  chained a ts b →
  foldr Z.add 0 ((λ t, Z.max 0 (end_key t - start_key t)) <$> ts) = b - a.
Proof.
  induction 1 as [a|a t ts b Hstart Hle Hc IH]; [simpl; lia|].
  rewrite fmap_cons. cbn [foldr]. rewrite IH. lia.
Qed.

Lemma submseteq_sum {A} (f : A → Z) (l1 l2 : list A) :
  (∀ x, 0 ≤ f x) → l1 ⊆+ l2 → foldr Z.add 0 (f <$> l1) ≤ foldr Z.add 0 (f <$> l2).
Proof.
  intros Hf.
  induction 1 as [|x l1 l2 _ IH|x y l|x l1 l2 _ IH|l1 l2 l3 _ IH1 _ IH2];
    rewrite ?fmap_cons; cbn [foldr].
  - simpl. lia.
  - lia.
  - lia.
  - specialize (Hf x). lia.
  - lia.
Qed.

(** X18. The totals of an import: whichever writers of the submitted
    tasks have completed, and in whatever order, the sum of the written
    keys they report lies between 0 and the target, and the sum of the
    skipped keys is 0.  The server is taken to answer a pipeline with one
    result per command. *)
Theorem import_total_within_target target_keys num_writers tasks version
    completed_tasks completed_stats :
  replies_match W →
  0 ≤ target_keys →
  submitted_tasks target_keys num_writers = Ret tasks →
  completed_tasks ⊆+ tasks →
  Forall2 (reported_for version) completed_stats completed_tasks →
  0 ≤ ParallelWriterRun.total_keys_written completed_stats ≤ target_keys
  ∧ ParallelWriterRun.total_keys_skipped completed_stats = 0.
Proof.
  intros Hrm HT Htasks Hsub Hrep.
  unfold submitted_tasks in Htasks.
  destruct (Z.eqb_spec num_writers 0); [done|].
  destruct (Z.ltb_spec num_writers 0); [done|]. injection Htasks as <-.
  pose proof (chained_sum _ _ _ (submitted_tasks_chained target_keys num_writers HT ltac:(lia)))
    as Hsum.
  pose proof (submseteq_sum (λ t, Z.max 0 (end_key t - start_key t)) _ _ ltac:(lia) Hsub) as Hle.
  rewrite Hsum in Hle. clear Hsum Hsub.
  unfold ParallelWriterRun.total_keys_written, ParallelWriterRun.total_keys_skipped.
  assert (0 ≤ foldr Z.add 0 (ParallelWriterRun.keys_written <$> completed_stats)
          ≤ foldr Z.add 0 ((λ t, Z.max 0 (end_key t - start_key t)) <$> completed_tasks)
          ∧ foldr Z.add 0 (ParallelWriterRun.keys_skipped <$> completed_stats) = 0) as Hall.
  { clear Hle. induction Hrep as [|stats t sts ts Hst _ IH]; [simpl; lia|].
    rewrite !fmap_cons. cbn [foldr].
    destruct Hst as (fuel & env & skip & w & w' & Hrun).
    apply create_writer_for_range_stats in Hrun as (_ & _ & _ & _ & Hsk & Hkw); [|done].
    lia. }
  lia.
Qed.

End WorkerBehaviour.

Lemma writer_stays_in_its_range_witness :
  let env := InMemory.env InMemory.no_json InMemory.str_size in
  ∃ r w' evs,
    ParallelWriterRun._create_writer_for_range (H := env) 200 Behaviour.setup 0.05 2 3 6 "v23"
      (InMemory.start true []) = (r, w')
    ∧ log w' = log (InMemory.start true []) ++ evs
    ∧ Forall (Behaviour.key_in_range "v23" 3 6) (Behaviour.request_keys evs).
Proof.
  intros env.
  destruct (ParallelWriterRun._create_writer_for_range 200 Behaviour.setup 0.05 2 3 6 "v23"
              (InMemory.start true [])) as [r w'] eqn:Hrun.
  destruct (writer_stays_in_its_range (H := env) 200 Behaviour.setup 0.05 2 3 6 "v23"
              (InMemory.start true []) r w' Hrun) as (evs & Hlog & _ & Hkeys).
  by exists r, w', evs.
Defined.

Lemma writer_stats_within_range_witness :
  let env := InMemory.env InMemory.no_json InMemory.str_size in
  ∃ stats w',
    ParallelWriterRun._create_writer_for_range (H := env) 200 Behaviour.setup 0.05 2 3 6 "v23"
      (InMemory.start true []) = (ParallelWriterRun.Returns stats, w')
    ∧ 0 ≤ ParallelWriterRun.keys_written stats ≤ Z.max 0 (6 - 3).
Proof.
  intros env.
  destruct (ParallelWriterRun._create_writer_for_range 200 Behaviour.setup 0.05 2 3 6 "v23"
              (InMemory.start true [])) as [r w'] eqn:Hrun.
  assert (∃ stats, r = ParallelWriterRun.Returns stats) as [stats ->]
    by (vm_compute in Hrun; injection Hrun as <- _; by eexists).
  exists stats, w'. split; [done|].
  apply (writer_stats_within_range (H := env) 200 Behaviour.setup 0.05 2 3 6 "v23"
           (InMemory.start true []) stats w' (in_memory_replies_match _ _) Hrun).
Defined.

Lemma writers_send_disjoint_keys_witness :
  let env := InMemory.env InMemory.no_json InMemory.str_size in
  ∃ r1 w1' r2 w2',
    ParallelWriterRun._create_writer_for_range (H := env) 200 Behaviour.setup 0.05 1 0 3 "v23"
      (InMemory.start true []) = (r1, w1')
    ∧ ParallelWriterRun._create_writer_for_range (H := env) 200 Behaviour.setup 0.05 2 3 6 "v23"
        (InMemory.start true []) = (r2, w2')
    ∧ ∀ key, key ∈ Behaviour.request_keys (log w1') →
             key ∈ Behaviour.request_keys (log w2') → False.
Proof.
  intros env.
  destruct (ParallelWriterRun._create_writer_for_range 200 Behaviour.setup 0.05 1 0 3 "v23"
              (InMemory.start true [])) as [r1 w1'] eqn:Hrun1.
  destruct (ParallelWriterRun._create_writer_for_range 200 Behaviour.setup 0.05 2 3 6 "v23"
              (InMemory.start true [])) as [r2 w2'] eqn:Hrun2.
  exists r1, w1', r2, w2'. split; [done|]. split; [done|].
  apply (writers_send_disjoint_keys (H := env) 6 2
           [ParallelWriter.task_for 6 2 0; ParallelWriter.task_for 6 2 1] 0 1
           (ParallelWriter.task_for 6 2 0) (ParallelWriter.task_for 6 2 1) "v23" "v23"
           200 200 Behaviour.setup Behaviour.setup 0.05 0.05
           (InMemory.start true []) (InMemory.start true []) r1 r2 w1' w2'
           (log w1') (log w2')
           ltac:(lia) eq_refl eq_refl eq_refl ltac:(left; lia) Hrun1 Hrun2 eq_refl eq_refl).
Defined.

Lemma fewer_keys_than_writers_witness :
  let env := InMemory.env InMemory.no_json InMemory.str_size in
  ParallelWriterRun._create_writer_for_range (H := env) 200 Behaviour.setup 0.05 1 0 0 "v23"
    (InMemory.start true [])
  = (ParallelWriterRun.Returns (ParallelWriterRun.failed_stats 1 0 0 "v23"),
     InMemory.start true []).
Proof.
  intros env.
  destruct (fewer_keys_than_writers (H := env) 2 3
              (ParallelWriter.task_for 2 3 <$> Py.range 3) 0 (ParallelWriter.task_for 2 3 0)
              199 Behaviour.setup 0.05 "v23" (InMemory.start true [])
              ltac:(lia) eq_refl eq_refl) as (_ & _ & Hidle).
  apply Hidle. lia.
Defined.

Lemma import_total_within_target_witness :
  let env := InMemory.env InMemory.no_json InMemory.str_size in
  ∃ stats1 w1' stats2 w2',
    ParallelWriterRun._create_writer_for_range (H := env) 200 Behaviour.setup 0.05 1 0 3 "v23"
      (InMemory.start true []) = (ParallelWriterRun.Returns stats1, w1')
    ∧ ParallelWriterRun._create_writer_for_range (H := env) 200 Behaviour.setup 0.05 2 3 6 "v23"
        (InMemory.start true []) = (ParallelWriterRun.Returns stats2, w2')
    ∧ 0 ≤ ParallelWriterRun.total_keys_written [stats2; stats1] ≤ 6.
Proof.
  intros env.
  destruct (ParallelWriterRun._create_writer_for_range 200 Behaviour.setup 0.05 1 0 3 "v23"
              (InMemory.start true [])) as [r1 w1'] eqn:Hrun1.
  destruct (ParallelWriterRun._create_writer_for_range 200 Behaviour.setup 0.05 2 3 6 "v23"
              (InMemory.start true [])) as [r2 w2'] eqn:Hrun2.
  assert (∃ stats, r1 = ParallelWriterRun.Returns stats) as [stats1 ->]
    by (vm_compute in Hrun1; injection Hrun1 as <- _; by eexists).
  assert (∃ stats, r2 = ParallelWriterRun.Returns stats) as [stats2 ->]
    by (vm_compute in Hrun2; injection Hrun2 as <- _; by eexists).
  exists stats1, w1', stats2, w2'. split; [done|]. split; [done|].
  apply (import_total_within_target (H := env) 6 2
           [ParallelWriter.task_for 6 2 0; ParallelWriter.task_for 6 2 1] "v23"
           [ParallelWriter.task_for 6 2 1; ParallelWriter.task_for 6 2 0]
           [stats2; stats1]
           (in_memory_replies_match _ _) ltac:(lia) eq_refl (submseteq_swap _ _ _)).
  constructor; [|constructor; [|constructor]].
  - by exists 200%nat, Behaviour.setup, 0.05%float, (InMemory.start true []), w2'.
  - by exists 200%nat, Behaviour.setup, 0.05%float, (InMemory.start true []), w1'.
Defined.

(** ** The reader: what it sends, and its worker threads *)

Section ReaderBehaviour.
Import SimpleReader SimpleReaderThreads Spec Behaviour.
Context {W : Type} `{Env W}.

Lemma reads_ids_weaken self ids ids' ev :
  ids ⊆ ids' → reads_ids self ids ev → reads_ids self ids' ev.
Proof.
  intros Hsub [Hr Hk]. split; [done|]. eapply Forall_impl; [exact Hk|].
  intros key (id & Hin & Hkey). exists id. split; [by apply Hsub|done].
Qed.

Lemma reads_ids_get self ids id version :
  id ∈ ids → version = primary_version self ∨ version = fallback_version self →
  reads_ids self ids (Get (NetworkUtils.create_redis_key_simple id version)).
Proof.
  intros Hin Hv. split; [done|]. apply List.Forall_cons; [|apply List.Forall_nil].
  exists id. split; [done|].
  destruct Hv as [->| ->]; [by left|by right].
Qed.

Lemma reads_ids_pipeline self ids :
  reads_ids self ids (Pipeline (batch_gets self ids)).
Proof.
  split.
  - simpl. unfold batch_gets. apply Forall_forall. intros c Hc.
    apply list_elem_of_bind in Hc as (id & Hc & _).
    apply elem_of_cons in Hc as [->|Hc]; [done|]. by apply list_elem_of_singleton in Hc as ->.
  - simpl. apply Forall_fmap, Forall_forall. intros c Hc.
    apply list_elem_of_bind in Hc as (id & Hc & Hid). exists id. split; [done|].
    apply elem_of_cons in Hc as [->|Hc]; [by left|].
    apply list_elem_of_singleton in Hc as ->. by right.
Qed.

(** What a lookup returns and sends. *)
Lemma read_key_trace id self (w : world W) :
  ∃ r evs w',
    read_key_with_fallback id (self, w) = (Ret r, (self, w'))
    ∧ key_id r = id
    ∧ log w' = log w ++ evs
    ∧ Forall (reads_ids self [id]) evs.
Proof.
  pose proof (read_key_with_fallback_spec id self w) as Hspec. simpl in Hspec.
  assert (id ∈ [id]) as Hin by apply list_elem_of_here.
  destruct (truthy (looked_up _ (server w)) && encodable _);
    [|destruct (truthy _ && encodable _)];
    eexists _, _, _; (split; [exact Hspec|]); (split; [done|]); (split; [done|]);
    repeat (apply List.Forall_cons; [apply reads_ids_get; auto|]); apply List.Forall_nil.
Qed.

Lemma for_each_read_trace ids self (w : world W) :
  ∃ rs evs w',
    for_each read_key_with_fallback ids (self, w) = (Ret rs, (self, w'))
    ∧ key_id <$> rs = ids
    ∧ log w' = log w ++ evs
    ∧ Forall (reads_ids self ids) evs.
Proof.
  revert w. induction ids as [|id ids IH]; intros w.
  - exists [], [], w. by rewrite app_nil_r.
  - destruct (read_key_trace id self w) as (r & evs1 & w1 & Hr & Hid & Hlog1 & Hall1).
    destruct (IH w1) as (rs & evs2 & w2 & Hrs & Hids & Hlog2 & Hall2).
    exists (r :: rs), (evs1 ++ evs2), w2.
    split; [cbn [for_each]; unfold bind at 1; rewrite Hr; unfold bind at 1; by rewrite Hrs|].
    split; [by rewrite fmap_cons, Hid, Hids|].
    split; [by rewrite Hlog2, Hlog1, <- app_assoc|].
    apply Forall_app. split.
    + eapply Forall_impl; [exact Hall1|]. intros ev. apply reads_ids_weaken.
      intros x Hx. apply list_elem_of_singleton in Hx as ->. apply list_elem_of_here.
    + eapply Forall_impl; [exact Hall2|]. intros ev. apply reads_ids_weaken.
      intros x Hx. by apply list_elem_of_further.
Qed.

(** What a pipelined batch returns and sends. *)
Lemma read_batch_trace ids self (w : world W) :
  ∃ rs evs w',
    _read_batch_with_pipeline ids (self, w) = (Ret rs, (self, w'))
    ∧ key_id <$> rs = ids
    ∧ log w' = log w ++ Pipeline (batch_gets self ids) :: evs
    ∧ Forall (reads_ids self ids) evs.
Proof.
  destruct (redis_execute (batch_gets self ids) (server w)) as [[results|e] s1] eqn:Hans.
  - unfold _read_batch_with_pipeline.
    unfold bind at 1, now. simpl. unfold bind at 1, get_self. simpl.
    unfold try_except, bind at 1, pipeline_execute, call. simpl. rewrite Hans.
    set (w1 := {| server := s1; log := _ |}).
    pose proof (classify_from_state (time_now (server w)) results 0 ids (self, w1)) as Hst.
    pose proof (classify_from_terminates (time_now (server w)) results 0 ids (self, w1)) as Ht.
    destruct (classify_from _ _ _ _ _) as [[rs|e|] s2] eqn:Hc; simpl in Hst, Ht; subst s2.
    + exists rs, [], w1. split; [done|]. split; [by eapply classify_from_ids|]. done.
    + destruct (for_each_read_trace ids self w1) as (rs & evs & w2 & Hrs & Hids & Hlog & Hall).
      exists rs, evs, w2. repeat split; try done.
      rewrite Hlog. unfold w1. simpl. by rewrite <- app_assoc.
    + done.
  - rewrite (read_batch_failed _ _ _ _ _ Hans).
    set (w1 := {| server := s1; log := _ |}).
    destruct (for_each_read_trace ids self w1) as (rs & evs & w2 & Hrs & Hids & Hlog & Hall).
    exists rs, evs, w2. repeat split; try done.
      rewrite Hlog. unfold w1. simpl. by rewrite <- app_assoc.
Qed.

Lemma handle_signals_reader self (w : world W) :
  ∃ self0, handle_signals (self, w) = (Ret (), (self0, w))
    ∧ max_daily_keys self0 = max_daily_keys self
    ∧ primary_version self0 = primary_version self
    ∧ fallback_version self0 = fallback_version self
    ∧ results self0 = results self
    ∧ (running self0 = true → self0 = self).
Proof.
  unfold handle_signals. destruct (sigint_delivered _); eexists; split; eauto.
  repeat split; done.
Qed.

Lemma reads_ids_ext self self0 ids ev :
  primary_version self0 = primary_version self → fallback_version self0 = fallback_version self →
  reads_ids self0 ids ev → reads_ids self ids ev.
Proof.
  intros Hp Hf [Hr Hk]. split; [done|]. eapply Forall_impl; [exact Hk|].
  intros key (id & Hin & Hkey). exists id. split; [done|]. by rewrite <- Hp, <- Hf.
Qed.

Lemma slice_sublist (l : list Z) lo hi : Py.slice l lo hi ⊆ l.
Proof.
  unfold Py.slice. intros x Hx. apply elem_of_take in Hx as (i & Hi & _).
  rewrite lookup_drop in Hi. by eapply list_elem_of_lookup_2.
Qed.

(** The loop of [pipeline_worker_thread]: it reads the batches in order
    until they are exhausted or [running] is found cleared. *)
Lemma pipeline_worker_loop_trace key_ids batch_size starts acc self (w : world W) :
  ∃ (k : nat) rs evs self' w',
    pipeline_worker_loop key_ids batch_size starts acc (self, w)
    = (Ret (acc ++ rs), (self', w'))
    ∧ (k ≤ length starts)%nat
    ∧ key_id <$> rs = concat (batch_at key_ids batch_size <$> take k starts)
    ∧ log w' = log w ++ evs
    ∧ Forall (reads_ids self key_ids) evs
    ∧ (running self' = true → k = length starts ∧ self' = self).
Proof.
  revert acc self w. induction starts as [|i starts IH]; intros acc self w.
  { exists 0%nat, [], [], self, w. rewrite !app_nil_r. repeat split; done. }
  cbn [pipeline_worker_loop].
  destruct (handle_signals_reader self w) as (self0 & Hsig & _ & Hp0 & Hf0 & _ & Hrun0).
  unfold bind at 1. rewrite Hsig. unfold bind at 1, get_self at 1. cbn beta iota.
  destruct (running self0) eqn:Hr; simpl.
  2:{ exists 0%nat, [], [], self0, w. rewrite !app_nil_r.
      repeat split; try done; try (simpl; lia); congruence. }
  specialize (Hrun0 eq_refl). subst self0.
  destruct (read_batch_trace (batch_at key_ids batch_size i) self w)
    as (rs1 & evs1 & w1 & Hb & Hids1 & Hlog1 & Hall1).
  unfold bind at 1. rewrite Hb.
  destruct (IH (acc ++ rs1) self w1) as (k & rs2 & evs2 & self' & w' & Hl & Hk & Hids2 & Hlog2
                                          & Hall2 & Hrun').
  exists (S k), (rs1 ++ rs2), (Pipeline (batch_gets self (batch_at key_ids batch_size i))
                               :: evs1 ++ evs2), self', w'.
  split; [by rewrite Hl, app_assoc|]. split; [simpl; lia|].
  split; [by rewrite fmap_app, Hids1, Hids2|].
  split; [by rewrite Hlog2, Hlog1, <- app_assoc|].
  split.
  - assert (batch_at key_ids batch_size i ⊆ key_ids) as Hsub by apply slice_sublist.
    apply List.Forall_cons; [eapply reads_ids_weaken; [exact Hsub|apply reads_ids_pipeline]|].
    apply Forall_app. split; [|done].
    eapply Forall_impl; [exact Hall1|]. intros ev. by apply reads_ids_weaken.
  - intros Hr'. destruct (Hrun' Hr') as [-> ->]. done.
Qed.

(** X19. With a batch size of at least 1, [pipeline_worker_thread] always
    returns, and appends to the shared list the results for a prefix of
    its key ids made of whole batches, one result per id in order; it
    reads all its ids unless it finds [running] cleared; each of its
    requests only reads, and only the primary or fallback keys of its
    ids. *)
Theorem pipeline_worker_reads_whole_batches thread_id key_ids batch_size results_list
    (self : t) (w : world W) :
  1 ≤ batch_size →
  ∃ (n : nat) rs evs self' w',
    pipeline_worker_thread thread_id key_ids batch_size results_list (self, w)
    = (Ret (results_list ++ rs), (self', w'))
    ∧ key_id <$> rs = take (n * Z.to_nat batch_size) key_ids
    ∧ (running self' = true → key_id <$> rs = key_ids ∧ self' = self)
    ∧ log w' = log w ++ evs
    ∧ Forall (reads_ids self key_ids) evs.
Proof.
  intros Hbs. unfold pipeline_worker_thread, Py.range3.
  rewrite (proj2 (Z.eqb_neq batch_size 0)) by lia.
  rewrite (proj2 (Z.ltb_lt 0 batch_size)) by lia.
  set (m := Z.to_nat ((Z.of_nat (length key_ids) - 0 + batch_size - 1) / batch_size)).
  set (starts := (λ i : nat, 0 + Z.of_nat i * batch_size) <$> seq 0 m).
  destruct (pipeline_worker_loop_trace key_ids batch_size starts [] self w)
    as (k & rs & evs & self' & w' & Hl & Hk & Hids & Hlog & Hall & Hrun).
  assert (key_id <$> rs
          = Py.slice key_ids 0 (Z.of_nat (k `min` m) * batch_size)) as Hslice.
  { rewrite Hids. unfold starts. rewrite <- fmap_take, take_seq, <- list_fmap_compose.
    assert (concat ((λ j : nat, Py.slice key_ids (Z.of_nat j * batch_size)
                                         ((Z.of_nat j + 1) * batch_size))
                      <$> seq 0 (k `min` m))
            = Py.slice key_ids 0 (Z.of_nat (k `min` m) * batch_size)) as <-
      by (rewrite concat_batches_from by done; f_equal; lia).
    f_equal. apply list_fmap_ext. intros _ j _. unfold batch_at. simpl. f_equal; lia. }
  exists (k `min` m)%nat, rs, evs, self', w'.
  split; [unfold bind; by rewrite Hl|].
  split.
  { rewrite Hslice, slice_nonneg by nia. rewrite drop_0. f_equal. nia. }
  split; [|done].
  intros Hr. destruct (Hrun Hr) as [-> ->]. split; [|done].
  unfold starts in Hslice. rewrite length_fmap, length_seq, Nat.min_id in Hslice.
  rewrite Hslice. apply slice_all.
  pose proof (batches_count (Z.of_nat (length key_ids)) batch_size ltac:(lia) Hbs) as (Hm & Hle & _).
  unfold m. replace (Z.of_nat (length key_ids) - 0 + batch_size - 1)
    with (Z.of_nat (length key_ids) + batch_size - 1) by lia.
  rewrite Z2Nat.id by done. done.
Qed.

(** The loop of [worker_thread]. *)
Lemma worker_loop_trace idxs acc self (w : world W) r self' w' :
  worker_loop idxs acc (self, w) = (r, (self', w')) →
  ∃ rs evs,
    log w' = log w ++ evs
    ∧ Forall (reads_ids self (key_id <$> rs)) evs
    ∧ (length rs ≤ length idxs)%nat
    ∧ (randint_in_range W → Forall (λ x, 0 ≤ key_id x < max_daily_keys self) rs)
    ∧ match r with
      | Ret out => out = acc ++ rs ∧ (running self' = true → length rs = length idxs ∧ self' = self)
      | Exc e => ∃ s s1, randint 0 (max_daily_keys self - 1) s = (Fail e, s1)
      | Diverged => False
      end.
Proof.
  revert acc self w. induction idxs as [|i idxs IH]; intros acc self w Hrun.
  { injection Hrun as <- <- <-. exists [], []. rewrite !app_nil_r. repeat split; done. }
  cbn [worker_loop] in Hrun.
  destruct (handle_signals_reader self w) as (self0 & Hsig & Hmax0 & Hp0 & Hf0 & _ & Hrun0).
  unfold bind at 1 in Hrun. rewrite Hsig in Hrun.
  unfold bind at 1, get_self at 1 in Hrun. cbn beta iota in Hrun.
  destruct (running self0) eqn:Hr; simpl in Hrun.
  2:{ injection Hrun as <- <- <-. exists [], []. rewrite !app_nil_r.
      repeat split; try done; try (simpl; lia); try constructor; congruence. }
  specialize (Hrun0 eq_refl). subst self0.
  unfold bind at 1, generate_random_key_id, random_randint in Hrun.
  destruct (randint 0 (max_daily_keys self - 1) (server w)) as [[id|e] s1] eqn:Hrand.
  2:{ injection Hrun as <- <- <-. exists [], []. simpl. rewrite app_nil_r.
      repeat split; try done; try lia; try constructor. by exists (server w), s1. }
  set (w0 := {| server := s1; log := log w |}) in *.
  destruct (read_key_trace id self w0) as (x & evs1 & w1 & Hx & Hid & Hlog1 & Hall1).
  unfold bind at 1 in Hrun. rewrite Hx in Hrun.
  apply IH in Hrun as (rs & evs2 & Hlog2 & Hall2 & Hlen & Hrange & Hres).
  exists (x :: rs), (evs1 ++ evs2).
  split; [by rewrite Hlog2, Hlog1, <- app_assoc|].
  split.
  { rewrite fmap_cons, Hid. apply Forall_app. split.
    - eapply Forall_impl; [exact Hall1|]. intros ev. apply reads_ids_weaken.
      intros y Hy. apply list_elem_of_singleton in Hy as ->. apply list_elem_of_here.
    - eapply Forall_impl; [exact Hall2|]. intros ev. apply reads_ids_weaken.
      intros y Hy. by apply list_elem_of_further. }
  split; [simpl; lia|].
  split.
  { intros Hin. apply List.Forall_cons; [|by apply Hrange].
    apply Hin in Hrand. rewrite Hid. lia. }
  destruct r as [out|e|]; [|done..].
  destruct Hres as [-> Hrun']. split; [by rewrite <- app_assoc|].
  intros Hr'. destruct (Hrun' Hr') as [Hl ->]. split; [simpl; lia|done].
Qed.

(** X20. [worker_thread] never hangs.  When it returns it has appended at
    most [num_reads] results to the shared list, exactly [num_reads] unless
    it found [running] cleared; its requests only read, and only the
    primary or fallback keys of the ids of these results; and the ids lie
    in [[0, max_daily_keys)] when [randint] draws from its range.  When the
    drawing of an id raises, the thread ends with that exception and its
    results never reach the shared list. *)
Theorem worker_thread_results thread_id num_reads results_list (self : t) (w : world W)
    r self' w' :
  worker_thread thread_id num_reads results_list (self, w) = (r, (self', w')) →
  ∃ rs evs,
    log w' = log w ++ evs
    ∧ Forall (reads_ids self (key_id <$> rs)) evs
    ∧ Z.of_nat (length rs) ≤ Z.max 0 num_reads
    ∧ (randint_in_range W → Forall (λ x, 0 ≤ key_id x < max_daily_keys self) rs)
    ∧ match r with
      | Ret out =>
          out = results_list ++ rs
          ∧ (running self' = true → Z.of_nat (length rs) = Z.max 0 num_reads ∧ self' = self)
      | Exc e => ∃ s s1, randint 0 (max_daily_keys self - 1) s = (Fail e, s1)
      | Diverged => False
      end.
Proof.
  unfold worker_thread. intros Hrun.
  assert (Z.of_nat (length (Py.range num_reads)) = Z.max 0 num_reads) as Hlen
    by (unfold Py.range; rewrite length_fmap, length_seq; lia).
  apply bind_inv in Hrun as [(out & [self1 w1] & Hloop & Hret)|[(e & Hloop & ->)|[Hloop ->]]];
    apply worker_loop_trace in Hloop as (rs & evs & Hlog & Hall & Hle & Hrange & Hres);
    exists rs, evs; (split; [try injection Hret as <- <- <-; done|]);
    (split; [done|]); (split; [lia|]); (split; [done|]); [|done..].
  injection Hret as <- <- <-. destruct Hres as [-> Hrun']. split; [done|].
  intros Hr. destruct (Hrun' Hr) as [Hl ->]. split; [lia|done].
Qed.

Lemma thread_reads_sum per rem (idxs : list Z) :
  foldr Z.add 0 ((λ i, per + (if i <? rem then 1 else 0)) <$> idxs)
  = Z.of_nat (length idxs) * per + Z.of_nat (length (filter (λ i, i < rem) idxs)).
Proof.
  induction idxs as [|i idxs IH]; [simpl; lia|].
  rewrite fmap_cons, filter_cons. cbn [foldr]. rewrite IH.
  destruct (Z.ltb_spec i rem); destruct (decide (i < rem)); simpl length; lia.
Qed.

Lemma length_filter_below (n : nat) rem :
  0 ≤ rem →
  length (filter (λ i, i < rem) (Z.of_nat <$> seq 0 n)) = (n `min` Z.to_nat rem)%nat.
Proof.
  intros Hrem. induction n as [|n IH]; [done|].
  rewrite seq_S, fmap_app, filter_app, length_app, IH.
  change (Z.of_nat <$> [(0 + n)%nat]) with [Z.of_nat n].
  rewrite filter_cons, filter_nil. destruct (decide (Z.of_nat n < rem)); cbn [length]; lia.
Qed.

Lemma length_filter_range n rem :
  0 ≤ rem ≤ n → length (filter (λ i, i < rem) (Py.range n)) = Z.to_nat rem.
Proof. intros Hrem. unfold Py.range. rewrite length_filter_below by lia. lia. Qed.

(** X21. [run_benchmark] distributes the reads over its threads evenly:
    for a positive number of threads it starts that many, their numbers of
    reads add up to [total_reads], and any two of them differ by at most
    one. *)
Theorem thread_reads_distribution total_reads num_threads :
  1 ≤ num_threads →
  ∃ args, thread_reads total_reads num_threads = Ret args
    ∧ Z.of_nat (length args) = num_threads
    ∧ foldr Z.add 0 (args.*2) = total_reads
    ∧ ∀ a b, a ∈ args → b ∈ args → a.2 - b.2 ≤ 1.
Proof.
  intros Hn. unfold thread_reads. rewrite (proj2 (Z.eqb_neq num_threads 0)) by lia.
  eexists. split; [done|].
  pose proof (Z.mod_pos_bound total_reads num_threads ltac:(lia)) as Hmod.
  pose proof (Z.div_mod total_reads num_threads ltac:(lia)) as Hdiv.
  split; [unfold Py.range; rewrite !length_fmap, length_seq; lia|].
  split.
  - rewrite <- list_fmap_compose.
    change (foldr Z.add 0 ((λ i, total_reads / num_threads
                                 + (if i <? total_reads mod num_threads then 1 else 0))
                             <$> Py.range num_threads) = total_reads).
    rewrite thread_reads_sum, length_filter_range by lia.
    unfold Py.range. rewrite length_fmap, length_seq. lia.
  - intros a b Ha Hb.
    apply list_elem_of_fmap in Ha as (i & -> & _). apply list_elem_of_fmap in Hb as (j & -> & _).
    simpl. destruct (_ <? _), (_ <? _); lia.
Qed.

Lemma for_each_batches_trace batches self (w : world W) :
  ∃ rss evs w',
    for_each _read_batch_with_pipeline batches (self, w) = (Ret rss, (self, w'))
    ∧ key_id <$> concat rss = concat batches
    ∧ log w' = log w ++ evs
    ∧ (batches = [] → evs = [])
    ∧ Forall (reads_ids self (concat batches)) evs.
Proof.
  revert w. induction batches as [|batch batches IH]; intros w.
  - exists [], [], w. by rewrite app_nil_r.
  - destruct (read_batch_trace batch self w) as (rs & evs1 & w1 & Hrs & Hids & Hlog1 & Hall1).
    destruct (IH w1) as (rss & evs2 & w2 & Hrss & Hall & Hlog2 & _ & Hall2).
    exists (rs :: rss), (Pipeline (batch_gets self batch) :: evs1 ++ evs2), w2.
    split; [cbn [for_each]; unfold bind at 1; rewrite Hrs; unfold bind at 1; by rewrite Hrss|].
    split; [by simpl; rewrite fmap_app, Hids, Hall|].
    split; [by rewrite Hlog2, Hlog1, <- app_assoc|]. split; [done|].
    assert (batch ⊆ concat (batch :: batches)) as Hsub1
      by (intros x Hx; simpl; apply elem_of_app; by left).
    assert (concat batches ⊆ concat (batch :: batches)) as Hsub2
      by (intros x Hx; simpl; apply elem_of_app; by right).
    apply List.Forall_cons; [eapply reads_ids_weaken; [exact Hsub1|apply reads_ids_pipeline]|].
    apply Forall_app. split.
    + eapply Forall_impl; [exact Hall1|]. intros ev. by apply reads_ids_weaken.
    + eapply Forall_impl; [exact Hall2|]. intros ev. by apply reads_ids_weaken.
Qed.

(** What [read_keys_pipeline_batch] returns and sends, for every batch
    size. *)
Lemma read_keys_pipeline_batch_trace key_ids batch_size self (w : world W) :
  ∃ r evs w',
    read_keys_pipeline_batch key_ids batch_size (self, w) = (r, (self, w'))
    ∧ log w' = log w ++ evs
    ∧ Forall (reads_ids self key_ids) evs
    ∧ (batch_size ≤ 0 → evs = [])
    ∧ (batch_size = 0 → r = Exc ValueError)
    ∧ (batch_size < 0 → r = Ret [])
    ∧ (1 ≤ batch_size → ∃ rs, r = Ret rs ∧ key_id <$> rs = key_ids).
Proof.
  destruct (Z.lt_trichotomy batch_size 0) as [Hneg|[->|Hpos]].
  - exists (Ret []), [], w. unfold read_keys_pipeline_batch, Py.range3.
    rewrite (proj2 (Z.eqb_neq batch_size 0)) by lia.
    rewrite (proj2 (Z.ltb_ge 0 batch_size)) by lia.
    assert ((0 - Z.of_nat (length key_ids) - batch_size - 1) / - batch_size < 1) as Hq
      by (apply Z.div_lt_upper_bound; lia).
    replace (Z.to_nat _) with 0%nat by lia. rewrite app_nil_r.
    repeat split; try done; lia.
  - exists (Exc ValueError), [], w. rewrite app_nil_r. repeat split; try done; lia.
  - rewrite read_keys_pipeline_batch_batches by lia.
    destruct (for_each_batches_trace (batches_of key_ids batch_size) self w)
      as (rss & evs & w' & Hrun & Hids & Hlog & _ & Hall).
    rewrite concat_batches_of in Hids, Hall by lia.
    exists (Ret (concat rss)), evs, w'.
    split; [unfold bind; by rewrite Hrun|]. split; [done|]. split; [done|].
    repeat split; try lia; try done. intros _. by exists (concat rss).
Qed.

(** X22. Every request of [read_keys_pipeline_batch] only reads, and only
    the primary or fallback keys of the given ids, and the reader is left
    as it was.  With a batch size of at least 1 the call returns one result
    per id, in order; with a batch size of 0 it raises [ValueError] and
    with a negative one it returns no result at all, and in both cases it
    sends nothing. *)
Theorem read_keys_pipeline_batch_only_reads key_ids batch_size (self : t) (w : world W)
    r self' w' :
  read_keys_pipeline_batch key_ids batch_size (self, w) = (r, (self', w')) →
  self' = self
  ∧ (∃ evs, log w' = log w ++ evs
       ∧ Forall (reads_ids self key_ids) evs
       ∧ (batch_size ≤ 0 → evs = []))
  ∧ (batch_size = 0 → r = Exc ValueError)
  ∧ (batch_size < 0 → r = Ret [])
  ∧ (1 ≤ batch_size → ∃ rs, r = Ret rs ∧ key_id <$> rs = key_ids).
Proof.
  intros Hrun.
  destruct (read_keys_pipeline_batch_trace key_ids batch_size self w)
    as (r0 & evs & w0 & Hrun' & Hlog & Hall & Hnone & Hzero & Hneg & Hpos).
  rewrite Hrun' in Hrun. injection Hrun as <- <- <-.
  split; [done|]. split; [by exists evs|]. done.
Qed.

Lemma generate_ids_trace max idxs self (w : world W) r s' :
  for_each (λ _ : Z, generate_random_key_id max) idxs (self, w) = (r, s') →
  ∃ w', s' = (self, w') ∧ log w' = log w ∧ r ≠ Diverged
    ∧ ∀ ids, r = Ret ids → length ids = length idxs.
Proof.
  revert w r s'. induction idxs as [|i idxs IH]; intros w r s' Hrun.
  { injection Hrun as <- <-. exists w. repeat split; try done. by intros ids [= <-]. }
  cbn [for_each] in Hrun.
  unfold bind at 1, generate_random_key_id, random_randint in Hrun.
  destruct (randint 0 (max - 1) (server w)) as [[id|e] s1].
  2:{ injection Hrun as <- <-. eexists. repeat split; try done. }
  set (w0 := {| server := s1; log := log w |}) in *.
  apply bind_inv in Hrun as [(ids & s2 & Hrest & Hret)|[(e & Hrest & ->)|[Hrest ->]]];
    apply IH in Hrest as (w' & -> & Hlog & Hnd & Hlen).
  - injection Hret as <- <-. exists w'. repeat split; try done.
    intros ids' [= <-]. simpl. by rewrite (Hlen ids eq_refl).
  - exists w'. repeat split; done.
  - done.
Qed.

(** X23. [run_pipeline_benchmark] sets [running] and otherwise leaves the
    reader as it was, only reads from the server, and never hangs.  With a
    batch size of at least 1 the statistics it returns count every
    requested read: [total_reads] is the number asked for, hits and misses
    add up to it, and primary and fallback hits add up to the hits.  With a
    batch size of 0 it raises, with a negative one it reports 0 reads, and
    in both cases it sends nothing. *)
Theorem pipeline_benchmark_counts_every_read total_reads batch_size (self : t) (w : world W)
    r self' w' :
  run_pipeline_benchmark total_reads batch_size (self, w) = (r, (self', w')) →
  self' = set_running true self
  ∧ r ≠ Diverged
  ∧ (∃ evs, log w' = log w ++ evs ∧ Forall is_read evs ∧ (batch_size ≤ 0 → evs = []))
  ∧ (batch_size = 0 → ∃ e, r = Exc e)
  ∧ ∀ stats, r = Ret stats →
      SimpleReader.total_reads stats = (if 1 <=? batch_size then Z.max 0 total_reads else 0)
      ∧ successful_reads stats + cache_misses stats = SimpleReader.total_reads stats
      ∧ primary_hits stats + fallback_hits stats = successful_reads stats.
Proof.
  unfold run_pipeline_benchmark. intros Hrun.
  unfold bind at 1 in Hrun. cbn beta iota in Hrun.
  unfold bind at 1, now at 1 in Hrun. cbn beta iota in Hrun.
  unfold bind at 1, get_self at 1 in Hrun. cbn beta iota in Hrun.
  set (self1 := set_running true self) in *.
  assert (Z.of_nat (length (Py.range total_reads)) = Z.max 0 total_reads) as Hlen
    by (unfold Py.range; rewrite length_fmap, length_seq; lia).
  assert (∀ w1, log w1 = log w →
            w' = w1 → ∃ evs, log w' = log w ++ evs ∧ Forall is_read evs
                              ∧ (batch_size ≤ 0 → evs = [])) as Hnothing.
  { intros w1 Hlog ->. exists []. rewrite app_nil_r. repeat split; done. }
  apply bind_inv in Hrun as [(ids & s1 & Hgen & Hrun)|[(e & Hgen & ->)|[Hgen ->]]];
    apply generate_ids_trace in Hgen as (w1 & Hs1 & Hlog1 & Hnd & Hids); [|..].
  2:{ injection Hs1 as -> ->. split; [done|]. split; [done|].
      split; [by apply (Hnothing w1)|]. split; [by exists e|done]. }
  2:{ done. }
  subst s1. specialize (Hids ids eq_refl).
  destruct (read_keys_pipeline_batch_trace ids batch_size self1 w1)
    as (r0 & evs & w2 & Hread & Hlog2 & Hall & Hnone & Hzero & Hneg & Hpos).
  unfold bind at 1 in Hrun. rewrite Hread in Hrun.
  assert (∃ evs, log w2 = log w ++ evs ∧ Forall is_read evs ∧ (batch_size ≤ 0 → evs = []))
    as Hevs.
  { exists evs. rewrite Hlog2, Hlog1. split; [done|]. split; [|done].
    eapply Forall_impl; [exact Hall|]. by intros ev [? _]. }
  destruct r0 as [all_results|e|].
  - unfold bind at 1, now at 1 in Hrun. cbn beta iota in Hrun.
    assert (self' = self1 ∧ w' = w2) as [-> ->]
      by (destruct (PrimFloat.eqb _ _); by injection Hrun as _ <- <-).
    split; [done|]. split; [destruct (PrimFloat.eqb _ _); by injection Hrun as <-|].
    split; [done|].
    split; [intros Hz; by specialize (Hzero Hz)|].
    intros stats ->. destruct (PrimFloat.eqb _ _); [done|]. injection Hrun as <-.
    pose proof (pipeline_stats_conservation self1
                  (PrimFloat.sub (time_now (server w2)) (time_now (server w))) all_results)
      as [Hcons Hhits].
    split; [|done].
    pose proof (count_result_fold self1
                  {| SimpleReader.total_reads := Z.of_nat (length all_results);
                     successful_reads := 0; cache_misses := 0; primary_hits := 0;
                     fallback_hits := 0;
                     total_time := PrimFloat.sub (time_now (server w2)) (time_now (server w));
                     total_data_bytes := 0 |} all_results) as (Htotal & _).
    unfold pipeline_stats. rewrite Htotal. simpl.
    destruct (Z.leb_spec 1 batch_size) as [Hbs|Hbs].
    + destruct (Hpos Hbs) as (rs & [= <-] & Hkeys).
      rewrite <- (length_fmap key_id), Hkeys, Hids. lia.
    + assert (batch_size < 0) as Hlt.
      { destruct (Z.eq_dec batch_size 0) as [Hz|]; [by specialize (Hzero Hz)|lia]. }
      by injection (Hneg Hlt) as ->.
  - injection Hrun as <- <- <-. split; [done|]. split; [done|]. split; [done|].
    split; [by exists e|done].
  - injection Hrun as <- <- <-. exfalso.
    destruct (Z.lt_trichotomy batch_size 0) as [Hlt|[Hz|Hgt]].
    + by specialize (Hneg Hlt).
    + by specialize (Hzero Hz).
    + by destruct (Hpos ltac:(lia)) as (rs & ? & _).
Qed.

End ReaderBehaviour.

Lemma pipeline_worker_reads_whole_batches_witness :
  let env := InMemory.env InMemory.no_json InMemory.str_size in
  ∃ (n : nat) rs self' w',
    SimpleReaderThreads.pipeline_worker_thread (H := env) 1 [1; 2; 3] 2 []
      (InMemory.reader, InMemory.start true [("ip:v23:1", "a")])
    = (Ret ([] ++ rs), (self', w'))
    ∧ SimpleReader.key_id <$> rs = take (n * Z.to_nat 2) [1; 2; 3].
Proof.
  intros env.
  destruct (pipeline_worker_reads_whole_batches (H := env) 1 [1; 2; 3] 2 [] InMemory.reader
              (InMemory.start true [("ip:v23:1", "a")]) ltac:(lia))
    as (n & rs & evs & self' & w' & Hrun & Hids & _).
  by exists n, rs, self', w'.
Defined.

Lemma worker_thread_results_witness :
  let env := InMemory.env InMemory.no_json InMemory.str_size in
  ∃ r self' w' (rs : list SimpleReader.ReadResult),
    SimpleReaderThreads.worker_thread (H := env) 1 3 []
      (InMemory.reader, InMemory.start true [("ip:v23:0", "a")])
    = (r, (self', w'))
    ∧ Z.of_nat (length rs) ≤ Z.max 0 3
    ∧ r ≠ Diverged.
Proof.
  intros env.
  destruct (SimpleReaderThreads.worker_thread 1 3 []
              (InMemory.reader, InMemory.start true [("ip:v23:0", "a")]))
    as [r [self' w']] eqn:Hrun.
  destruct (worker_thread_results (H := env) 1 3 [] InMemory.reader
              (InMemory.start true [("ip:v23:0", "a")]) r self' w' Hrun)
    as (rs & evs & _ & _ & Hlen & _ & Hres).
  exists r, self', w', rs. split; [done|]. split; [done|]. by intros ->.
Defined.

Lemma thread_reads_distribution_witness :
  ∃ args, SimpleReaderThreads.thread_reads 10 3 = Ret args
    ∧ Z.of_nat (length args) = 3
    ∧ foldr Z.add 0 (args.*2) = 10.
Proof.
  destruct (thread_reads_distribution 10 3 ltac:(lia)) as (args & Hargs & Hlen & Hsum & _).
  by exists args.
Defined.

Lemma read_keys_pipeline_batch_only_reads_witness :
  let env := InMemory.env InMemory.no_json InMemory.str_size in
  ∃ r self' w',
    SimpleReader.read_keys_pipeline_batch (H := env) [1; 2; 3] 2
      (InMemory.reader, InMemory.start false [("ip:v23:1", "a")])
    = (r, (self', w'))
    ∧ self' = InMemory.reader.
Proof.
  intros env.
  destruct (SimpleReader.read_keys_pipeline_batch [1; 2; 3] 2
              (InMemory.reader, InMemory.start false [("ip:v23:1", "a")]))
    as [r [self' w']] eqn:Hrun.
  exists r, self', w'. split; [done|].
  apply (read_keys_pipeline_batch_only_reads (H := env) [1; 2; 3] 2 InMemory.reader
           (InMemory.start false [("ip:v23:1", "a")]) r self' w' Hrun).
Defined.

Lemma pipeline_benchmark_counts_every_read_witness :
  let env := InMemory.env InMemory.no_json InMemory.str_size in
  ∃ r self' w',
    SimpleReader.run_pipeline_benchmark (H := env) 5 2
      (InMemory.reader, InMemory.start true [("ip:v23:0", "a")])
    = (r, (self', w'))
    ∧ self' = SimpleReader.set_running true InMemory.reader
    ∧ r ≠ Diverged.
Proof.
  intros env.
  destruct (SimpleReader.run_pipeline_benchmark 5 2
              (InMemory.reader, InMemory.start true [("ip:v23:0", "a")]))
    as [r [self' w']] eqn:Hrun.
  exists r, self', w'. split; [done|].
  destruct (pipeline_benchmark_counts_every_read (H := env) 5 2 InMemory.reader
              (InMemory.start true [("ip:v23:0", "a")]) r self' w' Hrun) as (Hself & Hnd & _).
  done.
Defined.

(** ** The environment overrides of the configuration *)

Section ConfigBehaviour.
Import Config.
Variable py_int : string → option Z.

Lemma dict_get_set {V} (d : dict V) k v k' :
  dict_get (dict_set d k v) k' = if decide (k = k') then Some v else dict_get d k'.
Proof.
  induction d as [|[k0 v0] d IH]; simpl.
  - destruct (String.eqb_spec k k'); destruct (decide (k = k')); done.
  - destruct (String.eqb_spec k0 k) as [->|Hne]; simpl.
    + destruct (String.eqb_spec k k'); destruct (decide (k = k')); done.
    + destruct (String.eqb_spec k0 k') as [->|Hne']; [|done].
      by destruct (decide (k = k')) as [->|].
Qed.

(** What a turn of the loop does to the configuration: nothing, or it
    sets the attribute named first in the tuple. *)
Lemma load_one_spec environ d var m :
  load_one py_int environ (PyDict d) (var, m) = PyDict d
  ∨ ∃ value x,
      environ !! var = Some value
      ∧ load_one py_int environ (PyDict d) (var, m) = PyDict (dict_set d (first m) x)
      ∧ match m with
        | Attr _ => x = PyStr value
        | Converted _ _ => ∃ n, py_int value = Some n ∧ x = PyInt n
        | SectionAttr section attr =>
            ∃ attrs, dict_get d section = Some (PyDict attrs)
              ∧ x = PyDict (dict_set attrs attr (PyStr value))
        end.
Proof.
  unfold load_one. simpl. destruct (environ !! var) as [value|]; [|by left].
  destruct m as [attr|section attr|section attr]; unfold override; simpl.
  - right. by exists value, (PyStr value).
  - destruct (dict_get d section) as [[| | | | | |attrs]|] eqn:Hsec; simpl; try by left.
    right. exists value, (PyDict (dict_set attrs attr (PyStr value))).
    split; [done|]. split; [done|]. by exists attrs.
  - destruct (py_int value) as [n|] eqn:Hint; simpl; [|by left].
    right. exists value, (PyInt n). split; [done|]. split; [done|]. by exists n.
Qed.

Lemma foldl_load_dict environ d table :
  ∃ d', foldl (load_one py_int environ) (PyDict d) table = PyDict d'.
Proof.
  revert d. induction table as [|[var m] table IH]; intros d; [by exists d|].
  cbn [foldl]. destruct (load_one_spec environ d var m) as [->|(_ & x & _ & -> & _)]; apply IH.
Qed.

Lemma foldl_load_keeps_int environ d table section z :
  dict_get d section = Some (PyInt z) →
  Forall (λ entry, match entry.2 with Attr attr => attr ≠ section | _ => True end) table →
  ∃ d' z', foldl (load_one py_int environ) (PyDict d) table = PyDict d'
    ∧ dict_get d' section = Some (PyInt z').
Proof.
  intros Hsec Htable. revert d z Hsec.
  induction Htable as [|[var m] table Hm _ IH]; intros d z Hsec; [by exists d, z|].
  cbn [foldl]. destruct (load_one_spec environ d var m) as [->|(value & x & _ & -> & Hx)];
    [by eapply IH|].
  destruct (decide (first m = section)) as [Heq|Hne].
  - destruct m as [attr|section' attr|section' attr]; simpl in *.
    + done.
    + destruct Hx as (attrs & Hsec' & _). congruence.
    + destruct Hx as (n & _ & ->). apply (IH _ n). rewrite dict_get_set.
      by destruct (decide _).
  - apply (IH _ z). rewrite dict_get_set. by destruct (decide _).
Qed.

Lemma env_mappings_attrs section :
  section ∈ ["redis"; "writer"; "reader"] →
  Forall (λ entry : string * mapping,
            match entry.2 with Attr attr => attr ≠ section | _ => True end) env_mappings.
Proof.
  intros Hin. assert (section ≠ "version" ∧ section ≠ "log_level") as [Hv Hl].
  { split; intros ->; repeat (apply elem_of_cons in Hin as [Hin|Hin]; [done|]);
      by apply elem_of_nil in Hin. }
  unfold env_mappings. repeat (apply List.Forall_cons; [simpl; try done; congruence|]).
  apply List.Forall_nil.
Qed.

Lemma env_mappings_converted var section attr :
  (var, Converted section attr) ∈ env_mappings → section ∈ ["redis"; "writer"; "reader"].
Proof.
  unfold env_mappings. intros Hin.
  repeat (apply elem_of_cons in Hin as [Hin|Hin];
          [try done; injection Hin as _ -> _;
           repeat first [apply list_elem_of_here|apply list_elem_of_further]|]).
  by apply elem_of_nil in Hin.
Qed.

(** X24. An integer override replaces the whole section.  When one of the
    integer variables of [_load_env_overrides] (port, db, writer count,
    batch size, TTL, reader count) is set to a valid integer, the
    configuration that is returned holds an integer in place of the section
    object ([config.redis], [config.writer] or [config.reader]), an integer
    given by one of the variables of that section; the attribute the
    variable names is not set. *)
Theorem integer_override_replaces_section environ attrs var section attr value n :
  (var, Converted section attr) ∈ env_mappings →
  environ !! var = Some value → py_int value = Some n →
  ∃ z, getattr (_load_env_overrides py_int environ (PyDict attrs)) section = Some (PyInt z).
Proof.
  intros Hin Hvar Hint. pose proof (env_mappings_converted _ _ _ Hin) as Hsec.
  pose proof (env_mappings_attrs section Hsec) as Hattrs.
  unfold _load_env_overrides.
  apply list_elem_of_split in Hin as (pre & post & Htable). rewrite Htable in Hattrs |- *.
  apply Forall_app in Hattrs as [_ Hattrs]. apply Forall_cons in Hattrs as [_ Hattrs].
  rewrite foldl_app. cbn [foldl].
  destruct (foldl_load_dict environ attrs pre) as (d1 & ->).
  assert (load_one py_int environ (PyDict d1) (var, Converted section attr)
          = PyDict (dict_set d1 section (PyInt n))) as ->.
  { unfold load_one, override. simpl. rewrite Hvar. simpl. by rewrite Hint. }
  destruct (foldl_load_keeps_int environ (dict_set d1 section (PyInt n)) post section n)
    as (d' & z & -> & Hz); [|done|by exists z].
  rewrite dict_get_set. by destruct (decide _).
Qed.

Lemma foldl_load_keeps_numbers environ d table section attrs :
  Forall (λ entry : string * mapping,
            match entry.2 with
            | SectionAttr _ attr => attr = "host" ∨ attr = "password"
            | _ => True
            end) table →
  (∀ attrs', dict_get d section = Some (PyDict attrs') →
     ∀ attr, attr ≠ "host" → attr ≠ "password" → dict_get attrs' attr = dict_get attrs attr) →
  ∃ d', foldl (load_one py_int environ) (PyDict d) table = PyDict d'
    ∧ ∀ attrs', dict_get d' section = Some (PyDict attrs') →
        ∀ attr, attr ≠ "host" → attr ≠ "password" → dict_get attrs' attr = dict_get attrs attr.
Proof.
  intros Htable. revert d.
  induction Htable as [|[var m] table Hm _ IH]; intros d Hinv; [by exists d|].
  cbn [foldl]. destruct (load_one_spec environ d var m) as [->|(value & x & _ & -> & Hx)];
    [by apply IH|].
  apply IH. intros attrs' Hsec attr Hhost Hpw. rewrite dict_get_set in Hsec.
  destruct (decide (first m = section)) as [Heq|Hne]; [|by apply Hinv].
  injection Hsec as ->.
  destruct m as [a|section' a|section' a]; simpl in *.
  - done.
  - destruct Hx as (attrs0 & Hsec0 & [= ->]). subst section'.
    rewrite dict_get_set. destruct (decide (a = attr)) as [<-|_]; [by destruct Hm|].
    by apply (Hinv attrs0).
  - by destruct Hx as (n & _ & ?).
Qed.

(** X25. No environment variable changes an integer setting of a section
    that is still an object after [_load_env_overrides]: such a section
    has all its attributes as before, except possibly [host] and
    [password].  So the port, the db, the writer count, the batch size,
    the TTL and the reader count cannot be set from the environment. *)
Theorem integer_settings_never_overridden environ config section attrs attrs' :
  getattr (PyDict config) section = Some (PyDict attrs) →
  getattr (_load_env_overrides py_int environ (PyDict config)) section = Some (PyDict attrs') →
  ∀ attr, attr ≠ "host" → attr ≠ "password" → dict_get attrs' attr = dict_get attrs attr.
Proof.
  intros Hbefore Hafter. unfold _load_env_overrides in Hafter.
  destruct (foldl_load_keeps_numbers environ config env_mappings section attrs)
    as (d' & Hd' & Hinv).
  - unfold env_mappings. repeat (apply List.Forall_cons; [simpl; auto|]). apply List.Forall_nil.
  - simpl in Hbefore. intros attrs0 Hsec. rewrite Hbefore in Hsec. by injection Hsec as ->.
  - rewrite Hd' in Hafter. by apply Hinv.
Qed.

Lemma foldl_load_ext environ environ' table config :
  (∀ entry c, entry ∈ table →
     load_one py_int environ c entry = load_one py_int environ' c entry) →
  foldl (load_one py_int environ) config table = foldl (load_one py_int environ') config table.
Proof.
  revert config. induction table as [|entry table IH]; intros config Hext; [done|].
  cbn [foldl]. rewrite Hext by apply list_elem_of_here. apply IH.
  intros entry' c Hin. apply Hext. by apply list_elem_of_further.
Qed.

Lemma env_mappings_NoDup : NoDup (env_mappings.*1).
Proof. apply (bool_decide_unpack _). vm_compute. exact I. Qed.

(** X26. An integer variable whose value [int] rejects is ignored:
    [_load_env_overrides] returns what it returns when the variable is not
    set, and does not raise. *)
Theorem invalid_integer_is_ignored environ config var section attr value :
  (var, Converted section attr) ∈ env_mappings →
  environ !! var = Some value → py_int value = None →
  _load_env_overrides py_int environ config
  = _load_env_overrides py_int (delete var environ) config.
Proof.
  intros Hin Hvar Hint. unfold _load_env_overrides. apply foldl_load_ext.
  intros [var' m'] c Hin'. unfold load_one. simpl.
  destruct (decide (var' = var)) as [->|Hne].
  - assert (m' = Converted section attr) as ->.
    { pose proof env_mappings_NoDup as Hnd.
      apply list_elem_of_lookup in Hin as (i & Hi). apply list_elem_of_lookup in Hin' as (j & Hj).
      assert (i = j) as ->.
      { eapply NoDup_lookup; [exact Hnd| |]; rewrite list_lookup_fmap.
        - by rewrite Hi.
        - by rewrite Hj. }
      congruence. }
    rewrite Hvar, lookup_delete_eq. unfold override. simpl. by rewrite Hint.
  - by rewrite lookup_delete_ne.
Qed.

End ConfigBehaviour.

Lemma integer_override_replaces_section_witness :
  ∃ z, Config.getattr
         (Config._load_env_overrides Behaviour.decimal_int
            {["LOCATIONFLEX_WRITER_TTL" := "600"]} (PyDict Behaviour.config)) "writer"
       = Some (PyInt z).
Proof.
  apply (integer_override_replaces_section Behaviour.decimal_int
           {["LOCATIONFLEX_WRITER_TTL" := "600"]} Behaviour.config
           "LOCATIONFLEX_WRITER_TTL" "writer" "key_ttl_seconds" "600" 600).
  - unfold Config.env_mappings. do 6 apply list_elem_of_further. apply list_elem_of_here.
  - vm_compute. reflexivity.
  - vm_compute. reflexivity.
Defined.

Lemma integer_settings_never_overridden_witness :
  Config.dict_get [("host", PyStr "db1"); ("port", PyInt 6379)] "port"
  = Config.dict_get [("host", PyStr "localhost"); ("port", PyInt 6379)] "port".
Proof.
  apply (integer_settings_never_overridden Behaviour.decimal_int
           {["LOCATIONFLEX_REDIS_HOST" := "db1"]} Behaviour.config "redis"
           [("host", PyStr "localhost"); ("port", PyInt 6379)]
           [("host", PyStr "db1"); ("port", PyInt 6379)]).
  - vm_compute. reflexivity.
  - vm_compute. reflexivity.
  - discriminate.
  - discriminate.
Defined.

Lemma invalid_integer_is_ignored_witness :
  Config._load_env_overrides Behaviour.decimal_int
    {["LOCATIONFLEX_WRITER_TTL" := "soon"]} (PyDict Behaviour.config)
  = Config._load_env_overrides Behaviour.decimal_int
      (delete "LOCATIONFLEX_WRITER_TTL" {["LOCATIONFLEX_WRITER_TTL" := "soon"]})
      (PyDict Behaviour.config).
Proof.
  apply (invalid_integer_is_ignored Behaviour.decimal_int
           {["LOCATIONFLEX_WRITER_TTL" := "soon"]} (PyDict Behaviour.config)
           "LOCATIONFLEX_WRITER_TTL" "writer" "key_ttl_seconds" "soon").
  - unfold Config.env_mappings. do 6 apply list_elem_of_further. apply list_elem_of_here.
  - vm_compute. reflexivity.
  - vm_compute. reflexivity.
Defined.

(** ** Loading the configuration *)

Section LoadConfig.
Import Config Behaviour.
Variable py_int : string → option Z.

Lemma deep_merge_cons key value items base :
  deep_merge (PyDict ((key, value) :: items)) base
  = result ← merge_item deep_merge base key value; deep_merge (PyDict items) result.
Proof. reflexivity. Qed.

Lemma dict_get_Some_keys {V} (d : dict V) k : is_Some (dict_get d k) ↔ k ∈ d.*1.
Proof.
  induction d as [|[k0 v0] d IH]; simpl.
  - split; [by intros [? ?]|by intros ?%elem_of_nil].
  - destruct (String.eqb_spec k0 k) as [->|Hne].
    + split; [intros _; apply list_elem_of_here|by eexists].
    + rewrite IH. split; [apply list_elem_of_further|].
      intros [?|?]%elem_of_cons; [congruence|done].
Qed.

Lemma dict_get_None_keys {V} (d : dict V) k : dict_get d k = None ↔ k ∉ d.*1.
Proof. rewrite <- dict_get_Some_keys, eq_None_not_Some. done. Qed.

(** [deep_merge] of a dict into a dict returns. *)
Lemma deep_merge_total_val override :
  ∀ base, match override with
          | PyDict _ => is_Some (deep_merge override base)
          | _ => True
          end.
Proof.
  revert override. fix IH 1. intros [| | | | | |items] base; try exact I.
  revert base. induction items as [|[key value] items IHitems]; intros base; [by eexists|].
  rewrite deep_merge_cons. unfold merge_item.
  destruct (dict_get base key) as [[| | | | | |b]|]; try apply IHitems.
  pose proof (IH value b) as Hvalue.
  destruct value as [| | | | | |o]; try apply IHitems.
  destruct Hvalue as [merged Hm]. cbn beta iota. rewrite Hm. apply IHitems.
Qed.

Lemma deep_merge_total items base : is_Some (deep_merge (PyDict items) base).
Proof. apply (deep_merge_total_val (PyDict items)). Qed.

Lemma merge_item_get base key value result :
  merge_item deep_merge base key value = Some result →
  ∀ k, dict_get result k
       = if decide (key = k) then
           match dict_get base key, value with
           | Some (PyDict b), PyDict _ => PyDict <$> deep_merge value b
           | _, _ => Some value
           end
         else dict_get base k.
Proof.
  unfold merge_item. intros Hitem k.
  destruct (dict_get base key) as [[| | | | | |b]|]; try (injection Hitem as <-; apply dict_get_set).
  destruct value as [| | | | | |o]; try (injection Hitem as <-; apply dict_get_set).
  destruct (deep_merge (PyDict o) b) as [merged|]; [|done].
  injection Hitem as <-. apply dict_get_set.
Qed.

(** What [deep_merge] leaves under a key: the base's value for a key the
    override does not have; for a key it has, the override's value, merged
    into the base's when both are dicts. *)
Lemma deep_merge_get items :
  ∀ base merged,
    NoDup items.*1 → deep_merge (PyDict items) base = Some merged →
    ∀ k, dict_get merged k
         = match dict_get items k with
           | None => dict_get base k
           | Some value =>
               match dict_get base k, value with
               | Some (PyDict b), PyDict _ => PyDict <$> deep_merge value b
               | _, _ => Some value
               end
           end.
Proof.
  induction items as [|[key value] items IH]; intros base merged Hnd Hmerge k.
  { by injection Hmerge as <-. }
  rewrite deep_merge_cons in Hmerge. rewrite fmap_cons in Hnd. apply NoDup_cons in Hnd as [Hkey Hnd].
  destruct (merge_item deep_merge base key value) as [result|] eqn:Hitem; [|done].
  rewrite (IH result merged Hnd Hmerge k), (merge_item_get _ _ _ _ Hitem k).
  cbn [dict_get]. destruct (String.eqb_spec key k) as [->|Hne].
  - destruct (decide (k = k)); [|done].
    by rewrite (proj2 (dict_get_None_keys items k) Hkey).
  - by destruct (decide (key = k)).
Qed.

Lemma deep_merge_keys items :
  ∀ base merged, deep_merge (PyDict items) base = Some merged →
    ∀ k, k ∈ base.*1 ∨ k ∈ items.*1 → k ∈ merged.*1.
Proof.
  induction items as [|[key value] items IH]; intros base merged Hmerge k Hk.
  { injection Hmerge as <-. destruct Hk as [Hk|Hk]; [done|by apply elem_of_nil in Hk]. }
  rewrite deep_merge_cons in Hmerge.
  destruct (merge_item deep_merge base key value) as [result|] eqn:Hitem; [|done].
  apply (IH result merged Hmerge k).
  rewrite fmap_cons in Hk. rewrite <- (dict_get_Some_keys result), (merge_item_get _ _ _ _ Hitem k).
  destruct (decide (key = k)) as [->|Hne].
  - left. unfold merge_item in Hitem.
    destruct (dict_get base k) as [[| | | | | |b]|]; try by eexists.
    destruct value as [| | | | | |o]; try by eexists.
    destruct (deep_merge (PyDict o) b); [by eexists|done].
  - destruct Hk as [Hk|[?|Hk]%elem_of_cons]; [left; by apply dict_get_Some_keys|done|by right].
Qed.

(** X27. [deep_merge] of a dict into a dict always returns, and leaves
    under a key the base's value when the override does not have the key,
    and else the override's value, merged in the same way into the base's
    value when both are dicts.  The override is a dict as [json.load] makes
    them: no key twice. *)
Theorem deep_merge_lookup items base :
  NoDup items.*1 →
  ∃ merged, deep_merge (PyDict items) base = Some merged
    ∧ ∀ k, dict_get merged k
           = match dict_get items k with
             | None => dict_get base k
             | Some value =>
                 match dict_get base k, value with
                 | Some (PyDict b), PyDict _ => PyDict <$> deep_merge value b
                 | _, _ => Some value
                 end
             end.
Proof.
  intros Hnd. destruct (deep_merge_total items base) as [merged Hmerge].
  exists merged. split; [done|]. by apply deep_merge_get.
Qed.

Lemma merge_config_shape day base file_config config :
  _merge_config day base file_config = Some config →
  ∃ redis writer reader network log_level log_format,
    config = LocationFlexConfig_of day redis writer reader network log_level log_format.
Proof.
  unfold _merge_config. destruct base as [| | | | | |config_dict]; try done.
  destruct (deep_merge _ _) as [merged|]; [|done]. simpl.
  destruct (construct RedisConfig_fields _) as [redis|]; [|done]. simpl.
  destruct (construct WriterConfig_fields _) as [writer|]; [|done]. simpl.
  destruct (construct ReaderConfig_fields _) as [reader|]; [|done]. simpl.
  destruct (NetworkConfig _) as [network|]; [|done]. simpl.
  intros [= <-]. by eexists _, _, _, _, _, _.
Qed.

Lemma foldl_load_other environ d table k :
  Forall (λ entry : string * mapping, first entry.2 ≠ k) table →
  ∃ d', foldl (load_one py_int environ) (PyDict d) table = PyDict d'
    ∧ dict_get d' k = dict_get d k.
Proof.
  intros Htable. revert d. induction Htable as [|[var m] table Hm _ IH]; intros d; [by exists d|].
  cbn [foldl]. destruct (load_one_spec py_int environ d var m) as [->|(_ & x & _ & -> & _)];
    [apply IH|].
  destruct (IH (dict_set d (first m) x)) as (d' & -> & Hget). exists d'. split; [done|].
  rewrite Hget, dict_get_set. by destruct (decide _).
Qed.

(** X28. The version of the configuration [load_config] returns is the
    value of [LOCATIONFLEX_VERSION] when the variable is set, and else the
    version of the day, [v] followed by the day of the month: it never
    comes from the configuration file, whatever the file holds. *)
Theorem load_config_version_not_from_file day file environ :
  getattr (load_config py_int day file environ) "version"
  = Some (PyStr (default (generate_version_from_date day)
                         (environ !! "LOCATIONFLEX_VERSION"))).
Proof.
  unfold load_config.
  assert (∃ redis writer reader network log_level log_format,
            match file with
            | Some (Some file_config) =>
                default (LocationFlexConfig day)
                        (_merge_config day (LocationFlexConfig day) file_config)
            | _ => LocationFlexConfig day
            end
            = LocationFlexConfig_of day redis writer reader network log_level log_format)
    as (redis & writer & reader & network & log_level & log_format & ->).
  { destruct file as [[file_config|]|]; try by eexists _, _, _, _, _, _.
    destruct (_merge_config _ _ _) as [config|] eqn:Hmerge; [|by eexists _, _, _, _, _, _].
    by apply merge_config_shape in Hmerge. }
  unfold _load_env_overrides, LocationFlexConfig_of.
  change env_mappings
    with (take 8 env_mappings
          ++ [(ENV_PREFIX +:+ "VERSION", Attr "version");
              (ENV_PREFIX +:+ "LOG_LEVEL", Attr "log_level")]).
  rewrite foldl_app.
  match goal with
  | |- context [foldl _ (PyDict ?d) (take 8 env_mappings)] =>
      destruct (foldl_load_other environ d (take 8 env_mappings) "version")
        as (d1 & -> & Hversion)
  end.
  { unfold env_mappings. simpl. repeat (apply List.Forall_cons; [done|]). apply List.Forall_nil. }
  cbn [foldl].
  assert (∃ d2, load_one py_int environ (PyDict d1) (ENV_PREFIX +:+ "VERSION", Attr "version")
                = PyDict d2
            ∧ dict_get d2 "version"
              = Some (PyStr (default (generate_version_from_date day)
                                     (environ !! "LOCATIONFLEX_VERSION")))) as (d2 & -> & Hd2).
  { unfold load_one. cbn [fst snd].
    change (ENV_PREFIX +:+ "VERSION") with "LOCATIONFLEX_VERSION".
    destruct (environ !! "LOCATIONFLEX_VERSION") as [value|]; simpl.
    - eexists. split; [done|]. rewrite dict_get_set. by destruct (decide _).
    - exists d1. split; [done|]. by rewrite Hversion. }
  destruct (load_one_spec py_int environ d2 (ENV_PREFIX +:+ "LOG_LEVEL") (Attr "log_level"))
    as [->|(_ & x & _ & -> & _)]; [done|].
  simpl. rewrite dict_get_set. by destruct (decide _).
Qed.

Lemma construct_unknown fields items key :
  key ∈ items.*1 → key ∉ fields.*1 → construct fields (PyDict items) = None.
Proof.
  intros Hin Hnot. unfold construct.
  destruct (forallb _ items) eqn:Hall; [|done]. exfalso.
  apply list_elem_of_fmap in Hin as ([k v] & -> & Hin).
  rewrite forallb_forall in Hall. specialize (Hall (k, v)).
  apply bool_decide_eq_true in Hall; [done|]. by apply list_elem_of_In.
Qed.

Lemma construct_no_arguments fields base value merged :
  no_arguments_for fields value →
  match base, value with
  | Some (PyDict b), PyDict _ => PyDict <$> deep_merge value b
  | _, _ => Some value
  end = Some merged →
  construct fields merged = None.
Proof.
  intros Hbad Hmerged.
  assert (∀ v, v = value → Some value = Some merged → construct fields merged = None) as Hplain.
  { intros v -> [= <-]. destruct value as [| | | | | |o]; try done.
    destruct Hbad as (key & Hin & Hnot). by eapply construct_unknown. }
  destruct base as [[| | | | | |b]|]; try by eapply Hplain.
  destruct value as [| | | | | |o]; try by eapply Hplain.
  destruct Hbad as (key & Hin & Hnot).
  destruct (deep_merge (PyDict o) b) as [m|] eqn:Hm; [|done]. injection Hmerged as <-.
  eapply construct_unknown; [|exact Hnot]. eapply deep_merge_keys; [exact Hm|by right].
Qed.

(** X29. [load_config] discards the whole configuration file, and goes on
    with the defaults, when the file holds anything but a dict, or holds
    under one of the four sections a value that is no dict or a dict with
    a key that names no field of the section: the settings the file gives
    for the other sections are lost too. *)
Theorem file_with_bad_section_is_discarded day file_config environ :
  (match file_config with
   | PyDict items =>
       NoDup items.*1
       ∧ ∃ section fields value,
           (section, fields) ∈ sections
           ∧ dict_get items section = Some value
           ∧ no_arguments_for fields value
   | _ => True
   end) →
  load_config py_int day (Some (Some file_config)) environ
  = load_config py_int day None environ.
Proof.
  intros Hbad. unfold load_config.
  assert (_merge_config day (LocationFlexConfig day) file_config = None) as ->; [|done].
  unfold _merge_config, LocationFlexConfig, LocationFlexConfig_of.
  destruct file_config as [| | | | | |items]; try done.
  destruct Hbad as (Hnd & section & fields & value & Hsec & Hvalue & Hno).
  destruct (deep_merge (PyDict items) _) as [merged|] eqn:Hmerge; [|done].
  pose proof (deep_merge_get items _ merged Hnd Hmerge section) as Hget.
  rewrite Hvalue in Hget.
  assert (construct fields (get_or merged section (PyDict [])) = None) as Hc.
  { unfold get_or. destruct (dict_get merged section) as [m|] eqn:Hm.
    - simpl. symmetry in Hget. by apply (construct_no_arguments _ _ _ _ Hno Hget).
    - apply dict_get_None_keys in Hm. destruct Hm.
      eapply deep_merge_keys; [exact Hmerge|]. right.
      apply dict_get_Some_keys. by rewrite Hvalue. }
  clear Hget. unfold sections in Hsec. cbn [mbind option_bind].
  apply elem_of_cons in Hsec as [[= -> ->]|Hsec]; [by rewrite Hc|].
  destruct (construct RedisConfig_fields _) as [redis|]; [|done]. cbn [mbind option_bind].
  apply elem_of_cons in Hsec as [[= -> ->]|Hsec]; [by rewrite Hc|].
  destruct (construct WriterConfig_fields _) as [writer|]; [|done]. cbn [mbind option_bind].
  apply elem_of_cons in Hsec as [[= -> ->]|Hsec]; [by rewrite Hc|].
  destruct (construct ReaderConfig_fields _) as [reader|]; [|done]. cbn [mbind option_bind].
  apply elem_of_cons in Hsec as [[= -> ->]|Hsec]; [|by apply elem_of_nil in Hsec].
  unfold NetworkConfig. by rewrite Hc.
Qed.

End LoadConfig.

Lemma deep_merge_lookup_witness :
  ∃ merged,
    Config.deep_merge (PyDict [("redis", PyDict [("port", PyInt 7000)])]) Behaviour.config
    = Some merged
    ∧ Config.dict_get merged "version" = Some (PyStr "v4").
Proof.
  destruct (deep_merge_lookup [("redis", PyDict [("port", PyInt 7000)])] Behaviour.config)
    as (merged & Hmerge & Hget).
  - apply NoDup_singleton.
  - exists merged. split; [done|]. by rewrite Hget.
Defined.

Lemma file_with_bad_section_is_discarded_witness :
  Config.load_config Behaviour.decimal_int 4
    (Some (Some (PyDict [("redis", PyDict [("prot", PyInt 7000)]);
                         ("writer", PyDict [("batch_size", PyInt 10)])]))) ∅
  = Config.load_config Behaviour.decimal_int 4 None ∅.
Proof.
  apply (file_with_bad_section_is_discarded Behaviour.decimal_int 4
           (PyDict [("redis", PyDict [("prot", PyInt 7000)]);
                    ("writer", PyDict [("batch_size", PyInt 10)])]) ∅).
  split.
  - apply (bool_decide_unpack _). vm_compute. exact I.
  - exists "redis", Config.RedisConfig_fields, (PyDict [("prot", PyInt 7000)]).
    split; [apply list_elem_of_here|]. split; [reflexivity|].
    exists "prot". split; [apply list_elem_of_here|].
    apply (bool_decide_unpack _). vm_compute. exact I.
Defined.

(** ** The checks of the custom import *)

Section CustomImport.
Import ParallelWriter StartParallel.

(** X30. An import that [custom_import] does not refuse has between 1 and
    32 writers and at least 100 keys, so that [run_parallel_import] gives
    every writer a range of at least 3 keys: no writer is idle. *)
Theorem custom_import_keeps_writers_busy writers keys :
  custom_import_refusal writers keys = None →
  ∃ tasks, submitted_tasks keys writers = Ret tasks
    ∧ Z.of_nat (length tasks) = writers
    ∧ ∀ t, t ∈ tasks → 3 ≤ end_key t - start_key t.
Proof.
  unfold custom_import_refusal.
  destruct (Z.ltb_spec writers 1); [done|]. destruct (Z.ltb_spec 32 writers); [done|]. simpl.
  destruct (Z.ltb_spec keys 100); [done|]. intros _.
  unfold submitted_tasks. rewrite (proj2 (Z.eqb_neq writers 0)), (proj2 (Z.ltb_ge writers 0)) by lia.
  eexists. split; [done|].
  split; [unfold Py.range; rewrite !length_fmap, length_seq; lia|].
  intros t Ht. apply list_elem_of_lookup in Ht as (i & Hi). apply task_for_lookup in Hi as [-> Hlt].
  assert (3 ≤ keys / writers) as Hdiv by (apply Z.div_le_lower_bound; lia).
  pose proof (Z.mod_pos_bound keys writers ltac:(lia)) as Hmod.
  simpl. destruct (_ =? _); lia.
Qed.

End CustomImport.

Lemma custom_import_keeps_writers_busy_witness :
  ∃ tasks, ParallelWriter.submitted_tasks 1000 4 = Ret tasks
    ∧ ∀ t, t ∈ tasks → 3 ≤ ParallelWriter.end_key t - ParallelWriter.start_key t.
Proof.
  destruct (custom_import_keeps_writers_busy 4 1000 eq_refl) as (tasks & Htasks & _ & Hbusy).
  by exists tasks.
Defined.
